(** * ReplaceVerifierFuns: a shallow embedding of the LLVM module pass

    The pass of [transforms/ReplaceVerifierFuns.cpp] collects the calls that
    mention a declared [__VERIFIER_nondet_*], [malloc*] or [calloc*]
    function, re-reads the referenced lines of the original source text, and
    then rewrites the module: a nondeterministic call becomes a stack slot
    registered with [klee_make_nondet] and a load, an allocation call is
    followed by a registration of the returned memory.

    The embedding keeps the shape of the C++ code: the pass object and the
    module are threaded through a state-and-failure monad, the LLVM values
    the pass touches are an inductive type, and instructions are named by
    the identity LLVM gives them (here a number drawn from a counter of the
    module, standing for the address of the [Instruction] object). *)

From Stdlib Require Import Ascii.
From stdpp Require Import base tactics option list strings gmap pretty.

Set Warnings "-register-all".
Open Scope string_scope.
Open Scope list_scope.

(** ** Text: [std::istringstream] and [getName] *)

Module Text.

(** [std::istringstream iss(line)] is only ever read with
    [iss >> sub] on a [std::string]: each extraction skips the white space of
    the classic locale (blank, TAB, LF, VT, FF, CR), erases [sub] and reads up
    to the next white space.  The stream is therefore modelled by the
    sequence of tokens still to be extracted. *)
Definition istringstream := list string.

Definition istringstream_of (line : string) : istringstream :=
  String.words line.

(** [iss >> sub]: the new stream, the new content of [sub], and the
    stream's truth value.  A failed extraction leaves [sub] as it was. *)
Definition extract (iss : istringstream) (sub : string)
  : istringstream * string * bool :=
  match iss with
  | [] => ([], sub, false)
  | tok :: rest => (rest, tok, true)
  end.

(** The loop of [getName]:
<<
  while (iss >> sub) {
    if (sub == "=") break;
    var = std::move(sub);
  }
>>
    A moved-from [std::string] is left empty (libstdc++ and libc++ both do
    so), hence [sub] is [""] after the move. *)
Fixpoint getName_loop (iss : istringstream) (sub var : string)
  : istringstream * string * string :=
  match iss with
  | [] => ([], sub, var)
  | tok :: rest =>
      if String.eqb tok "=" then (rest, tok, var)
      else getName_loop rest "" tok
  end.

(** [sub.compare(0, 18, "__VERIFIER_nondet_") == 0] *)
Definition compare_0_18 (sub : string) : bool :=
  String.eqb (String.substring 0 18 sub) "__VERIFIER_nondet_".

Definition getName (line : string) : string :=
  let '(iss, sub, var) := getName_loop (istringstream_of line) "" "" in
  if negb (String.eqb var "") && String.eqb sub "=" then
    let '(_, sub, _) := extract iss sub in
    if compare_0_18 sub then var else "--"
  else "--".

(** *** The extractor as the specification words it

    Tokenize on white space; find the first [=] token; the tracked token is
    the one just before it; the answer is the tracked token when it is not
    empty and the token just after the [=] begins with the stub prefix, and
    the placeholder otherwise. *)
Definition tracked_token (toks : list string) (i : nat) : string :=
  match i with
  | O => ""
  | S j => default "" (toks !! j)
  end.

Definition begins_with_stub_prefix (tok : option string) : bool :=
  match tok with
  | Some t => String.prefix "__VERIFIER_nondet_" t
  | None => false
  end.

Definition recognized (line : string) : option string :=
  let toks := String.words line in
  match list_find (λ t, t = "=") toks with
  | Some (i, _) =>
      let var := tracked_token toks i in
      if bool_decide (var ≠ "") && begins_with_stub_prefix (toks !! S i)
      then Some var else None
  | None => None
  end.

Definition getName_spec (line : string) : string :=
  default "--" (recognized line).

End Text.

(** ** The fragment of LLVM IR the pass reads and writes *)

Module IR.

Inductive type :=
  | VoidTy
  | IntegerTy (bits : N)
  | PointerTy (pointee : type)
  | ArrayTy (n : N) (elt : type)
  | FunctionTy (ret : type) (params : list type) (vararg : bool)
  | OtherTy (name : string).

Fixpoint type_eqb (a b : type) : bool :=
  match a, b with
  | VoidTy, VoidTy => true
  | IntegerTy n, IntegerTy m => (n =? m)%N
  | PointerTy x, PointerTy y => type_eqb x y
  | ArrayTy n x, ArrayTy m y => (n =? m)%N && type_eqb x y
  | FunctionTy r ps v, FunctionTy r' ps' v' =>
      type_eqb r r'
      && (fix all2 (l l' : list type) : bool :=
            match l, l' with
            | [], [] => true
            | x :: l, y :: l' => type_eqb x y && all2 l l'
            | _, _ => false
            end) ps ps'
      && Bool.eqb v v'
  | OtherTy s, OtherTy s' => String.eqb s s'
  | _, _ => false
  end.

Definition Int8Ty : type := IntegerTy 8.
Definition Int32Ty : type := IntegerTy 32.
Definition Int64Ty : type := IntegerTy 64.
Definition Int8PtrTy : type := PointerTy Int8Ty.

(** Values.  An instruction is named by its identity, a function by its
    name (unique in a module), a global variable by its position in the
    module's list of globals. *)
Inductive value :=
  | Inst (id : nat)
  | Argument (ty : type) (n : nat)
  | ConstantInt (ty : type) (v : N)
  | FunctionRef (name : string)
  | GlobalRef (g : nat)
  | ConstantPointerCast (c : value) (ty : type).

(** [ConstantInt::get(Ty, V)] keeps the low bits of [V] that fit [Ty]. *)
Definition ConstantInt_get (ty : type) (v : N) : value :=
  match ty with
  | IntegerTy bits => ConstantInt ty (v mod 2 ^ bits)
  | _ => ConstantInt ty v
  end.

Inductive opcode :=
  | Call (callee : value) (args : list value)
  | Alloca (allocated : type)
  | PointerCast (v : value)
  | Load (ptr : value)
  | Mul (a b : value)
  | Other (ops : list value).

(** [idebugloc] is the line of the [DebugLoc], when the instruction has one;
    [imetadata] are the other attachments, [iattributes] the call
    attributes. *)
Record instruction := {
  iid : nat;
  iname : string;
  itype : type;
  iop : opcode;
  idebugloc : option N;
  imetadata : list (N * string);
  iattributes : list string;
}.

(** An instruction as its constructor leaves it: no debug location, no
    metadata, no attributes. *)
Definition created (id : nat) (op : opcode) (ty : type) (name : string)
  : instruction :=
  {| iid := id; iname := name; itype := ty; iop := op;
     idebugloc := None; imetadata := []; iattributes := [] |}.

(** [getAllMetadata] then [setMetadata] for each entry, which carries the
    debug location along, and [setAttributes(CI->getAttributes())]. *)
Definition copy_metadata_and_attributes (from to : instruction)
  : instruction :=
  {| iid := iid to; iname := iname to; itype := itype to; iop := iop to;
     idebugloc := idebugloc from; imetadata := imetadata from;
     iattributes := iattributes from |}.

(** The operand list, in LLVM's order: a call's callee is its last operand. *)
Definition operands (i : instruction) : list value :=
  match iop i with
  | Call callee args => args ++ [callee]
  | Alloca _ => []
  | PointerCast v => [v]
  | Load p => [p]
  | Mul a b => [a; b]
  | Other ops => ops
  end.

Definition is_inst (id : nat) (v : value) : bool :=
  match v with Inst j => Nat.eqb j id | _ => false end.

Definition is_function (name : string) (v : value) : bool :=
  match v with FunctionRef f => String.eqb f name | _ => false end.

(** One use is rewritten: [old] becomes [new]. *)
Definition subst_value (old : nat) (new : value) (v : value) : value :=
  if is_inst old v then new else v.

Definition subst_opcode (old : nat) (new : value) (o : opcode) : opcode :=
  match o with
  | Call callee args =>
      Call (subst_value old new callee) (subst_value old new <$> args)
  | Alloca t => Alloca t
  | PointerCast v => PointerCast (subst_value old new v)
  | Load p => Load (subst_value old new p)
  | Mul a b => Mul (subst_value old new a) (subst_value old new b)
  | Other ops => Other (subst_value old new <$> ops)
  end.

Definition subst_instruction (old : nat) (new : value) (i : instruction)
  : instruction :=
  {| iid := iid i; iname := iname i; itype := itype i;
     iop := subst_opcode old new (iop i);
     idebugloc := idebugloc i; imetadata := imetadata i;
     iattributes := iattributes i |}.

Definition basic_block := list instruction.

(** A function without blocks is a declaration. *)
Record function := {
  fname : string;
  ftype : type;
  fblocks : list basic_block;
}.

Definition isDeclaration (F : function) : bool :=
  match fblocks F with [] => true | _ => false end.

Inductive initializer :=
  | ConstantDataArray_String (s : string)
  | OtherInitializer.

Record global_variable := {
  gname : string;
  gtype : type;
  gconstant : bool;
  gprivate : bool;
  ginit : initializer;
}.

(** A module.  [fresh] is the identity the next created instruction gets;
    [pointer_size_bits] and [type_alloc_size] are the two questions the pass
    asks the data layout. *)
Record module := {
  functions : list function;
  globals : list global_variable;
  fresh : nat;
  pointer_size_bits : N;
  type_alloc_size : type → N;
}.

Definition function_insts (F : function) : list instruction :=
  concat (fblocks F).

Definition blocks (m : module) : list basic_block :=
  flat_map fblocks (functions m).

Definition insts (m : module) : list instruction :=
  flat_map function_insts (functions m).

Definition has_id (id : nat) (i : instruction) : bool := Nat.eqb (iid i) id.

Definition find_inst (id : nat) (l : list instruction)
  : option instruction :=
  List.find (has_id id) l.

Definition lookup_inst (m : module) (id : nat) : option instruction :=
  find_inst id (insts m).

(** [I->getParent()->getParent()] *)
Definition find_parent (id : nat) (fs : list function) : option function :=
  List.find (λ F, existsb (has_id id) (function_insts F)) fs.

Definition parent_function (m : module) (id : nat) : option function :=
  find_parent id (functions m).

Definition find_function (name : string) (fs : list function)
  : option function :=
  List.find (λ F, String.eqb (fname F) name) fs.

Definition lookup_function (m : module) (name : string) : option function :=
  find_function name (functions m).

Definition getType (m : module) (v : value) : option type :=
  match v with
  | Inst id => itype <$> lookup_inst m id
  | Argument ty _ => Some ty
  | ConstantInt ty _ => Some ty
  | FunctionRef f => (λ F, PointerTy (ftype F)) <$> lookup_function m f
  | GlobalRef g => (λ G, PointerTy (gtype G)) <$> globals m !! g
  | ConstantPointerCast _ ty => Some ty
  end.

Definition with_functions (fs : list function) (m : module) : module :=
  {| functions := fs; globals := globals m; fresh := fresh m;
     pointer_size_bits := pointer_size_bits m;
     type_alloc_size := type_alloc_size m |}.

Definition with_globals (gs : list global_variable) (m : module) : module :=
  {| functions := functions m; globals := gs; fresh := fresh m;
     pointer_size_bits := pointer_size_bits m;
     type_alloc_size := type_alloc_size m |}.

Definition with_fresh (n : nat) (m : module) : module :=
  {| functions := functions m; globals := globals m; fresh := n;
     pointer_size_bits := pointer_size_bits m;
     type_alloc_size := type_alloc_size m |}.

(** Every edit of the instruction lists is local to one instruction: it
    is replaced, in its block, by a list of instructions. *)
Definition edit_function (h : instruction → list instruction) (F : function)
  : function :=
  {| fname := fname F; ftype := ftype F;
     fblocks := flat_map h <$> fblocks F |}.

Definition edit (h : instruction → list instruction) (m : module) : module :=
  with_functions (edit_function h <$> functions m) m.

(** [New->insertBefore(Pos)], [New->insertAfter(Pos)] *)
Definition insertBefore (new : instruction) (pos : nat) : module → module :=
  edit (λ i, if has_id pos i then [new; i] else [i]).

Definition insertAfter (new : instruction) (pos : nat) : module → module :=
  edit (λ i, if has_id pos i then [i; new] else [i]).

(** [Old->replaceAllUsesWith(New)] *)
Definition replaceAllUsesWith (old : nat) (new : value) : module → module :=
  edit (λ i, [subst_instruction old new i]).

(** [I->eraseFromParent()] *)
Definition eraseFromParent (id : nat) : module → module :=
  edit (λ i, if has_id id i then [] else [i]).

(** The call instructions that use the function [name], once per operand
    slot that holds it, as walking [F.use_begin() .. F.use_end()] and
    keeping the users that are a [CallInst] gives them.  LLVM fixes no
    order on a use list; the model walks the module in program order. *)
Definition call_uses (m : module) (name : string) : list instruction :=
  flat_map
    (λ i, match iop i with
          | Call callee args =>
              replicate
                (length (List.filter (is_function name) (operands i))) i
          | _ => []
          end)
    (insts m).

End IR.

(** ** The pass *)

Module Pass.
Import IR.

(** How a run can stop early: [abort()], a failed [assert] of the pass (when
    it is compiled without [NDEBUG]), or a step that has no defined
    behaviour (an erased instruction is touched, a null pointer is
    dereferenced, a checked LLVM cast fails). *)
Inductive failure :=
  | Abort
  | AssertionFailure (condition : string)
  | Undefined (what : string).

(** What the pass finds around it: whether its [assert]s are compiled
    out, the option [-replace-verifier-funs-source], and what opening that
    path gives: [None] when the file cannot be opened, else the lines that
    successive [getline] calls return. *)
Record environment := {
  NDEBUG : bool;
  source_name : string;
  source_file : option (list string);
}.

(** The pass object (its members keep the names of the class), the
    function-local static counter of [handleAlloc], the module [M] and what
    was written to [errs()]. *)
Record world := {
  calls_to_replace : list (N * nat);
  allocs_to_handle : list (N * nat);
  lines_nums : gset N;
  lines : gmap N string;
  _vms : option string;
  _size_t_Ty : option type;
  call_identifier : N;
  handleAlloc_call_identifier : N;
  M : module;
  errs : string;
}.

(** A freshly constructed pass in a fresh process, about to run on [m]. *)
Definition initial (m : module) : world :=
  {| calls_to_replace := []; allocs_to_handle := [];
     lines_nums := ∅; lines := ∅;
     _vms := None; _size_t_Ty := None;
     call_identifier := 0; handleAlloc_call_identifier := 0;
     M := m; errs := "" |}.

Definition with_calls_to_replace (x : list (N * nat)) (w : world) : world :=
  {| calls_to_replace := x; allocs_to_handle := allocs_to_handle w;
     lines_nums := lines_nums w; lines := lines w; _vms := _vms w;
     _size_t_Ty := _size_t_Ty w; call_identifier := call_identifier w;
     handleAlloc_call_identifier := handleAlloc_call_identifier w;
     M := M w; errs := errs w |}.

Definition with_allocs_to_handle (x : list (N * nat)) (w : world) : world :=
  {| calls_to_replace := calls_to_replace w; allocs_to_handle := x;
     lines_nums := lines_nums w; lines := lines w; _vms := _vms w;
     _size_t_Ty := _size_t_Ty w; call_identifier := call_identifier w;
     handleAlloc_call_identifier := handleAlloc_call_identifier w;
     M := M w; errs := errs w |}.

Definition with_lines_nums (x : gset N) (w : world) : world :=
  {| calls_to_replace := calls_to_replace w;
     allocs_to_handle := allocs_to_handle w;
     lines_nums := x; lines := lines w; _vms := _vms w;
     _size_t_Ty := _size_t_Ty w; call_identifier := call_identifier w;
     handleAlloc_call_identifier := handleAlloc_call_identifier w;
     M := M w; errs := errs w |}.

Definition with_lines (x : gmap N string) (w : world) : world :=
  {| calls_to_replace := calls_to_replace w;
     allocs_to_handle := allocs_to_handle w;
     lines_nums := lines_nums w; lines := x; _vms := _vms w;
     _size_t_Ty := _size_t_Ty w; call_identifier := call_identifier w;
     handleAlloc_call_identifier := handleAlloc_call_identifier w;
     M := M w; errs := errs w |}.

Definition with_vms (x : option string) (w : world) : world :=
  {| calls_to_replace := calls_to_replace w;
     allocs_to_handle := allocs_to_handle w;
     lines_nums := lines_nums w; lines := lines w; _vms := x;
     _size_t_Ty := _size_t_Ty w; call_identifier := call_identifier w;
     handleAlloc_call_identifier := handleAlloc_call_identifier w;
     M := M w; errs := errs w |}.

Definition with_size_t_Ty (x : option type) (w : world) : world :=
  {| calls_to_replace := calls_to_replace w;
     allocs_to_handle := allocs_to_handle w;
     lines_nums := lines_nums w; lines := lines w; _vms := _vms w;
     _size_t_Ty := x; call_identifier := call_identifier w;
     handleAlloc_call_identifier := handleAlloc_call_identifier w;
     M := M w; errs := errs w |}.

Definition with_call_identifier (x : N) (w : world) : world :=
  {| calls_to_replace := calls_to_replace w;
     allocs_to_handle := allocs_to_handle w;
     lines_nums := lines_nums w; lines := lines w; _vms := _vms w;
     _size_t_Ty := _size_t_Ty w; call_identifier := x;
     handleAlloc_call_identifier := handleAlloc_call_identifier w;
     M := M w; errs := errs w |}.

Definition with_handleAlloc_call_identifier (x : N) (w : world) : world :=
  {| calls_to_replace := calls_to_replace w;
     allocs_to_handle := allocs_to_handle w;
     lines_nums := lines_nums w; lines := lines w; _vms := _vms w;
     _size_t_Ty := _size_t_Ty w; call_identifier := call_identifier w;
     handleAlloc_call_identifier := x;
     M := M w; errs := errs w |}.

Definition with_M (x : module) (w : world) : world :=
  {| calls_to_replace := calls_to_replace w;
     allocs_to_handle := allocs_to_handle w;
     lines_nums := lines_nums w; lines := lines w; _vms := _vms w;
     _size_t_Ty := _size_t_Ty w; call_identifier := call_identifier w;
     handleAlloc_call_identifier := handleAlloc_call_identifier w;
     M := x; errs := errs w |}.

Definition with_errs (x : string) (w : world) : world :=
  {| calls_to_replace := calls_to_replace w;
     allocs_to_handle := allocs_to_handle w;
     lines_nums := lines_nums w; lines := lines w; _vms := _vms w;
     _size_t_Ty := _size_t_Ty w; call_identifier := call_identifier w;
     handleAlloc_call_identifier := handleAlloc_call_identifier w;
     M := M w; errs := x |}.

(** *** State and failure

    A computation runs from a world to a value and a world, or stops with
    a failure in the world it had reached. *)
Inductive outcome (A : Type) :=
  | Done (a : A) (w : world)
  | Stop (f : failure) (w : world).
Arguments Done {A} a w.
Arguments Stop {A} f w.

Definition run (A : Type) : Type := world → outcome A.

Definition ret {A} (a : A) : run A := λ w, Done a w.

Definition bind {A B} (c : run A) (k : A → run B) : run B :=
  λ w, match c w with
       | Done a w' => k a w'
       | Stop f w' => Stop f w'
       end.

Definition fail {A} (f : failure) : run A := λ w, Stop f w.
Definition get {A} (proj : world → A) : run A := λ w, Done (proj w) w.
Definition modify (f : world → world) : run unit := λ w, Done tt (f w).

Notation "'let*' x ':=' c 'in' k" := (bind c (λ x, k))
  (at level 10, x pattern, c at level 100, k at level 200).
Notation "c ';;' k" := (bind c (λ _, k))
  (at level 100, k at level 200, right associativity).

(** A pointer that must be valid to be followed. *)
Definition deref {A} (what : string) (p : option A) : run A :=
  match p with
  | Some a => ret a
  | None => fail (Undefined what)
  end.

Fixpoint for_each {A} (body : A → run unit) (l : list A) : run unit :=
  match l with
  | [] => ret tt
  | x :: l => body x ;; for_each body l
  end.

(** [unsigned] arithmetic *)
Definition UINT_MODULUS : N := 2 ^ 32.
Definition unsigned_succ (n : N) : N := (n + 1) mod UINT_MODULUS.

Section WithEnvironment.

Variable env : environment.

(** [assert(cond)] of the pass *)
Definition assert (cond : bool) (text : string) : run unit :=
  if NDEBUG env then ret tt
  else if cond then ret tt else fail (AssertionFailure text).

(** *** Resolvers *)

Definition get_size_t : run type :=
  let* cached := get _size_t_Ty in
  match cached with
  | Some ty => ret ty
  | None =>
      let* m := get M in
      let ty := if (32 <? pointer_size_bits m)%N then Int64Ty else Int32Ty in
      modify (with_size_t_Ty (Some ty)) ;;
      ret ty
  end.

(** [M.getOrInsertFunction(Name, Ty)]: the function of that name when it
    exists with the requested type; a constant cast of whatever global value
    has that name otherwise; a new declaration, appended to the module, when
    the name is free.  The pass follows the result with
    [cast<Function>], which only a function survives. *)
Definition declaration (name : string) (ty : type) : function :=
  {| fname := name; ftype := ty; fblocks := [] |}.

Definition getOrInsertFunction_cast (name : string) (ty : type) : run string :=
  let* m := get M in
  match lookup_function m name with
  | Some F =>
      if type_eqb (ftype F) ty then ret name
      else fail (Undefined "cast<Function> of a constant expression")
  | None =>
      if existsb (λ G, String.eqb (gname G) name) (globals m)
      then fail (Undefined "cast<Function> of a constant expression")
      else
        modify (with_M (with_functions
                          (functions m ++ [declaration name ty]) m)) ;;
        ret name
  end.

Definition klee_make_nondet_type (size_t : type) : type :=
  FunctionTy VoidTy [Int8PtrTy; size_t; Int8PtrTy; Int32Ty] false.

Definition get_verifier_make_nondet : run string :=
  let* cached := get _vms in
  match cached with
  | Some F => ret F
  | None =>
      let* size_t := get_size_t in
      let* F := getOrInsertFunction_cast "klee_make_nondet"
                  (klee_make_nondet_type size_t) in
      modify (with_vms (Some F)) ;;
      ret F
  end.

(** *** Building blocks of the rewrites *)

(** A new instruction, not yet in any block: the module only hands out its
    identity. *)
Definition new_instruction (op : opcode) (ty : type) (name : string)
  : run instruction :=
  let* m := get M in
  modify (with_M (with_fresh (S (fresh m)) m)) ;;
  ret (created (fresh m) op ty name).

(** [new GlobalVariable(M, C->getType(), true, PrivateLinkage, C)] for
    [C = ConstantDataArray::getString(Ctx, name)], which appends the
    terminating NUL. *)
Definition name_global (name : string) : global_variable :=
  {| gname := "";
     gtype := ArrayTy (N.of_nat (String.length name) + 1) Int8Ty;
     gconstant := true; gprivate := true;
     ginit := ConstantDataArray_String name |}.

Definition new_name_global (name : string) : run value :=
  let* m := get M in
  modify (with_M (with_globals (globals m ++ [name_global name]) m)) ;;
  ret (GlobalRef (length (globals m))).

Definition on_module (f : module → module) : run unit :=
  modify (λ w, with_M (f (M w)) w).

(** [cast<Function>(CI->getParent()->getParent())->getName()] *)
Definition parent_name (CI : nat) : run string :=
  let* m := get M in
  let* F := deref "the call is no longer in a function"
              (parent_function m CI) in
  ret (fname F).

Definition derived_name (parent var : string) (line : N) : string :=
  parent +:+ ":" +:+ var +:+ ":" +:+ pretty line.

(** *** NondetReplace *)

Definition replaceCall (CI : nat) (line : N) (var : string) : run unit :=
  let* parent := parent_name CI in
  let name := derived_name parent var line in
  let* nameG := new_name_global name in
  let* m := get M in
  let* call := deref "the call was erased" (lookup_inst m CI) in
  let* AI := new_instruction (Alloca (itype call))
                             (PointerTy (itype call)) "" in
  let* CastI := new_instruction (PointerCast (Inst (iid AI))) Int8PtrTy "" in
  let* size_t := get_size_t in
  let nbytes := ConstantInt_get size_t (type_alloc_size m (itype call)) in
  let name_ptr := ConstantPointerCast nameG Int8PtrTy in
  modify (λ w, with_call_identifier (unsigned_succ (call_identifier w)) w) ;;
  let* id := get call_identifier in
  let identifier := ConstantInt_get Int32Ty id in
  let* vms := get_verifier_make_nondet in
  let* new_CI := new_instruction
                   (Call (FunctionRef vms)
                         [Inst (iid CastI); nbytes; name_ptr; identifier])
                   VoidTy "" in
  let new_CI := copy_metadata_and_attributes call new_CI in
  let* LI := new_instruction (Load (Inst (iid AI))) (itype call) name in
  on_module (insertBefore new_CI CI) ;;
  on_module (insertBefore CastI (iid new_CI)) ;;
  on_module (insertBefore AI (iid CastI)) ;;
  on_module (insertAfter LI (iid new_CI)) ;;
  on_module (replaceAllUsesWith CI (Inst (iid LI))) ;;
  on_module (eraseFromParent CI).

(** *** AllocAugment *)

(** [CI->getCalledFunction()->getName()] *)
Definition called_function_name (call : instruction) : run string :=
  match iop call with
  | Call (FunctionRef f) _ => ret f
  | Call _ _ => fail (Undefined "getCalledFunction() is null")
  | _ => fail (Undefined "not a call")
  end.

Definition getOperand (call : instruction) (k : nat) : run value :=
  deref "operand out of range" (operands call !! k).

Definition handleAlloc (CI : nat) (line : N) (var : string) : run unit :=
  let* parent := parent_name CI in
  let name := derived_name parent var line in
  let* nameG := new_name_global name in
  let* m := get M in
  let* call := deref "the call was erased" (lookup_inst m CI) in
  let* CastI := new_instruction (PointerCast (Inst CI)) Int8PtrTy "" in
  on_module (insertAfter CastI CI) ;;
  let* callee := called_function_name call in
  let* nbytes :=
    (if String.eqb callee "calloc" then
       let* a0 := getOperand call 0 in
       let* a1 := getOperand call 1 in
       let* m := get M in
       let* ty := deref "operand without a type" (getType m a0) in
       let* MulI := new_instruction (Mul a0 a1) ty "" in
       on_module (insertBefore MulI (iid CastI)) ;;
       ret (Inst (iid MulI))
     else getOperand call 0) in
  let name_ptr := ConstantPointerCast nameG Int8PtrTy in
  modify (λ w, with_handleAlloc_call_identifier
                 (unsigned_succ (handleAlloc_call_identifier w)) w) ;;
  let* id := get handleAlloc_call_identifier in
  let identifier := ConstantInt_get Int32Ty id in
  let* vms := get_verifier_make_nondet in
  let* new_CI := new_instruction
                   (Call (FunctionRef vms)
                         [Inst (iid CastI); nbytes; name_ptr; identifier])
                   VoidTy "" in
  on_module (insertAfter new_CI (iid CastI)).

(** *** Collection *)

Definition handleCall (CI : instruction) (ismalloc : bool) : run unit :=
  match idebugloc CI with
  | Some line =>
      (if ismalloc
       then modify (λ w, with_allocs_to_handle
                           (allocs_to_handle w ++ [(line, iid CI)]) w)
       else modify (λ w, with_calls_to_replace
                           (calls_to_replace w ++ [(line, iid CI)]) w)) ;;
      modify (λ w, with_lines_nums ({[line]} ∪ lines_nums w) w)
  | None =>
      if ismalloc
      then modify (λ w, with_allocs_to_handle
                          (allocs_to_handle w ++ [(0%N, iid CI)]) w)
      else modify (λ w, with_calls_to_replace
                          (calls_to_replace w ++ [(0%N, iid CI)]) w)
  end.

Definition startswith (prefix name : string) : bool :=
  String.prefix prefix name.

Definition runOnFunction (F : function) : run bool :=
  if negb (isDeclaration F) then ret false
  else
    let name := fname F in
    if negb (startswith "__VERIFIER_nondet_" name)
       && negb (startswith "malloc" name)
       && negb (startswith "calloc" name)
    then ret false
    else
      let changed := false in
      let* m := get M in
      for_each (λ CI, handleCall CI (negb (startswith "__VERIFIER" name)))
               (call_uses m name) ;;
      ret changed.

(** *** Source lines *)

(** The loop [while (getline(file, line)) { ...; ++n; }] over the lines
    still to be read. *)
Fixpoint read_lines (file : list string) (n : N) : run unit :=
  match file with
  | [] => ret tt
  | line :: file =>
      let* nums := get lines_nums in
      (if bool_decide (n ∈ nums)
       then modify (λ w, with_lines (<[n := line]> (lines w)) w)
       else ret tt) ;;
      read_lines file (unsigned_succ n)
  end.

Definition newline : string := String "010"%char "".

Definition mapLines : run unit :=
  let* nums := get lines_nums in
  if bool_decide (nums = ∅) then
    let* calls := get calls_to_replace in
    assert (bool_decide (calls = [])) "calls_to_replace.empty()"
  else
    match source_file env with
    | Some file =>
        read_lines file 1 ;;
        let* ls := get lines in
        let* nums := get lines_nums in
        assert (bool_decide (size ls = size nums))
               "lines.size() == lines_nums.size()"
    | None =>
        modify (λ w, with_errs
                       (errs w +:+ "Couldn't open file: "
                        +:+ source_name env +:+ newline) w) ;;
        fail Abort
    end.

(** *** The two rewrite loops and the pass *)

Definition replaceCalls : run unit :=
  let* calls := get calls_to_replace in
  for_each
    (λ pr : N * nat,
       let line_num := pr.1 in
       let CI := pr.2 in
       let* ls := get lines in
       replaceCall CI line_num
         (match ls !! line_num with
          | None => ""
          | Some text => Text.getName text
          end))
    calls.

Definition handleAllocs : run unit :=
  let* allocs := get allocs_to_handle in
  for_each
    (λ pr : N * nat,
       let line_num := pr.1 in
       let CI := pr.2 in
       handleAlloc CI line_num "dynalloc")
    allocs.

Definition runOnModule : run bool :=
  let* m := get M in
  for_each (λ F, runOnFunction F ;; ret tt) (functions m) ;;
  mapLines ;;
  replaceCalls ;;
  handleAllocs ;;
  let* calls := get calls_to_replace in
  let* allocs := get allocs_to_handle in
  ret (negb (bool_decide (calls = [])) || negb (bool_decide (allocs = []))).

End WithEnvironment.

End Pass.

(** ** What one rewrite does to the module, in closed form *)

Module Summary.
Import IR Pass.

(** The type [get_size_t] answers with in the world [w]. *)
Definition size_t_of (w : world) : type :=
  match _size_t_Ty w with
  | Some ty => ty
  | None => if (32 <? pointer_size_bits (M w))%N then Int64Ty else Int32Ty
  end.

(** The function [get_verifier_make_nondet] answers with. *)
Definition vms_of (w : world) : string :=
  default "klee_make_nondet" (_vms w).

(** A call of the registration function, as [CallInst::Create] builds it. *)
Definition registration (id : nat) (vms : string) (addr nbytes : value)
    (g : nat) (identifier : N) : instruction :=
  created id
    (Call (FunctionRef vms)
          [addr; nbytes; ConstantPointerCast (GlobalRef g) Int8PtrTy;
           ConstantInt_get Int32Ty identifier])
    VoidTy "".

(** The four instructions that take the place of a replaced call: the
    slot, the cast of its address, the registration, the load. *)
Definition nondet_news (n : nat) (call : instruction) (vms : string)
    (nbytes : value) (g : nat) (identifier : N) (name : string)
  : list instruction :=
  [ created n (Alloca (itype call)) (PointerTy (itype call)) "";
    created (S n) (PointerCast (Inst n)) Int8PtrTy "";
    copy_metadata_and_attributes call
      (registration (S (S n)) vms (Inst (S n)) nbytes g identifier);
    created (S (S (S n))) (Load (Inst n)) (itype call) name ].

(** The instruction [CI] gives way to [news]; everywhere else the uses of
    [CI] become uses of [new]. *)
Definition replace_with (CI : nat) (news : list instruction) (new : value)
    (i : instruction) : list instruction :=
  if has_id CI i then news else [subst_instruction CI new i].

(** The instruction [CI] stays and is followed by [news]. *)
Definition augment_with (CI : nat) (news : list instruction)
    (i : instruction) : list instruction :=
  if has_id CI i then i :: news else [i].

(** What follows an augmented allocation call: for [calloc] the product
    of its two operands, the cast of the returned pointer and the
    registration of the product; otherwise the cast and the registration
    of the first operand. *)
Definition calloc_news (n CI : nat) (mul_ty : type) (a0 a1 : value)
    (vms : string) (g : nat) (identifier : N) : list instruction :=
  [ created (S n) (Mul a0 a1) mul_ty "";
    created n (PointerCast (Inst CI)) Int8PtrTy "";
    registration (S (S n)) vms (Inst n) (Inst (S n)) g identifier ].

Definition malloc_news (n CI : nat) (a0 : value)
    (vms : string) (g : nat) (identifier : N) : list instruction :=
  [ created n (PointerCast (Inst CI)) Int8PtrTy "";
    registration (S n) vms (Inst n) a0 g identifier ].

(** Every instruction of the module has an identity below [fresh]. *)
Definition bounded (m : module) : Prop :=
  Forall (λ i, iid i < fresh m) (insts m).

(** The variable segment [replaceCalls] passes for a site at [line]. *)
Definition var_for (ls : gmap N string) (line : N) : string :=
  match ls !! line with
  | None => ""
  | Some text => Text.getName text
  end.

(** The constant a registration receives as its identifier. *)
Definition identifier_constant (id : N) : value :=
  ConstantInt Int32Ty (id mod 2 ^ 32).

(** One NondetReplace rewrite, from [w] to [w'], of the call [call] found
    under the identity [c] in the function [F]. *)
Record nondet_step (c : nat) (line : N) (var : string) (w w' : world)
    (F : function) (call : instruction) : Prop := {
  ns_parent : parent_function (M w) c = Some F;
  ns_call : lookup_inst (M w) c = Some call;
  ns_old : c < fresh (M w);
  ns_fresh : fresh (M w') = 4 + fresh (M w);
  ns_bounded : bounded (M w');
  ns_other : ∀ x, x ≠ c → x < fresh (M w) →
    lookup_inst (M w') x
    = subst_instruction c (Inst (3 + fresh (M w))) <$> lookup_inst (M w) x;
  ns_gone : lookup_inst (M w') c = None;
  ns_new : ∀ j, j < 4 →
    lookup_inst (M w') (j + fresh (M w))
    = nondet_news (fresh (M w)) call (vms_of w)
        (ConstantInt_get (size_t_of w) (type_alloc_size (M w) (itype call)))
        (length (globals (M w)))
        (unsigned_succ (call_identifier w))
        (derived_name (fname F) var line) !! j;
  ns_blocks :
    blocks (M w')
    = flat_map
        (replace_with c
           (nondet_news (fresh (M w)) call (vms_of w)
              (ConstantInt_get (size_t_of w)
                 (type_alloc_size (M w) (itype call)))
              (length (globals (M w)))
              (unsigned_succ (call_identifier w))
              (derived_name (fname F) var line))
           (Inst (3 + fresh (M w))))
        <$> blocks (M w);
  ns_parents : ∀ x, x ≠ c → x < fresh (M w) →
    fname <$> parent_function (M w') x = fname <$> parent_function (M w) x;
  ns_functions : ∃ extra,
    fname <$> functions (M w')
    = ((fname <$> functions (M w)) ++ extra)%list ∧
    (extra = [] ∨
     extra = ["klee_make_nondet"] ∧ _vms w = None ∧
     lookup_function (M w) "klee_make_nondet" = None);
  ns_globals :
    globals (M w')
    = globals (M w) ++ [name_global (derived_name (fname F) var line)];
  ns_pointer_size : pointer_size_bits (M w') = pointer_size_bits (M w);
  ns_alloc_size : type_alloc_size (M w') = type_alloc_size (M w);
  ns_calls : calls_to_replace w' = calls_to_replace w;
  ns_allocs : allocs_to_handle w' = allocs_to_handle w;
  ns_lines_nums : lines_nums w' = lines_nums w;
  ns_lines : lines w' = lines w;
  ns_vms : _vms w' = Some (vms_of w);
  ns_size_t : _size_t_Ty w' = Some (size_t_of w);
  ns_identifier : call_identifier w' = unsigned_succ (call_identifier w);
  ns_static :
    handleAlloc_call_identifier w' = handleAlloc_call_identifier w;
  ns_errs : errs w' = errs w;
}.

(** The instructions an AllocAugment rewrite adds after the call [call]
    whose identity is [c], when the next identity is [n], the next global
    [g] and the registration receives [identifier]. *)
Definition alloc_news_spec (c : nat) (call : instruction) (n : nat)
    (vms : string) (g : nat) (identifier : N)
    (news : list instruction) : Prop :=
  ∃ callee args a0,
    iop call = Call (FunctionRef callee) args ∧
    operands call !! 0 = Some a0 ∧
    (callee = "calloc" ∧
     (∃ a1 ty, operands call !! 1 = Some a1 ∧
        news = calloc_news n c ty a0 a1 vms g identifier)
     ∨
     callee ≠ "calloc" ∧
     news = malloc_news n c a0 vms g identifier).

(** One AllocAugment rewrite, from [w] to [w']. *)
Record alloc_step (c : nat) (line : N) (var : string) (w w' : world)
    (F : function) (call : instruction) (news : list instruction)
  : Prop := {
  as_parent : parent_function (M w) c = Some F;
  as_call : lookup_inst (M w) c = Some call;
  as_old : c < fresh (M w);
  as_news :
    alloc_news_spec c call (fresh (M w)) (vms_of w)
      (length (globals (M w)))
      (unsigned_succ (handleAlloc_call_identifier w)) news;
  as_fresh : fresh (M w') = length news + fresh (M w);
  as_bounded : bounded (M w');
  as_kept : ∀ x, x < fresh (M w) →
    lookup_inst (M w') x = lookup_inst (M w) x;
  as_new : ∀ i, i ∈ news → lookup_inst (M w') (iid i) = Some i;
  as_only : ∀ (x : nat) i, (fresh (M w) ≤ x)%nat →
    lookup_inst (M w') x = Some i → i ∈ news;
  as_blocks :
    blocks (M w') = flat_map (augment_with c news) <$> blocks (M w);
  as_parents : ∀ x, x < fresh (M w) →
    fname <$> parent_function (M w') x = fname <$> parent_function (M w) x;
  as_functions : ∃ extra,
    fname <$> functions (M w') = (fname <$> functions (M w)) ++ extra ∧
    (extra = [] ∨
     extra = ["klee_make_nondet"] ∧ _vms w = None ∧
     lookup_function (M w) "klee_make_nondet" = None);
  as_globals :
    globals (M w')
    = globals (M w) ++ [name_global (derived_name (fname F) var line)];
  as_pointer_size : pointer_size_bits (M w') = pointer_size_bits (M w);
  as_alloc_size : type_alloc_size (M w') = type_alloc_size (M w);
  as_calls : calls_to_replace w' = calls_to_replace w;
  as_allocs : allocs_to_handle w' = allocs_to_handle w;
  as_lines_nums : lines_nums w' = lines_nums w;
  as_lines : lines w' = lines w;
  as_vms : _vms w' = Some (vms_of w);
  as_identifier : call_identifier w' = call_identifier w;
  as_static :
    handleAlloc_call_identifier w'
    = unsigned_succ (handleAlloc_call_identifier w);
  as_errs : errs w' = errs w;
}.

(** The loads that stand for the replaced calls [cs], rewritten in that
    order from a module whose next identity is [n]: each rewrite creates
    four instructions, the load last. *)
Fixpoint loads (n : nat) (cs : list nat) : list (nat * nat) :=
  match cs with
  | [] => []
  | c :: cs => (c, 3 + n) :: loads (4 + n) cs
  end.

(** An instruction after its uses of replaced calls were redirected. *)
Definition redirect (ρ : list (nat * nat)) (i : instruction) : instruction :=
  foldl (λ i cl, subst_instruction cl.1 (Inst cl.2) i) i ρ.

Definition redirect_value (ρ : list (nat * nat)) (v : value) : value :=
  foldl (λ v cl, subst_value cl.1 (Inst cl.2) v) v ρ.

(** The body of the loop of [replaceCalls]. *)
Definition replaceCalls_body (pr : N * nat) : run unit :=
  let* ls := get lines in
  replaceCall pr.2 pr.1
    (match ls !! pr.1 with
     | None => ""
     | Some text => Text.getName text
     end).

(** The whole loop of [replaceCalls] over the work list [calls]. *)
Record nondet_run (calls : list (N * nat)) (w w' : world) : Prop := {
  nr_fresh : fresh (M w') = 4 * length calls + fresh (M w);
  nr_bounded : bounded (M w');
  nr_nodup : NoDup calls.*2;
  nr_other : ∀ x, x < fresh (M w) → x ∉ calls.*2 →
    lookup_inst (M w') x
    = redirect (loads (fresh (M w)) calls.*2) <$> lookup_inst (M w) x;
  nr_gone : ∀ c, c ∈ calls.*2 → lookup_inst (M w') c = None;
  nr_new : ∀ k line c, calls !! k = Some (line, c) →
    ∃ F call,
      parent_function (M w) c = Some F ∧
      lookup_inst (M w) c = Some call ∧
      globals (M w') !! (k + length (globals (M w)))
      = Some (name_global
                (derived_name (fname F) (var_for (lines w) line) line)) ∧
      ∀ j, j < 4 →
        lookup_inst (M w') (j + (4 * k + fresh (M w)))
        = nondet_news (4 * k + fresh (M w)) call (vms_of w)
            (ConstantInt_get (size_t_of w)
               (type_alloc_size (M w) (itype call)))
            (k + length (globals (M w)))
            (Nat.iter (S k) unsigned_succ (call_identifier w))
            (derived_name (fname F) (var_for (lines w) line) line) !! j;
  nr_parents : ∀ x, x < fresh (M w) → x ∉ calls.*2 →
    fname <$> parent_function (M w') x = fname <$> parent_function (M w) x;
  nr_functions : ∃ extra,
    fname <$> functions (M w') = (fname <$> functions (M w)) ++ extra ∧
    (extra = [] ∨
     extra = ["klee_make_nondet"] ∧ _vms w = None ∧
     lookup_function (M w) "klee_make_nondet" = None);
  nr_globals_length :
    length (globals (M w')) = length calls + length (globals (M w));
  nr_globals_old : ∀ g, g < length (globals (M w)) →
    globals (M w') !! g = globals (M w) !! g;
  nr_pointer_size : pointer_size_bits (M w') = pointer_size_bits (M w);
  nr_alloc_size : type_alloc_size (M w') = type_alloc_size (M w);
  nr_calls : calls_to_replace w' = calls_to_replace w;
  nr_allocs : allocs_to_handle w' = allocs_to_handle w;
  nr_lines_nums : lines_nums w' = lines_nums w;
  nr_lines : lines w' = lines w;
  nr_vms : _vms w' = match calls with [] => _vms w | _ => Some (vms_of w) end;
  nr_vms_of : vms_of w' = vms_of w;
  nr_size_t_of : size_t_of w' = size_t_of w;
  nr_identifier :
    call_identifier w'
    = Nat.iter (length calls) unsigned_succ (call_identifier w);
  nr_static :
    handleAlloc_call_identifier w' = handleAlloc_call_identifier w;
  nr_errs : errs w' = errs w;
}.

(** How many instructions augmenting the call [c] of [m] adds. *)
Definition news_length (m : module) (c : nat) : nat :=
  match lookup_inst m c with
  | Some call =>
      match iop call with
      | Call (FunctionRef f) _ => if String.eqb f "calloc" then 3 else 2
      | _ => 0
      end
  | None => 0
  end.

(** The identity the [k]-th augmentation of the calls [cs] starts from,
    when the first starts from [n]. *)
Fixpoint alloc_base (m : module) (n : nat) (cs : list nat) (k : nat) : nat :=
  match k, cs with
  | S k, c :: cs => alloc_base m (news_length m c + n) cs k
  | _, _ => n
  end.

(** The body of the loop of [handleAllocs]. *)
Definition handleAllocs_body (pr : N * nat) : run unit :=
  handleAlloc pr.2 pr.1 "dynalloc".

(** What the loop of [handleAllocs] over [allocs] did for its [k]-th
    entry. *)
Record alloc_site (allocs : list (N * nat)) (w w' : world) (k : nat)
    (line : N) (c : nat) (F : function) (call : instruction)
    (news : list instruction) : Prop := {
  st_entry : allocs !! k = Some (line, c);
  st_parent : parent_function (M w) c = Some F;
  st_call : lookup_inst (M w) c = Some call;
  st_news :
    alloc_news_spec c call
      (alloc_base (M w) (fresh (M w)) allocs.*2 k) (vms_of w)
      (k + length (globals (M w)))
      (Nat.iter (S k) unsigned_succ (handleAlloc_call_identifier w)) news;
  st_fresh : Forall (λ i, (fresh (M w) ≤ iid i < fresh (M w'))%nat) news;
  st_lookup : ∀ i, i ∈ news → lookup_inst (M w') (iid i) = Some i;
  st_global :
    globals (M w') !! (k + length (globals (M w)))
    = Some (name_global (derived_name (fname F) "dynalloc" line));
  st_block : NoDup allocs.*2 →
    ∃ b pre post, b ∈ blocks (M w') ∧ b = pre ++ call :: news ++ post;
}.

(** The whole loop of [handleAllocs] over the work list [allocs]. *)
Record alloc_run (allocs : list (N * nat)) (w w' : world) : Prop := {
  ar_fresh :
    fresh (M w')
    = alloc_base (M w) (fresh (M w)) allocs.*2 (length allocs);
  ar_grows : (fresh (M w) ≤ fresh (M w'))%nat;
  ar_bounded : bounded (M w');
  ar_kept : ∀ x, x < fresh (M w) →
    lookup_inst (M w') x = lookup_inst (M w) x;
  ar_sites : ∀ k line c, allocs !! k = Some (line, c) →
    ∃ F call news, alloc_site allocs w w' k line c F call news;
  ar_only : ∀ (x : nat) i, (fresh (M w) ≤ x)%nat →
    lookup_inst (M w') x = Some i →
    ∃ k line c F call news,
      alloc_site allocs w w' k line c F call news ∧ i ∈ news;
  ar_segments : ∀ seg b pre post,
    b ∈ blocks (M w) → b = pre ++ seg ++ post →
    Forall (λ i, iid i ∉ allocs.*2) seg →
    ∃ b' pre' post', b' ∈ blocks (M w') ∧ b' = pre' ++ seg ++ post';
  ar_parents : ∀ x, x < fresh (M w) →
    fname <$> parent_function (M w') x = fname <$> parent_function (M w) x;
  ar_functions : ∃ extra,
    fname <$> functions (M w') = (fname <$> functions (M w)) ++ extra ∧
    (extra = [] ∨
     extra = ["klee_make_nondet"] ∧ _vms w = None ∧
     lookup_function (M w) "klee_make_nondet" = None);
  ar_globals_length :
    length (globals (M w')) = length allocs + length (globals (M w));
  ar_globals_old : ∀ g, g < length (globals (M w)) →
    globals (M w') !! g = globals (M w) !! g;
  ar_pointer_size : pointer_size_bits (M w') = pointer_size_bits (M w);
  ar_alloc_size : type_alloc_size (M w') = type_alloc_size (M w);
  ar_calls : calls_to_replace w' = calls_to_replace w;
  ar_allocs : allocs_to_handle w' = allocs_to_handle w;
  ar_lines_nums : lines_nums w' = lines_nums w;
  ar_lines : lines w' = lines w;
  ar_vms : _vms w' = match allocs with [] => _vms w | _ => Some (vms_of w) end;
  ar_vms_of : vms_of w' = vms_of w;
  ar_identifier : call_identifier w' = call_identifier w;
  ar_static :
    handleAlloc_call_identifier w'
    = Nat.iter (length allocs) unsigned_succ (handleAlloc_call_identifier w);
  ar_errs : errs w' = errs w;
}.

(** *** Collection and source lines, in closed form *)

(** The sites [runOnFunction F] hands to [handleCall], each with its
    [ismalloc] flag. *)
Definition sites_of (m : module) (F : function)
  : list (bool * instruction) :=
  if negb (isDeclaration F) then []
  else if negb (startswith "__VERIFIER_nondet_" (fname F))
          && negb (startswith "malloc" (fname F))
          && negb (startswith "calloc" (fname F))
  then []
  else (λ CI, (negb (startswith "__VERIFIER" (fname F)), CI))
         <$> call_uses m (fname F).

Definition sites (m : module) : list (bool * instruction) :=
  flat_map (sites_of m) (functions m).

(** The line a site is recorded with. *)
Definition line_of (CI : instruction) : N := default 0%N (idebugloc CI).

(** What [handleCall] does to the pass object. *)
Definition record_site (w : world) (s : bool * instruction) : world :=
  let w1 :=
    if s.1
    then with_allocs_to_handle
           (allocs_to_handle w ++ [(line_of s.2, iid s.2)]) w
    else with_calls_to_replace
           (calls_to_replace w ++ [(line_of s.2, iid s.2)]) w in
  match idebugloc s.2 with
  | Some line => with_lines_nums ({[line]} ∪ lines_nums w1) w1
  | None => w1
  end.

Definition nondet_worklist (ss : list (bool * instruction))
  : list (N * nat) :=
  omap (λ s : bool * instruction,
          if s.1 then None else Some (line_of s.2, iid s.2)) ss.

Definition alloc_worklist (ss : list (bool * instruction))
  : list (N * nat) :=
  omap (λ s : bool * instruction,
          if s.1 then Some (line_of s.2, iid s.2) else None) ss.

Definition site_lines (ss : list (bool * instruction)) : list N :=
  omap (λ s : bool * instruction, idebugloc s.2) ss.

(** The names [runOnFunction] looks for. *)
Definition recognized_name (name : string) : bool :=
  startswith "__VERIFIER_nondet_" name
  || startswith "malloc" name
  || startswith "calloc" name.

(** What stops [cast<Function>] on the result of [getOrInsertFunction]:
    the name [klee_make_nondet] is taken by a function of another type, or
    by a global variable. *)
Definition name_taken (m : module) (ty : type) : Prop :=
  (∃ G, lookup_function m "klee_make_nondet" = Some G ∧ ftype G ≠ ty) ∨
  (lookup_function m "klee_make_nondet" = None ∧
   existsb (λ G, String.eqb (gname G) "klee_make_nondet") (globals m)
   = true).

(** The pass object after the collection over the module [m]. *)
Definition collected (m : module) : world :=
  foldl record_site (initial m) (sites m).

(** The map the reading loop leaves, started at line number [n]. *)
Fixpoint lines_read (file : list string) (n : N) (nums : gset N)
    (ls : gmap N string) : gmap N string :=
  match file with
  | [] => ls
  | line :: file =>
      lines_read file (unsigned_succ n) nums
        (if bool_decide (n ∈ nums) then <[n := line]> ls else ls)
  end.

(** *** What a rewrite needs to finish *)

(** A computation finishes from [w]. *)
Definition finishes {A} (c : run A) (w : world) : Prop :=
  ∃ a w', c w = Done a w'.

(** [get_verifier_make_nondet] can answer: the function is cached, or the
    checked cast after [getOrInsertFunction] will succeed. *)
Definition resolvable (w : world) : Prop :=
  is_Some (_vms w) ∨
  ¬ name_taken (M w) (klee_make_nondet_type (size_t_of w)).

(** The value refers to something of the unit, so that [getType] answers. *)
Definition typed (m : module) (v : value) : Prop := is_Some (getType m v).

(** Every instruction, function and global of [m] is still in [m']. *)
Record extends (m m' : module) : Prop := {
  ext_insts : ∀ x, is_Some (lookup_inst m x) → is_Some (lookup_inst m' x);
  ext_functions : ∀ f,
    is_Some (lookup_function m f) → is_Some (lookup_function m' f);
  ext_globals : ∀ g, is_Some (globals m !! g) → is_Some (globals m' !! g);
}.

(** What [handleAlloc] follows without a check: the call is in the unit
    and calls a function directly ([getCalledFunction()] is not null),
    and for [calloc] it has a second operand and its first operand
    refers to something of the unit. *)
Definition alloc_ready (m : module) (c : nat) : Prop :=
  ∃ call callee args,
    lookup_inst m c = Some call ∧
    iop call = Call (FunctionRef callee) args ∧
    (callee = "calloc" →
     ∃ a0 a1, operands call !! 0 = Some a0 ∧ operands call !! 1 = Some a1 ∧
              typed m a0).

(** What [mapLines] needs after the collection over [m]: when no site
    carries a line, that no NondetReplace site was collected (or that the
    assertions are compiled out); otherwise a source file that can be
    opened and, with assertions, holds every recorded line. *)
Definition lines_available (env : environment) (m : module) : Prop :=
  match site_lines (sites m) with
  | [] => NDEBUG env = true ∨ nondet_worklist (sites m) = []
  | _ :: _ =>
      ∃ file, source_file env = Some file ∧
        (NDEBUG env = true ∨
         (N.of_nat (length file) < UINT_MODULUS)%N ∧
         ∀ k, k ∈ site_lines (sites m) →
              (1 ≤ k ≤ N.of_nat (length file))%N)
  end.

End Summary.

(** ** Concrete program units *)

Module Examples.
Import IR Pass Summary.

(** A data layout for a 64-bit target. *)
Definition layout64 (ty : type) : N :=
  match ty with
  | IntegerTy bits => (bits + 7) / 8
  | PointerTy _ => 8
  | _ => 0
  end%N.

Definition at_line (line : N) (id : nat) (ty : type) (op : opcode)
  : instruction :=
  {| iid := id; iname := ""; itype := ty; iop := op;
     idebugloc := Some line; imetadata := []; iattributes := [] |}.

Definition nondet_int : function :=
  declaration "__VERIFIER_nondet_int" (FunctionTy Int32Ty [] false).

Definition malloc : function :=
  declaration "malloc" (FunctionTy Int8PtrTy [Int64Ty] false).

Definition calloc : function :=
  declaration "calloc" (FunctionTy Int8PtrTy [Int64Ty; Int64Ty] false).

Definition unit64 (fs : list function) (n : nat) : module :=
  {| functions := fs; globals := []; fresh := n;
     pointer_size_bits := 64; type_alloc_size := layout64 |}.

(** [void foo() { int x = __VERIFIER_nondet_int(); use(x); }], the call
    at line 10. *)
Definition foo_unit : module :=
  unit64
    [ nondet_int;
      {| fname := "foo"; ftype := FunctionTy VoidTy [] false;
         fblocks :=
           [[ at_line 10 0 Int32Ty (Call (FunctionRef "__VERIFIER_nondet_int") []);
              created 1 (Other [Inst 0]) VoidTy "" ]] |} ]
    2.

(** A source text whose tenth line is [text]. *)
Definition source_with_line_10 (text : string) : list string :=
  replicate 9 "" ++ [text].

Definition reading (text : string) : environment :=
  {| NDEBUG := false; source_name := "foo.c";
     source_file := Some (source_with_line_10 text) |}.

(** No source file can be opened. *)
Definition unreadable : environment :=
  {| NDEBUG := false; source_name := "missing.c"; source_file := None |}.

(** The same, for a pass compiled with [NDEBUG]. *)
Definition unreadable_release : environment :=
  {| NDEBUG := true; source_name := "missing.c"; source_file := None |}.

(** [void foo() { use(__VERIFIER_nondet_int()); }] compiled without debug
    information. *)
Definition nodebug_unit : module :=
  unit64
    [ nondet_int;
      {| fname := "foo"; ftype := FunctionTy VoidTy [] false;
         fblocks :=
           [[ created 0 (Call (FunctionRef "__VERIFIER_nondet_int") [])
                Int32Ty "";
              created 1 (Other [Inst 0]) VoidTy "" ]] |} ]
    2.

(** [void bar() { p = malloc(40); use(p); }] compiled without debug
    information. *)
Definition malloc_unit : module :=
  unit64
    [ malloc;
      {| fname := "bar"; ftype := FunctionTy VoidTy [] false;
         fblocks :=
           [[ created 0 (Call (FunctionRef "malloc") [ConstantInt Int64Ty 40])
                Int8PtrTy "";
              created 1 (Other [Inst 0]) VoidTy "" ]] |} ]
    2.

(** [void baz(size_t n) { buf = calloc_array(n, 8); use(buf); }] with the
    external [void *calloc_array(size_t, size_t)]. *)
Definition calloc_array_unit : module :=
  unit64
    [ declaration "calloc_array"
        (FunctionTy Int8PtrTy [Int64Ty; Int64Ty] false);
      {| fname := "baz"; ftype := FunctionTy VoidTy [Int64Ty] false;
         fblocks :=
           [[ created 0
                (Call (FunctionRef "calloc_array")
                      [Argument Int64Ty 0; ConstantInt Int64Ty 8])
                Int8PtrTy "";
              created 1 (Other [Inst 0]) VoidTy "" ]] |} ]
    2.

(** The same with [calloc] itself. *)
Definition calloc_unit : module :=
  unit64
    [ calloc;
      {| fname := "baz"; ftype := FunctionTy VoidTy [Int64Ty] false;
         fblocks :=
           [[ created 0
                (Call (FunctionRef "calloc")
                      [Argument Int64Ty 0; ConstantInt Int64Ty 8])
                Int8PtrTy "";
              created 1 (Other [Inst 0]) VoidTy "" ]] |} ]
    2.

Definition is_Mul (i : instruction) : bool :=
  match iop i with Mul _ _ => true | _ => false end.

(** The world a run ends in. *)
(** [void main() { report(3); }]: a unit that mentions no stub. *)
Definition plain_unit : module :=
  unit64
    [ declaration "report" (FunctionTy VoidTy [Int32Ty] false);
      {| fname := "main"; ftype := FunctionTy VoidTy [] false;
         fblocks :=
           [[ at_line 3 0 VoidTy
                (Call (FunctionRef "report") [ConstantInt Int32Ty 3]) ]] |} ]
    1.

(** [void foo() { char *p = malloc(__VERIFIER_nondet_int()); use(p); }],
    both calls at line 10. *)
Definition malloc_nondet_unit : module :=
  unit64
    [ nondet_int; malloc;
      {| fname := "foo"; ftype := FunctionTy VoidTy [] false;
         fblocks :=
           [[ at_line 10 0 Int32Ty (Call (FunctionRef "__VERIFIER_nondet_int") []);
              at_line 10 1 Int8PtrTy (Call (FunctionRef "malloc") [Inst 0]);
              created 2 (Other [Inst 1]) VoidTy "" ]] |} ]
    3.

(** The world a computation leaves. *)
Definition state_after {A} (c : run A) (w : world) : world :=
  match c w with
  | Done _ w' => w'
  | Stop _ w' => w'
  end.

Definition final (env : environment) (m : module) : world :=
  match runOnModule env (initial m) with
  | Done _ w => w
  | Stop _ w => w
  end.

(** The strings of the globals of a module. *)
Definition global_strings (m : module) : list initializer :=
  ginit <$> globals m.

End Examples.

(** ** The checked absolute values of [lib/libc/witch-klee]

    [abs], [labs] and [imaxabs] share one body:
<<
  if (x == TYPE_MIN) __VERIFIER_error_overflow();
  if (x >= 0) return x;
  return -x;
>>
    over [int], [long] and [intmax_t].  The limits come from [<limits.h>]
    and [<inttypes.h>]; the model takes the width of the type as a
    parameter and derives them for a two's complement representation. *)

Module Libc.

#[local] Open Scope Z_scope.

(** What a call does: how often it reports an overflow through
    [__VERIFIER_error_overflow], and the value it returns, if it returns
    one.  A negation that leaves the range of the type has no defined
    result. *)
Record behaviour := {
  overflow_errors : nat;
  returned : option Z;
}.

Section Width.

Variable bits : Z.

Definition TYPE_MIN : Z := - 2 ^ (bits - 1).
Definition TYPE_MAX : Z := 2 ^ (bits - 1) - 1.

Definition in_range (x : Z) : bool :=
  (TYPE_MIN <=? x) && (x <=? TYPE_MAX).

(** [-x] in signed arithmetic *)
Definition negate (x : Z) : option Z :=
  if in_range (- x) then Some (- x) else None.

Definition absolute (x : Z) : behaviour :=
  let errors := if x =? TYPE_MIN then 1%nat else 0%nat in
  if x >=? 0
  then {| overflow_errors := errors; returned := Some x |}
  else {| overflow_errors := errors; returned := negate x |}.

End Width.

(** The widths of [int], [long] and [intmax_t] on the 64-bit targets of
    the library. *)
Definition abs : Z → behaviour := absolute 32.
Definition labs : Z → behaviour := absolute 64.
Definition imaxabs : Z → behaviour := absolute 64.

End Libc.

(** * Facts about the text layer *)

Module TextFacts.
Import Text.

Lemma substring_prefix (p s : string) :
  String.eqb (String.substring 0 (String.length p) s) p = String.prefix p s.
Proof.
  revert s. induction p as [|c p IH]; intros s.
  - by destruct s.
  - destruct s as [|d s]; [done|]. simpl.
    destruct (Ascii.eqb_spec d c) as [->|Hne].
    + destruct (ascii_dec c c) as [_|Hcc]; [apply IH | done].
    + destruct (ascii_dec c d) as [->|_]; [done | done].
Qed.

Lemma compare_0_18_prefix (sub : string) :
  compare_0_18 sub = String.prefix "__VERIFIER_nondet_" sub.
Proof. apply (substring_prefix "__VERIFIER_nondet_"). Qed.

Lemma getName_loop_find (toks : list string) (var : string) :
  match list_find (λ t, t = "=") toks with
  | Some (i, _) =>
      getName_loop toks "" var =
      (drop (S i) toks, "=",
       match i with O => var | S j => default "" (toks !! j) end)
  | None => (getName_loop toks "" var).1.2 = ""
  end.
Proof.
  revert var. induction toks as [|tok toks IH]; intros var; [done|].
  cbn [getName_loop list_find].
  destruct (String.eqb_spec tok "=") as [->|Hne].
  - rewrite decide_True by done. simpl. by rewrite drop_0.
  - rewrite decide_False by done. specialize (IH tok).
    destruct (list_find _ toks) as [[i x]|]; simpl; [|done].
    rewrite IH. by destruct i.
Qed.

Lemma getName_refines (line : string) : getName line = getName_spec line.
Proof.
  unfold getName, getName_spec, recognized, istringstream_of.
  pose proof (getName_loop_find (String.words line) "") as Hloop.
  destruct (list_find _ (String.words line)) as [[i x]|]; simpl.
  - rewrite Hloop. unfold tracked_token.
    set (var := match i with O => "" | S j => default "" (String.words line !! j) end).
    destruct (String.eqb_spec var "") as [Hv|Hv]; simpl.
    + rewrite bool_decide_false by (intros H; by apply H). done.
    + rewrite bool_decide_true by done. simpl.
      replace (String.words line !! S i)
        with (head (drop (S i) (String.words line)))
        by (by rewrite head_lookup, lookup_drop, Nat.add_0_r).
      destruct (drop (S i) (String.words line)) as [|t rest]; simpl.
      * done.
      * rewrite compare_0_18_prefix. by destruct (String.prefix _ t).
  - destruct (getName_loop _ _ _) as [[iss sub] var]. simpl in Hloop.
    subst sub. by rewrite andb_false_r.
Qed.
Lemma recognized_Some (line var : string) :
  recognized line = Some var → getName line = var ∧ var ≠ "".
Proof.
  intros Hrec. rewrite getName_refines.
  unfold getName_spec. rewrite Hrec. split; [done|].
  unfold recognized in Hrec.
  destruct (list_find _ _) as [[i x]|]; [|done].
  destruct (bool_decide _) eqn:Hne; [|done].
  destruct (begins_with_stub_prefix _); [|done].
  simpl in Hrec. injection Hrec as <-.
  by apply bool_decide_eq_true in Hne.
Qed.

Lemma recognized_None (line : string) :
  recognized line = None → getName line = "--".
Proof.
  intros Hrec. rewrite getName_refines.
  unfold getName_spec. by rewrite Hrec.
Qed.

End TextFacts.

(** * Facts about module edits *)

Module IRFacts.
Import IR.

Lemma flat_map_flat_map {A B C} (g : B → list C) (h : A → list B)
    (l : list A) :
  flat_map g (flat_map h l) = flat_map (λ x, flat_map g (h x)) l.
Proof.
  induction l as [|x l IH]; [done|].
  simpl. by rewrite flat_map_app, IH.
Qed.

Lemma flat_map_concat {A B} (h : A → list B) (ls : list (list A)) :
  flat_map h (concat ls) = concat (flat_map h <$> ls).
Proof.
  induction ls as [|l ls IH]; [done|].
  simpl. by rewrite flat_map_app, IH.
Qed.

Lemma flat_map_ext_Forall {A B} (P : A → Prop) (g h : A → list B)
    (l : list A) :
  Forall P l → (∀ x, P x → g x = h x) → flat_map g l = flat_map h l.
Proof.
  intros Hl Hgh. induction Hl as [|x l Hx _ IH]; [done|].
  simpl. by rewrite IH, (Hgh x Hx).
Qed.

Lemma function_insts_edit h F :
  function_insts (edit_function h F) = flat_map h (function_insts F).
Proof. unfold function_insts. simpl. by rewrite flat_map_concat. Qed.

Lemma fname_edit h F : fname (edit_function h F) = fname F.
Proof. done. Qed.

Lemma insts_functions_edit h (fs : list function) :
  flat_map function_insts (edit_function h <$> fs)
  = flat_map h (flat_map function_insts fs).
Proof.
  induction fs as [|F fs IH]; [done|].
  cbn [fmap list_fmap flat_map].
  by rewrite flat_map_app, function_insts_edit, <- IH.
Qed.

Lemma insts_edit h m : insts (edit h m) = flat_map h (insts m).
Proof. apply insts_functions_edit. Qed.

Lemma blocks_functions_edit h (fs : list function) :
  flat_map fblocks (edit_function h <$> fs)
  = flat_map h <$> flat_map fblocks fs.
Proof.
  induction fs as [|F fs IH]; [done|].
  cbn [fmap list_fmap flat_map].
  by rewrite fmap_app, <- IH.
Qed.

Lemma blocks_edit h m : blocks (edit h m) = flat_map h <$> blocks m.
Proof. apply blocks_functions_edit. Qed.

Lemma insts_blocks m : insts m = concat (blocks m).
Proof.
  unfold insts, blocks, function_insts.
  induction (functions m) as [|F fs IH]; [done|].
  simpl. by rewrite concat_app, IH.
Qed.

Lemma edit_function_edit_function g h F :
  edit_function g (edit_function h F)
  = edit_function (λ i, flat_map g (h i)) F.
Proof.
  unfold edit_function. simpl. f_equal.
  rewrite <- list_fmap_compose. apply list_fmap_ext.
  intros _ b _. simpl. apply flat_map_flat_map.
Qed.

Lemma edit_function_declaration h F :
  fblocks F = [] → edit_function h F = F.
Proof. intros HF. destruct F as [n t bs]. simpl in *. by subst. Qed.

Lemma edit_function_ext (P : instruction → Prop) g h F :
  Forall P (function_insts F) → (∀ i, P i → g i = h i) →
  edit_function g F = edit_function h F.
Proof.
  intros HF Hgh. unfold edit_function. f_equal.
  unfold function_insts in HF.
  induction (fblocks F) as [|b bs IH]; [done|].
  simpl in HF. apply Forall_app in HF as [Hb Hbs].
  cbn [fmap list_fmap]. f_equal; [|by apply IH].
  by apply (flat_map_ext_Forall P).
Qed.

Lemma edit_edit g h m :
  edit g (edit h m) = edit (λ i, flat_map g (h i)) m.
Proof.
  unfold edit, with_functions. simpl. f_equal.
  rewrite <- list_fmap_compose. apply list_fmap_ext.
  intros _ F _. apply edit_function_edit_function.
Qed.

Lemma insts_declarations (extra : list function) :
  Forall (λ F, fblocks F = []) extra → flat_map function_insts extra = [].
Proof.
  induction 1 as [|F extra HF _ IH]; [done|].
  simpl. unfold function_insts at 1. by rewrite HF.
Qed.

Lemma blocks_declarations (extra : list function) :
  Forall (λ F, fblocks F = []) extra → flat_map fblocks extra = [].
Proof.
  induction 1 as [|F extra HF _ IH]; [done|]. simpl. by rewrite HF.
Qed.

Lemma insts_edited h (fs extra : list function) :
  Forall (λ F, fblocks F = []) extra →
  flat_map function_insts ((edit_function h <$> fs) ++ extra)
  = flat_map h (flat_map function_insts fs).
Proof.
  intros Hextra.
  rewrite flat_map_app, insts_functions_edit.
  rewrite (insts_declarations _ Hextra). apply app_nil_r.
Qed.

Lemma blocks_edited h (fs extra : list function) :
  Forall (λ F, fblocks F = []) extra →
  flat_map fblocks ((edit_function h <$> fs) ++ extra)
  = flat_map h <$> flat_map fblocks fs.
Proof.
  intros Hextra.
  rewrite flat_map_app, blocks_functions_edit.
  rewrite (blocks_declarations _ Hextra). apply app_nil_r.
Qed.

Lemma edit_functions_compose g h (fs : list function) :
  edit_function g <$> (edit_function h <$> fs)
  = edit_function (λ i, flat_map g (h i)) <$> fs.
Proof.
  rewrite <- list_fmap_compose. apply list_fmap_ext.
  intros _ F _. apply edit_function_edit_function.
Qed.

Lemma edit_functions_ext (P : instruction → Prop) g h (fs : list function) :
  Forall P (flat_map function_insts fs) → (∀ i, P i → g i = h i) →
  edit_function g <$> fs = edit_function h <$> fs.
Proof.
  intros Hfs Hgh. induction fs as [|F fs IH]; [done|].
  simpl in Hfs. apply Forall_app in Hfs as [HF Hfs].
  cbn [fmap list_fmap]. f_equal; [|by apply IH].
  by apply (edit_function_ext P).
Qed.

Lemma lookup_inst_Some m id i :
  lookup_inst m id = Some i → i ∈ insts m ∧ iid i = id.
Proof.
  unfold lookup_inst, find_inst, has_id. intros [Hin Hid]%find_some.
  split; [by apply list_elem_of_In|]. by apply Nat.eqb_eq.
Qed.

Lemma is_inst_ConstantInt_get id ty v : is_inst id (ConstantInt_get ty v) = false.
Proof. by destruct ty. Qed.

Lemma find_function_edit h name (fs : list function) :
  find_function name (edit_function h <$> fs)
  = edit_function h <$> find_function name fs.
Proof.
  unfold find_function. induction fs as [|F fs IH]; [done|].
  cbn [fmap list_fmap List.find]. rewrite fname_edit.
  by destruct (String.eqb (fname F) name).
Qed.

Lemma find_function_None name (fs : list function) :
  find_function name fs = None ↔ name ∉ fname <$> fs.
Proof.
  unfold find_function. induction fs as [|F fs IH]; simpl.
  - split; [|done]. intros _ Hin. by apply elem_of_nil in Hin.
  - destruct (String.eqb_spec (fname F) name) as [Heq|Hne].
    + split; [done|]. intros Hnin. exfalso. apply Hnin. rewrite Heq.
      by left.
    + rewrite IH. rewrite not_elem_of_cons. naive_solver.
Qed.

Lemma find_function_edit_None h name (fs : list function) :
  find_function name (edit_function h <$> fs) = None ↔
  find_function name fs = None.
Proof. rewrite find_function_edit. by destruct (find_function name fs). Qed.

(** Resolves the tests on instruction identities that [lia] decides. *)
Ltac eqb_lia :=
  repeat match goal with
    | |- context [Nat.eqb ?x ?y] =>
        first [ rewrite (proj2 (Nat.eqb_eq x y)) by lia
              | rewrite (proj2 (Nat.eqb_neq x y)) by lia ]
    end.

(** ** Looking instructions up after an edit *)

Section Lookups.
Import Summary.

Lemma find_inst_app x (l1 l2 : list instruction) :
  find_inst x (l1 ++ l2)
  = match find_inst x l1 with Some i => Some i | None => find_inst x l2 end.
Proof.
  unfold find_inst. induction l1 as [|i l1 IH]; [done|].
  simpl. by destruct (has_id x i).
Qed.

Lemma find_inst_None x (l : list instruction) :
  find_inst x l = None ↔ Forall (λ i, iid i ≠ x) l.
Proof.
  unfold find_inst, has_id. induction l as [|i l IH]; simpl.
  - split; [constructor | done].
  - destruct (Nat.eqb_spec (iid i) x) as [Heq|Hne].
    + split; [done|]. by intros [? _]%Forall_cons.
    + rewrite IH. split; [by constructor | by intros [_ ?]%Forall_cons].
Qed.

Lemma find_inst_Some x (l : list instruction) i :
  find_inst x l = Some i → i ∈ l ∧ iid i = x.
Proof.
  unfold find_inst, has_id. intros [Hin Hid]%find_some.
  split; [by apply list_elem_of_In|]. by apply Nat.eqb_eq.
Qed.

Lemma iid_subst c v i : iid (subst_instruction c v i) = iid i.
Proof. done. Qed.

(** An old instruction other than the replaced one is found again, with
    its uses of the replaced call redirected. *)
Lemma find_inst_replace_other c news v x (l : list instruction) :
  x ≠ c → find_inst x news = None →
  find_inst x (flat_map (replace_with c news v) l)
  = subst_instruction c v <$> find_inst x l.
Proof.
  intros Hx Hnews. induction l as [|i l IH]; [done|].
  cbn [flat_map]. rewrite find_inst_app, IH. clear IH.
  unfold replace_with, find_inst, has_id. simpl.
  destruct (Nat.eqb_spec (iid i) c) as [Heq|Hne].
  - unfold find_inst, has_id in Hnews. rewrite Hnews.
    destruct (Nat.eqb_spec (iid i) x) as [Heq'|_]; [congruence | done].
  - simpl. by destruct (Nat.eqb_spec (iid i) x).
Qed.

(** The replaced call is found no more. *)
Lemma find_inst_replace_gone c news v (l : list instruction) :
  find_inst c news = None →
  find_inst c (flat_map (replace_with c news v) l) = None.
Proof.
  intros Hnews. induction l as [|i l IH]; [done|].
  cbn [flat_map]. rewrite find_inst_app, IH.
  unfold replace_with, find_inst, has_id.
  destruct (Nat.eqb_spec (iid i) c) as [Heq|Hne].
  - unfold find_inst, has_id in Hnews. by rewrite Hnews.
  - simpl. rewrite (proj2 (Nat.eqb_neq _ _)); done.
Qed.

(** A new instruction is found where the replaced call was. *)
Lemma find_inst_replace_new c news v x (l : list instruction) call :
  find_inst c l = Some call → Forall (λ i, iid i ≠ x) l →
  find_inst x (flat_map (replace_with c news v) l) = find_inst x news.
Proof.
  intros Hcall Hl. induction l as [|i l IH]; [done|].
  apply Forall_cons in Hl as [Hi Hl].
  cbn [flat_map]. rewrite find_inst_app.
  unfold find_inst, has_id in Hcall. simpl in Hcall.
  unfold replace_with at 1. unfold has_id.
  destruct (Nat.eqb_spec (iid i) c) as [Heq|Hne].
  - destruct (find_inst x news) eqn:Hnews; [done|].
    apply find_inst_None. apply Forall_forall.
    intros i' Hi'. apply list_elem_of_In, in_flat_map in Hi' as (i0 & Hi0 & Hi').
    apply list_elem_of_In in Hi0.
    rewrite Forall_forall in Hl. specialize (Hl i0 Hi0).
    unfold replace_with in Hi'. destruct (has_id c i0).
    + apply list_elem_of_In in Hi'. apply find_inst_None in Hnews.
      rewrite Forall_forall in Hnews. by apply Hnews.
    + destruct Hi' as [<-|[]]. done.
  - unfold find_inst at 1. simpl. unfold has_id at 1. simpl.
    rewrite (proj2 (Nat.eqb_neq _ _)) by done. by apply IH.
Qed.

(** Augmenting keeps every old instruction. *)
Lemma find_inst_augment_old c news x (l : list instruction) :
  find_inst x news = None →
  find_inst x (flat_map (augment_with c news) l) = find_inst x l.
Proof.
  intros Hnews. induction l as [|i l IH]; [done|].
  cbn [flat_map]. rewrite find_inst_app, IH. clear IH.
  unfold augment_with, find_inst, has_id. simpl.
  destruct (Nat.eqb_spec (iid i) c) as [Heq|Hne]; simpl.
  - destruct (Nat.eqb_spec (iid i) x) as [Heq'|_]; [done|].
    unfold find_inst, has_id in Hnews. by rewrite Hnews.
  - by destruct (Nat.eqb_spec (iid i) x).
Qed.

Lemma find_inst_augment_new c news x (l : list instruction) call :
  find_inst c l = Some call → Forall (λ i, iid i ≠ x) l →
  find_inst x (flat_map (augment_with c news) l) = find_inst x news.
Proof.
  intros Hcall Hl. induction l as [|i l IH]; [done|].
  apply Forall_cons in Hl as [Hi Hl].
  cbn [flat_map]. rewrite find_inst_app.
  unfold find_inst, has_id in Hcall. simpl in Hcall.
  unfold augment_with at 1. unfold has_id.
  destruct (Nat.eqb_spec (iid i) c) as [Heq|Hne].
  - unfold find_inst at 1. simpl. unfold has_id at 1.
    rewrite (proj2 (Nat.eqb_neq _ _)) by done.
    fold (find_inst x news).
    destruct (find_inst x news) eqn:Hnews; [done|].
    apply find_inst_None. apply Forall_forall.
    intros i' Hi'. apply list_elem_of_In, in_flat_map in Hi' as (i0 & Hi0 & Hi').
    apply list_elem_of_In in Hi0.
    rewrite Forall_forall in Hl. specialize (Hl i0 Hi0).
    unfold augment_with in Hi'. destruct (has_id c i0).
    + destruct Hi' as [<-|Hi']; [done|].
      apply list_elem_of_In in Hi'. apply find_inst_None in Hnews.
      rewrite Forall_forall in Hnews. by apply Hnews.
    + destruct Hi' as [<-|[]]. done.
  - unfold find_inst at 1. simpl. unfold has_id at 1. simpl.
    rewrite (proj2 (Nat.eqb_neq _ _)) by done. by apply IH.
Qed.

Lemma existsb_has_id x (l : list instruction) :
  existsb (has_id x) l = bool_decide (is_Some (find_inst x l)).
Proof.
  unfold find_inst. induction l as [|i l IH]; [done|].
  cbn [existsb List.find]. destruct (has_id x i); [|done].
  symmetry. apply bool_decide_eq_true. eauto.
Qed.

Lemma find_parent_edit h x (fs extra : list function) :
  (∀ l, is_Some (find_inst x (flat_map h l)) ↔ is_Some (find_inst x l)) →
  Forall (λ F, fblocks F = []) extra →
  fname <$> find_parent x ((edit_function h <$> fs) ++ extra)
  = fname <$> find_parent x fs.
Proof.
  intros Hh Hextra. unfold find_parent.
  induction fs as [|F fs IH].
  - simpl. induction Hextra as [|G extra HG _ IH]; [done|].
    simpl. unfold function_insts at 1. by rewrite HG.
  - cbn [fmap list_fmap app List.find].
    rewrite function_insts_edit, !existsb_has_id.
    rewrite (bool_decide_ext _ _ (Hh (function_insts F))).
    by destruct (bool_decide _).
Qed.

End Lookups.

End IRFacts.

(** * Facts about single steps of the pass *)

Module RunFacts.
Import IR Pass Summary IRFacts.

#[local] Arguments Nat.eqb : simpl never.

Lemma bind_Done {A B} (c : run A) (k : A → run B) w b w' :
  bind c k w = Done b w' → ∃ a w1, c w = Done a w1 ∧ k a w1 = Done b w'.
Proof.
  unfold bind. destruct (c w) as [a w1|f w1]; [eauto | done].
Qed.

Lemma deref_Done {A} what (p : option A) w a w' :
  deref what p w = Done a w' → p = Some a ∧ w' = w.
Proof. destruct p; simpl; unfold ret, fail; intros; by simplify_eq. Qed.

(** Peels the leading [bind]s off a run that is known to finish. *)
Ltac step H :=
  let a := fresh "a" in
  let w := fresh "w" in
  let H1 := fresh "Hrun" in
  apply bind_Done in H as (a & w & H1 & H).

(** Exposes the fields of updated worlds and modules. *)
Ltac norm :=
  cbv [with_calls_to_replace with_allocs_to_handle with_lines_nums
       with_lines with_vms with_size_t_Ty with_call_identifier
       with_handleAlloc_call_identifier with_M with_errs
       with_functions with_globals with_fresh size_t_of vms_of] in *;
  simpl in *.

Lemma get_size_t_run w :
  get_size_t w = Done (size_t_of w) (with_size_t_Ty (Some (size_t_of w)) w).
Proof.
  unfold get_size_t, size_t_of, bind, get, modify, ret.
  destruct w as [? ? ? ? ? [ty|] ? ? ? ?]; reflexivity.
Qed.

Lemma get_verifier_make_nondet_Done w F w' :
  get_verifier_make_nondet w = Done F w' →
  F = vms_of w ∧
  ∃ extra,
    (extra = [] ∨
     extra = [declaration "klee_make_nondet"
                (klee_make_nondet_type (size_t_of w))] ∧
     _vms w = None ∧
     lookup_function (M w) "klee_make_nondet" = None) ∧
    w' = with_vms (Some F)
           (with_size_t_Ty
              (match _vms w with
               | Some _ => _size_t_Ty w
               | None => Some (size_t_of w)
               end)
              (with_M (with_functions (functions (M w) ++ extra) (M w)) w)).
Proof.
  unfold get_verifier_make_nondet, vms_of. intros H.
  destruct w as [cs als ns ls vms st ci hci m e].
  destruct m as [fs gs fr pb tas].
  unfold bind at 1 in H. unfold get at 1 in H. simpl in H.
  destruct vms as [F'|]; simpl.
  - unfold ret in H. simplify_eq. split; [done|]. exists [].
    split; [by left|]. unfold with_vms, with_size_t_Ty, with_M, with_functions.
    simpl. by rewrite app_nil_r.
  - step H. rewrite get_size_t_run in Hrun. simplify_eq.
    step H. unfold getOrInsertFunction_cast in Hrun.
    step Hrun. unfold get in Hrun0. simplify_eq. simpl in Hrun.
    unfold size_t_of in *. simpl in *.
    destruct (lookup_function _ _) as [G|] eqn:Hlook.
    + destruct (type_eqb _ _); [|done]. unfold ret in Hrun. simplify_eq.
      unfold bind, modify, ret in H. simplify_eq.
      split; [done|]. exists []. split; [by left|].
      unfold with_vms, with_size_t_Ty, with_M, with_functions.
      simpl. by rewrite app_nil_r.
    + destruct (existsb _ _); [done|].
      unfold bind, modify, ret in Hrun. simplify_eq.
      unfold bind, modify, ret in H. simplify_eq.
      split; [done|]. eexists. split; [right; eauto|]. done.
Qed.

Lemma bounded_functions m :
  bounded m →
  Forall (λ F, Forall (λ i, iid i < fresh m) (function_insts F))
         (functions m).
Proof.
  unfold bounded, insts. induction (functions m) as [|F fs IH]; [done|].
  simpl. intros [HF Hfs]%Forall_app. constructor; auto.
Qed.

(** On an instruction older than [n], the six edits that end
    [replaceCall] amount to [replace_with]. *)
Lemma replace_edits CI n call vms nbytes g identifier name i :
  is_inst CI nbytes = false → CI < n → iid i < n →
  let a := created n (Alloca (itype call)) (PointerTy (itype call)) "" in
  let b := created (S n) (PointerCast (Inst n)) Int8PtrTy "" in
  let c := copy_metadata_and_attributes call
             (registration (S (S n)) vms (Inst (S n)) nbytes g identifier) in
  let d := created (S (S (S n))) (Load (Inst n)) (itype call) name in
  flat_map (λ i, if has_id CI i then [] else [i])
    (flat_map (λ i, [subst_instruction CI (Inst (iid d)) i])
      (flat_map (λ i, if has_id (iid c) i then [i; d] else [i])
        (flat_map (λ i, if has_id (iid b) i then [a; i] else [i])
          (flat_map (λ i, if has_id (iid c) i then [b; i] else [i])
            (if has_id CI i then [c; i] else [i])))))
  = replace_with CI (nondet_news n call vms nbytes g identifier name)
      (Inst (iid d)) i.
Proof.
  intros Hnb HCI Hi. unfold replace_with, nondet_news, has_id. simpl.
  destruct (Nat.eqb_spec (iid i) CI) as [Heq|Hne]; simpl.
  - repeat (eqb_lia; simpl).
    unfold subst_instruction. simpl. repeat (eqb_lia; simpl).
    unfold subst_value. rewrite Hnb. simpl. eqb_lia. done.
  - repeat (eqb_lia; simpl). done.
Qed.

Lemma replaceCall_Done CI line var w w' :
  bounded (M w) →
  replaceCall CI line var w = Done tt w' →
  ∃ F call extra,
    parent_function (M w) CI = Some F ∧
    lookup_inst (M w) CI = Some call ∧
    (extra = [] ∨
     extra = [declaration "klee_make_nondet"
                (klee_make_nondet_type (size_t_of w))] ∧
     _vms w = None ∧
     lookup_function (M w) "klee_make_nondet" = None) ∧
    let n := fresh (M w) in
    let name := derived_name (fname F) var line in
    let news :=
      nondet_news n call (vms_of w)
        (ConstantInt_get (size_t_of w)
           (type_alloc_size (M w) (itype call)))
        (length (globals (M w)))
        (unsigned_succ (call_identifier w)) name in
    w' = with_vms (Some (vms_of w))
           (with_size_t_Ty (Some (size_t_of w))
              (with_call_identifier (unsigned_succ (call_identifier w))
                 (with_M
                    {| functions :=
                         (edit_function
                            (replace_with CI news (Inst (S (S (S n)))))
                            <$> functions (M w)) ++ extra;
                       globals := globals (M w) ++ [name_global name];
                       fresh := S (S (S (S n)));
                       pointer_size_bits := pointer_size_bits (M w);
                       type_alloc_size := type_alloc_size (M w) |}
                    w))).
Proof.
  intros Hb H. unfold replaceCall in H.
  destruct w as [cs als ns ls vms st ci hci m e].
  destruct m as [fs gs n pb tas]. simpl in *.
  step H. unfold parent_name in Hrun. step Hrun. unfold get in Hrun0.
  simplify_eq. step Hrun. apply deref_Done in Hrun0 as [HF ->].
  unfold ret in Hrun. simplify_eq. norm.
  step H. unfold new_name_global, bind, get, modify, ret in Hrun.
  simplify_eq. norm.
  step H. unfold get in Hrun. simplify_eq. norm.
  step H. apply deref_Done in Hrun as [Hcall ->].
  step H. unfold new_instruction, bind, get, modify, ret in Hrun.
  simplify_eq. norm.
  step H. unfold new_instruction, bind, get, modify, ret in Hrun.
  simplify_eq. norm.
  step H. rewrite get_size_t_run in Hrun. simplify_eq. norm.
  step H. unfold modify in Hrun. simplify_eq. norm.
  step H. unfold get in Hrun. simplify_eq. norm.
  step H.
  apply get_verifier_make_nondet_Done in Hrun as (-> & extra & Hextra & ->).
  norm.
  step H. unfold new_instruction, bind, get, modify, ret in Hrun.
  simplify_eq. norm.
  step H. unfold new_instruction, bind, get, modify, ret in Hrun.
  simplify_eq. norm.
  unfold on_module, bind, modify in H. simplify_eq. norm.
  exists a0, a, extra. split; [done|]. split; [done|]. split; [exact Hextra|].
  assert (CI < n) as HCI.
  { apply lookup_inst_Some in Hcall as [Hin <-].
    unfold bounded in Hb. rewrite Forall_forall in Hb. by apply Hb. }
  f_equal; [by destruct vms|].
  unfold eraseFromParent, replaceAllUsesWith, insertAfter, insertBefore.
  repeat match goal with
    | |- context [edit ?g (edit ?h ?m)] =>
        lazymatch m with
        | edit _ _ => fail
        | _ => rewrite (edit_edit g h m)
        end
    end.
  unfold edit, with_functions. simpl. f_equal.
  rewrite fmap_app. f_equal.
  - apply (edit_functions_ext (λ i, iid i < n)); [exact Hb|].
    intros i Hi.
    apply (replace_edits CI n a (default "klee_make_nondet" vms)
             _ (length gs) (unsigned_succ ci)
             (derived_name (fname a0) var line) i);
      [apply is_inst_ConstantInt_get | done | done].
  - destruct Hextra as [->|[-> _]]; done.
Qed.

Lemma extra_declarations (extra : list function) ty P :
  extra = [] ∨ extra = [declaration "klee_make_nondet" ty] ∧ P →
  Forall (λ F, fblocks F = []) extra.
Proof. intros [->|[-> _]]; repeat constructor. Qed.

Lemma replaceCall_step c line var w w' :
  bounded (M w) →
  replaceCall c line var w = Done tt w' →
  ∃ F call, nondet_step c line var w w' F call.
Proof.
  intros Hb H.
  destruct (replaceCall_Done _ _ _ _ _ Hb H)
    as (F & call & extra & HF & Hcall & Hextra & Hw').
  cbv zeta in Hw'. exists F, call.
  pose proof (extra_declarations _ _ _ Hextra) as Hdecl.
  assert (c < fresh (M w)) as Hc.
  { apply lookup_inst_Some in Hcall as [Hin <-].
    unfold bounded in Hb. rewrite Forall_forall in Hb. by apply Hb. }
  set (news := nondet_news (fresh (M w)) call _ _ _ _ _) in *.
  assert (∀ x, x < fresh (M w) → find_inst x news = None) as Hnews.
  { intros x Hx. apply find_inst_None. subst news.
    unfold nondet_news. repeat constructor; simpl; lia. }
  assert (Forall (λ i, iid i < fresh (M w)) (insts (M w))) as Hb'
    by exact Hb.
  split; subst w'; try (by norm).
  - (* bounded *)
    unfold bounded, insts. norm. rewrite insts_edited by done.
    apply Forall_forall. intros i' Hi'.
    apply list_elem_of_In, in_flat_map in Hi' as (i & Hi & Hi').
    apply list_elem_of_In in Hi. rewrite Forall_forall in Hb'.
    specialize (Hb' i Hi). unfold replace_with in Hi'.
    destruct (has_id c i).
    + subst news. unfold nondet_news in Hi'. simpl in Hi'.
      destruct Hi' as [<-|[<-|[<-|[<-|[]]]]]; simpl; lia.
    + destruct Hi' as [<-|[]]. simpl. lia.
  - (* other instructions *)
    intros x Hxc Hx. unfold lookup_inst, insts. norm.
    rewrite insts_edited by done.
    apply find_inst_replace_other; [done | by apply Hnews].
  - (* the call is gone *)
    unfold lookup_inst, insts. norm. rewrite insts_edited by done.
    apply find_inst_replace_gone. by apply Hnews.
  - (* the new instructions *)
    intros j Hj. unfold lookup_inst, insts. norm.
    rewrite insts_edited by done.
    rewrite (find_inst_replace_new c news _ _ _ call); [| exact Hcall |].
    + subst news. unfold nondet_news, find_inst, has_id.
      destruct j as [|[|[|[|j]]]]; simpl; eqb_lia; try done. lia.
    + eapply Forall_impl; [exact Hb'|]. simpl. intros. lia.
  - (* blocks *)
    unfold blocks. norm. by rewrite blocks_edited.
  - (* parents *)
    intros x Hxc Hx. unfold parent_function. norm.
    apply find_parent_edit; [|done].
    intros l. rewrite find_inst_replace_other; [|done|by apply Hnews].
    by rewrite fmap_is_Some.
  - (* function names *)
    norm. rewrite fmap_app, <- list_fmap_compose.
    exists (fname <$> extra). split; [done|].
    destruct Hextra as [->|(-> & ? & ?)]; [by left | by right].
Qed.

Lemma handleAlloc_Done CI line var w w' :
  bounded (M w) →
  handleAlloc CI line var w = Done tt w' →
  ∃ F call callee args a0 news extra,
    parent_function (M w) CI = Some F ∧
    lookup_inst (M w) CI = Some call ∧
    iop call = Call (FunctionRef callee) args ∧
    operands call !! 0 = Some a0 ∧
    (extra = [] ∨
     extra = [declaration "klee_make_nondet"
                (klee_make_nondet_type (size_t_of w))] ∧
     _vms w = None ∧
     lookup_function (M w) "klee_make_nondet" = None) ∧
    let n := fresh (M w) in
    let g := length (globals (M w)) in
    let identifier := unsigned_succ (handleAlloc_call_identifier w) in
    (callee = "calloc" ∧
     (∃ a1 ty, operands call !! 1 = Some a1 ∧
               news = calloc_news n CI ty a0 a1 (vms_of w) g identifier)
     ∨
     callee ≠ "calloc" ∧
     news = malloc_news n CI a0 (vms_of w) g identifier) ∧
    w' = with_vms (Some (vms_of w))
           (with_size_t_Ty
              (match _vms w with
               | Some _ => _size_t_Ty w
               | None => Some (size_t_of w)
               end)
              (with_handleAlloc_call_identifier identifier
                 (with_M
                    {| functions :=
                         (edit_function (augment_with CI news)
                            <$> functions (M w)) ++ extra;
                       globals :=
                         globals (M w)
                         ++ [name_global
                               (derived_name (fname F) var line)];
                       fresh := length news + n;
                       pointer_size_bits := pointer_size_bits (M w);
                       type_alloc_size := type_alloc_size (M w) |}
                    w))).
Proof.
  intros Hb H. unfold handleAlloc in H.
  destruct w as [cs als ns ls vms st ci hci m e].
  destruct m as [fs gs n pb tas]. simpl in *.
  step H. unfold parent_name in Hrun. step Hrun. unfold get in Hrun0.
  simplify_eq. step Hrun. apply deref_Done in Hrun0 as [HF ->].
  unfold ret in Hrun. simplify_eq. norm.
  step H. unfold new_name_global, bind, get, modify, ret in Hrun.
  simplify_eq. norm.
  step H. unfold get in Hrun. simplify_eq. norm.
  step H. apply deref_Done in Hrun as [Hcall ->].
  step H. unfold new_instruction, bind, get, modify, ret in Hrun.
  simplify_eq. norm.
  step H. unfold on_module, modify in Hrun. simplify_eq. norm.
  step H. unfold called_function_name in Hrun.
  destruct (iop a) as [callee args| | | | |] eqn:Hop; try done.
  destruct callee as [?|? ?|? ?|fn|?|? ?]; try done.
  unfold ret in Hrun. simplify_eq.
  step H.
  assert (CI < n) as HCI.
  { apply lookup_inst_Some in Hcall as [Hin <-].
    unfold bounded in Hb. rewrite Forall_forall in Hb. by apply Hb. }
  match goal with
  | Hop : iop _ = Call (FunctionRef ?f) _ |- _ => rename f into callee
  end.
  destruct (String.eqb_spec callee "calloc") as [->|Hcallee].
  - step Hrun. apply deref_Done in Hrun0 as [Ha0 ->].
    step Hrun. apply deref_Done in Hrun0 as [Ha1 ->].
    step Hrun. unfold get in Hrun0. simplify_eq. norm.
    step Hrun. apply deref_Done in Hrun0 as [Hty ->].
    step Hrun. unfold new_instruction, bind, get, modify, ret in Hrun0.
    simplify_eq. norm.
    unfold on_module, bind, modify, ret in Hrun. simplify_eq. norm.
    step H. unfold modify in Hrun. simplify_eq. norm.
    step H. unfold get in Hrun. simplify_eq. norm.
    step H.
    apply get_verifier_make_nondet_Done in Hrun
      as (-> & extra & Hextra & ->).
    norm.
    step H. unfold new_instruction, bind, get, modify, ret in Hrun.
    simplify_eq. norm.
    unfold on_module, modify in H. simplify_eq. norm.
    eexists a0, a, "calloc", args, _, _, extra.
    split; [done|]. split; [done|]. split; [done|]. split; [exact Ha0|].
    split.
    { destruct Hextra as [->|(-> & -> & Hnone)]; [by left|right].
      split; [done|]. split; [done|].
      unfold lookup_function, insertBefore, edit in *. norm.
      by rewrite !find_function_edit_None in Hnone. }
    split.
    { left. split; [done|]. eexists _, _. split; [exact Ha1|done]. }
    f_equal. unfold insertAfter, edit. norm. f_equal.
    rewrite fmap_app. f_equal.
    + rewrite !edit_functions_compose.
      apply (edit_functions_ext (λ i, iid i < n)); [exact Hb|].
      intros i Hi. unfold augment_with, calloc_news, has_id.
      destruct (Nat.eqb_spec (iid i) CI) as [Heq|Hne]; simpl;
        repeat (eqb_lia; simpl); done.
    + destruct Hextra as [->|[-> _]]; done.
  - step H. unfold modify in Hrun0. simplify_eq. norm.
    apply deref_Done in Hrun as [Ha0 ->].
    step H. unfold get in Hrun. simplify_eq. norm.
    step H.
    apply get_verifier_make_nondet_Done in Hrun
      as (-> & extra & Hextra & ->).
    norm.
    step H. unfold new_instruction, bind, get, modify, ret in Hrun.
    simplify_eq. norm.
    unfold on_module, modify in H. simplify_eq. norm.
    eexists a0, a, callee, args, _, _, extra.
    split; [done|]. split; [done|]. split; [done|]. split; [exact Ha0|].
    split.
    { destruct Hextra as [->|(-> & -> & Hnone)]; [by left|right].
      split; [done|]. split; [done|].
      unfold lookup_function, insertAfter, edit in *. norm.
      by rewrite !find_function_edit_None in Hnone. }
    split.
    { right. split; [done|]. done. }
    f_equal. unfold insertAfter, edit. norm. f_equal.
    rewrite fmap_app. f_equal.
    + rewrite !edit_functions_compose.
      apply (edit_functions_ext (λ i, iid i < n)); [exact Hb|].
      intros i Hi. unfold augment_with, malloc_news, has_id.
      destruct (Nat.eqb_spec (iid i) CI) as [Heq|Hne]; simpl;
        repeat (eqb_lia; simpl); done.
    + destruct Hextra as [->|[-> _]]; done.
Qed.

Lemma handleAlloc_step c line var w w' :
  bounded (M w) →
  handleAlloc c line var w = Done tt w' →
  ∃ F call news, alloc_step c line var w w' F call news.
Proof.
  intros Hb H.
  destruct (handleAlloc_Done _ _ _ _ _ Hb H)
    as (F & call & callee & args & a0 & news & extra
        & HF & Hcall & Hop & Ha0 & Hextra & Hw').
  cbv zeta in Hw'. destruct Hw' as [Hnews Hw']. exists F, call, news.
  pose proof (extra_declarations _ _ _ Hextra) as Hdecl.
  assert (c < fresh (M w)) as Hc.
  { apply lookup_inst_Some in Hcall as [Hin <-].
    unfold bounded in Hb. rewrite Forall_forall in Hb. by apply Hb. }
  assert (Forall (λ i, fresh (M w) ≤ iid i < length news + fresh (M w))
            news) as Hids.
  { destruct Hnews as [(_ & a1 & ty & _ & ->)|(_ & ->)];
      repeat constructor; simpl; lia. }
  assert (∀ i, i ∈ news → find_inst (iid i) news = Some i) as Hfind.
  { intros i Hi. unfold find_inst, has_id.
    destruct Hnews as [(_ & a1 & ty & _ & ->)|(_ & ->)].
    - unfold calloc_news in *.
      apply elem_of_cons in Hi as [->|Hi]; [simpl; by eqb_lia|].
      apply elem_of_cons in Hi as [->|Hi]; [simpl; by eqb_lia|].
      apply list_elem_of_singleton in Hi as ->. simpl. by eqb_lia.
    - unfold malloc_news in *.
      apply elem_of_cons in Hi as [->|Hi]; [simpl; by eqb_lia|].
      apply list_elem_of_singleton in Hi as ->. simpl. by eqb_lia. }
  assert (∀ x, x < fresh (M w) → find_inst x news = None) as Hnone.
  { intros x Hx. apply find_inst_None.
    eapply Forall_impl; [exact Hids|]. simpl. intros. lia. }
  assert (Forall (λ i, iid i < fresh (M w)) (insts (M w))) as Hb'
    by exact Hb.
  split; subst w'; try (by norm).
  - (* the added instructions *)
    exists callee, args, a0. split; [done|]. split; [done|].
    destruct Hnews as [(-> & a1 & ty & Ha1 & ->)|(Hcallee & ->)];
      [left|right]; eauto.
  - (* bounded *)
    unfold bounded, insts. norm. rewrite insts_edited by done.
    apply Forall_forall. intros i' Hi'.
    apply list_elem_of_In, in_flat_map in Hi' as (i & Hi & Hi').
    apply list_elem_of_In in Hi. rewrite Forall_forall in Hb'.
    specialize (Hb' i Hi). unfold augment_with in Hi'.
    destruct (has_id c i).
    + destruct Hi' as [<-|Hi']; [lia|].
      apply list_elem_of_In in Hi'. rewrite Forall_forall in Hids.
      specialize (Hids i' Hi'). lia.
    + destruct Hi' as [<-|[]]. lia.
  - (* old instructions *)
    intros x Hx. unfold lookup_inst, insts. norm.
    rewrite insts_edited by done.
    apply find_inst_augment_old. by apply Hnone.
  - (* new instructions *)
    intros i Hi. unfold lookup_inst, insts. norm.
    rewrite insts_edited by done.
    rewrite (find_inst_augment_new c news _ _ call); [by apply Hfind|done|].
    rewrite Forall_forall in Hids. specialize (Hids i Hi).
    eapply Forall_impl; [exact Hb'|]. simpl. intros. lia.
  - (* nothing else is new *)
    intros x i Hx Hi. unfold lookup_inst, insts in Hi. norm.
    rewrite insts_edited in Hi by done.
    apply find_inst_Some in Hi as [Hi Hid].
    apply list_elem_of_In, in_flat_map in Hi as (i0 & Hi0 & Hi).
    apply list_elem_of_In in Hi0. rewrite Forall_forall in Hb'.
    specialize (Hb' i0 Hi0). unfold augment_with in Hi.
    destruct (has_id c i0).
    + destruct Hi as [<-|Hi]; [lia|]. by apply list_elem_of_In.
    + destruct Hi as [<-|[]]. lia.
  - (* blocks *)
    unfold blocks. norm. by rewrite blocks_edited.
  - (* parents *)
    intros x Hx. unfold parent_function. norm.
    apply find_parent_edit; [|done].
    intros l. by rewrite find_inst_augment_old by (by apply Hnone).
  - (* function names *)
    norm. rewrite fmap_app, <- list_fmap_compose.
    exists (fname <$> extra). split; [done|].
    destruct Hextra as [->|(-> & ? & ?)]; [by left | by right].
Qed.

End RunFacts.

(** * The two rewrite loops *)

Module LoopFacts.
Import IR Pass Summary IRFacts RunFacts.

#[local] Arguments Nat.eqb : simpl never.

Lemma for_each_cons_Done {A} (body : A → run unit) x l w w' :
  for_each body (x :: l) w = Done tt w' →
  ∃ w1, body x w = Done tt w1 ∧ for_each body l w1 = Done tt w'.
Proof.
  simpl. intros H. apply bind_Done in H as ([] & w1 & H1 & H). eauto.
Qed.

Lemma redirect_cons c l ρ i :
  redirect ((c, l) :: ρ) i = redirect ρ (subst_instruction c (Inst l) i).
Proof. done. Qed.

Lemma itype_redirect ρ i : itype (redirect ρ i) = itype i.
Proof.
  revert i. induction ρ as [|[c l] ρ IH]; intros i; [done|].
  by rewrite redirect_cons, IH.
Qed.

Lemma iid_redirect ρ i : iid (redirect ρ i) = iid i.
Proof.
  revert i. induction ρ as [|[c l] ρ IH]; intros i; [done|].
  by rewrite redirect_cons, IH.
Qed.

Lemma redirect_fixed ρ i :
  Forall (λ cl, subst_instruction cl.1 (Inst cl.2) i = i) ρ →
  redirect ρ i = i.
Proof.
  induction 1 as [|[c l] ρ Hcl _ IH]; [done|].
  rewrite redirect_cons. simpl in Hcl. by rewrite Hcl.
Qed.

Lemma loads_old m n cs :
  Forall (λ c, c < m) cs → Forall (λ cl : nat * nat, cl.1 < m) (loads n cs).
Proof.
  revert n. induction cs as [|c cs IH]; intros n Hcs; [constructor|].
  apply Forall_cons in Hcs as [Hc Hcs]. simpl. constructor; [done|].
  by apply IH.
Qed.

(** The new instructions of a rewrite do not use any older instruction but
    through constants, so later redirections leave them alone. *)
Lemma subst_nondet_news c v n call vms ty size g id name i :
  c < n →
  i ∈ nondet_news n call vms (ConstantInt_get ty size) g id name →
  subst_instruction c v i = i.
Proof.
  intros Hc Hi. unfold nondet_news in Hi.
  assert (is_inst c (ConstantInt_get ty size) = false) as Hnb
    by apply is_inst_ConstantInt_get.
  repeat (apply elem_of_cons in Hi as [->|Hi]);
    [..|by apply elem_of_nil in Hi];
    unfold subst_instruction; simpl; unfold subst_value;
    rewrite ?Hnb; simpl; eqb_lia; done.
Qed.

Lemma replaceCalls_loop calls : ∀ w w',
  bounded (M w) →
  Forall (λ pr : N * nat, pr.2 < fresh (M w)) calls →
  for_each replaceCalls_body calls w = Done tt w' →
  nondet_run calls w w'.
Proof.
  induction calls as [|[line c] calls IH]; intros w w' Hb Hold H.
  - simpl in H. unfold ret in H. simplify_eq.
    split; try done.
    + constructor.
    + intros x _ _. simpl. by destruct (lookup_inst (M w') x).
    + intros c Hc. by apply elem_of_nil in Hc.
    + exists []. by rewrite app_nil_r; auto.
  - apply for_each_cons_Done in H as (w1 & H1 & H).
    unfold replaceCalls_body, bind, get in H1. simpl in H1.
    fold (var_for (lines w) line) in H1.
    apply replaceCall_step in H1 as (F & call & Hstep); [|done].
    destruct Hstep as [S_parent S_call S_old S_fresh S_bounded S_other
      S_gone S_new S_blocks S_parents S_functions S_globals S_ptr S_alloc
      S_calls S_allocs S_lnums S_lines S_vms S_size S_ident S_static S_errs].
    apply Forall_cons in Hold as [_ Hold]. simpl in Hold.
    assert (Forall (λ pr : N * nat, pr.2 < fresh (M w1)) calls) as Hold1.
    { eapply Forall_impl; [exact Hold|]. simpl. intros. lia. }
    destruct (IH w1 w' S_bounded Hold1 H) as [R_fresh R_bounded R_nodup
      R_other R_gone R_new R_parents R_functions R_glen R_gold R_ptr
      R_alloc R_calls R_allocs R_lnums R_lines R_vms R_vmsof R_sizeof
      R_ident R_static R_errs].
    assert (vms_of w1 = vms_of w) as Hvms
      by (unfold vms_of at 1; by rewrite S_vms).
    assert (size_t_of w1 = size_t_of w) as Hsize
      by (unfold size_t_of at 1; by rewrite S_size).
    assert (c ∉ calls.*2) as Hfresh_c.
    { intros Hin. apply list_elem_of_fmap in Hin as ([l' c'] & -> & Hin).
      apply list_elem_of_lookup in Hin as [k Hk].
      destruct (R_new k l' c' Hk) as (F' & call' & _ & Hcall' & _).
      simpl in S_gone. congruence. }
    assert (Forall (λ c', c' < fresh (M w)) calls.*2) as Hold2.
    { apply Forall_fmap. exact Hold. }
    split.
    + rewrite R_fresh, S_fresh. simpl. lia.
    + done.
    + simpl. by constructor.
    + intros x Hx Hnin. simpl in Hnin.
      apply not_elem_of_cons in Hnin as [Hxc Hnin].
      rewrite R_other by (done || lia). rewrite S_other by done.
      simpl. rewrite S_fresh. by destruct (lookup_inst (M w) x).
    + intros c' Hc'. simpl in Hc'. apply elem_of_cons in Hc' as [->|Hc'].
      * rewrite R_other by (done || lia). by rewrite S_gone.
      * by apply R_gone.
    + intros k line' c' Hk. destruct k as [|k]; simpl in Hk.
      * simplify_eq. exists F, call. split; [done|]. split; [done|].
        split.
        { rewrite R_gold by (rewrite S_globals, length_app; simpl; lia).
          rewrite S_globals. simpl.
          by rewrite lookup_app_r, Nat.sub_diag by lia. }
        intros j Hj. rewrite R_other.
        -- replace (j + (4 * 0 + fresh (M w))) with (j + fresh (M w)) by lia.
           rewrite S_new by done. simpl.
           destruct (_ !! j) as [i|] eqn:Hi; [|done]. simpl. f_equal.
           apply redirect_fixed.
           eapply Forall_impl; [apply (loads_old (fresh (M w))), Hold2|].
           simpl. intros [c2 l2] Hcl. simpl in *.
           eapply subst_nondet_news; [|by eapply list_elem_of_lookup_2].
           lia.
        -- lia.
        -- intros Hin. rewrite Forall_forall in Hold2.
           specialize (Hold2 _ Hin). lia.
      * destruct (R_new k line' c' Hk)
          as (F' & call' & HF' & Hcall' & Hglob & Hnews).
        assert (c' ≠ c) as Hne by (simpl in S_gone; congruence).
        assert (c' < fresh (M w)) as Hc'.
        { rewrite Forall_forall in Hold2. apply Hold2.
          apply list_elem_of_fmap. exists (line', c').
          split; [done|]. by eapply list_elem_of_lookup_2. }
        rewrite S_other in Hcall' by done.
        destruct (lookup_inst (M w) c') as [call0|] eqn:Hcall0; [|done].
        simpl in Hcall'. simplify_eq.
        pose proof (S_parents c' Hne Hc') as HFn. rewrite HF' in HFn.
        destruct (parent_function (M w) c') as [F0|] eqn:HF0; [|done].
        simpl in HFn. injection HFn as HFn.
        exists F0, call0. split; [done|]. split; [done|].
        rewrite S_globals, length_app, S_lines, HFn in Hglob. simpl in Hglob.
        split.
        { rewrite <- Hglob. f_equal. lia. }
        intros j Hj. specialize (Hnews j Hj).
        rewrite S_fresh, Hvms, Hsize, S_alloc, S_globals, length_app,
          S_ident, S_lines, HFn in Hnews.
        simpl in Hnews.
        replace (j + (4 * S k + fresh (M w)))
          with (j + (k + (k + (k + (k + 0))) + S (S (S (S (fresh (M w)))))))
          by lia.
        rewrite Hnews. rewrite <- Nat.iter_succ_r.
        replace (k + (k + (k + (k + 0))) + S (S (S (S (fresh (M w))))))
          with (4 * S k + fresh (M w)) by lia.
        replace (k + (length (globals (M w)) + 1))
          with (S k + length (globals (M w))) by lia.
        done.
    + intros x Hx Hnin. simpl in Hnin.
      apply not_elem_of_cons in Hnin as [Hxc Hnin].
      rewrite R_parents by (done || lia). by apply S_parents.
    + destruct S_functions as (extra1 & Hfs1 & Hextra1).
      destruct R_functions as (extra2 & Hfs2 & Hextra2).
      destruct Hextra2 as [->|(-> & Hv & _)].
      * exists extra1. rewrite Hfs2, app_nil_r. done.
      * rewrite S_vms in Hv. done.
    + rewrite R_glen, S_globals, length_app. simpl. lia.
    + intros g Hg. rewrite R_gold by (rewrite S_globals, length_app; lia).
      rewrite S_globals. by rewrite lookup_app_l.
    + by rewrite R_ptr.
    + by rewrite R_alloc.
    + by rewrite R_calls.
    + by rewrite R_allocs.
    + by rewrite R_lnums.
    + by rewrite R_lines.
    + rewrite R_vms, Hvms. by destruct calls.
    + by rewrite R_vmsof.
    + by rewrite R_sizeof.
    + rewrite R_ident, S_ident. simpl. by rewrite <- Nat.iter_succ_r.
    + by rewrite R_static.
    + by rewrite R_errs.
Qed.

(** ** Redirected operands *)

Lemma operands_subst c v i :
  operands (subst_instruction c v i) = subst_value c v <$> operands i.
Proof.
  unfold operands, subst_instruction. simpl.
  destruct (iop i); simpl; try done. by rewrite fmap_app.
Qed.

Lemma operands_redirect ρ i :
  operands (redirect ρ i) = redirect_value ρ <$> operands i.
Proof.
  revert i. induction ρ as [|[c l] ρ IH]; intros i.
  - simpl. by rewrite list_fmap_id.
  - rewrite redirect_cons, IH, operands_subst, <- list_fmap_compose. done.
Qed.

Lemma redirect_value_cons c l ρ v :
  redirect_value ((c, l) :: ρ) v
  = redirect_value ρ (subst_value c (Inst l) v).
Proof. done. Qed.

Lemma redirect_value_fixed ρ v :
  Forall (λ cl : nat * nat, is_inst cl.1 v = false) ρ →
  redirect_value ρ v = v.
Proof.
  induction 1 as [|[c l] ρ Hcl _ IH]; [done|].
  rewrite redirect_value_cons. unfold subst_value. simpl in Hcl.
  by rewrite Hcl.
Qed.

Lemma redirect_value_other n cs c :
  c ∉ cs → redirect_value (loads n cs) (Inst c) = Inst c.
Proof.
  intros Hc. apply redirect_value_fixed.
  revert n. induction cs as [|c0 cs IH]; intros n; [constructor|].
  apply not_elem_of_cons in Hc as [Hne Hc]. simpl. constructor.
  - simpl. by apply Nat.eqb_neq.
  - by apply IH.
Qed.

Lemma redirect_value_load n cs k c :
  NoDup cs → Forall (λ c', c' < n) cs → cs !! k = Some c →
  redirect_value (loads n cs) (Inst c) = Inst (3 + (4 * k + n)).
Proof.
  intros Hnd. revert n k.
  induction Hnd as [|c0 cs Hnin Hnd IH]; intros n k Hold Hk; [done|].
  apply Forall_cons in Hold as [Hc0 Hold].
  destruct k as [|k]; simpl in Hk.
  - simplify_eq. cbn [loads]. rewrite redirect_value_cons.
    unfold subst_value, is_inst.
    rewrite Nat.eqb_refl. rewrite redirect_value_fixed.
    + f_equal; lia.
    + eapply Forall_impl; [apply (loads_old n), Hold|].
      simpl. intros [c' l'] Hc'. simpl in *. apply Nat.eqb_neq. lia.
  - cbn [loads]. rewrite redirect_value_cons.
    unfold subst_value, is_inst.
    assert (c ≠ c0) as Hne.
    { intros ->. apply Hnin. by eapply list_elem_of_lookup_2. }
    rewrite (proj2 (Nat.eqb_neq _ _) Hne).
    rewrite (IH (4 + n) k); [f_equal; lia| |done].
    eapply Forall_impl; [exact Hold|]. simpl. intros. lia.
Qed.

Lemma news_length_spec m c call n vms g id news :
  lookup_inst m c = Some call →
  alloc_news_spec c call n vms g id news →
  news_length m c = length news.
Proof.
  intros Hcall (callee & args & a0 & Hop & _ & Hnews).
  unfold news_length. rewrite Hcall, Hop.
  destruct Hnews as [(-> & a1 & ty & _ & ->)|(Hne & ->)]; [done|].
  by destruct (String.eqb_spec callee "calloc").
Qed.

Lemma alloc_base_ext m1 m n cs k :
  Forall (λ c, lookup_inst m1 c = lookup_inst m c) cs →
  alloc_base m1 n cs k = alloc_base m n cs k.
Proof.
  intros Hcs. revert n k. induction Hcs as [|c cs Hc _ IH]; intros n k.
  - by destruct k.
  - destruct k as [|k]; [done|]. simpl.
    unfold news_length. by rewrite Hc, IH.
Qed.

Lemma alloc_base_grows m (n : nat) cs k : (n ≤ alloc_base m n cs k)%nat.
Proof.
  revert n k. induction cs as [|c cs IH]; intros n k; destruct k as [|k];
    simpl; try lia.
  specialize (IH (news_length m c + n) k). lia.
Qed.

Lemma alloc_news_ids c call (n : nat) vms g id news :
  alloc_news_spec c call n vms g id news →
  Forall (λ i, (n ≤ iid i < length news + n)%nat) news.
Proof.
  intros (callee & args & a0 & _ & _ & Hnews).
  destruct Hnews as [(_ & a1 & ty & _ & ->)|(_ & ->)];
    repeat constructor; simpl; lia.
Qed.

Lemma augment_segment c news (seg : list instruction) :
  Forall (λ i, iid i ≠ c) seg → flat_map (augment_with c news) seg = seg.
Proof.
  induction 1 as [|i seg Hi _ IH]; [done|].
  simpl. rewrite IH. unfold augment_with, has_id.
  by rewrite (proj2 (Nat.eqb_neq _ _)).
Qed.

Lemma block_of_inst m c call :
  lookup_inst m c = Some call →
  ∃ b pre post, b ∈ blocks m ∧ b = pre ++ call :: post.
Proof.
  intros [Hin _]%lookup_inst_Some. rewrite insts_blocks in Hin.
  apply list_elem_of_In, in_concat in Hin as (b & Hb & Hin).
  apply list_elem_of_In, list_elem_of_split in Hin as (pre & post & ->).
  exists (pre ++ call :: post), pre, post. split; [|done].
  by apply list_elem_of_In.
Qed.

Lemma handleAllocs_loop allocs : ∀ w w',
  bounded (M w) →
  Forall (λ pr : N * nat, pr.2 < fresh (M w)) allocs →
  for_each handleAllocs_body allocs w = Done tt w' →
  alloc_run allocs w w'.
Proof.
  induction allocs as [|[line c] allocs IH]; intros w w' Hb Hold H.
  - simpl in H. unfold ret in H. simplify_eq.
    split; try done.
    + intros x i Hx Hi. apply lookup_inst_Some in Hi as [Hi <-].
      unfold bounded in Hb. rewrite Forall_forall in Hb.
      specialize (Hb i Hi). lia.
    + intros seg b pre post Hbin -> _. eauto.
    + exists []. by rewrite app_nil_r; auto.
  - apply for_each_cons_Done in H as (w1 & H1 & H).
    unfold handleAllocs_body in H1. simpl in H1.
    apply handleAlloc_step in H1 as (F & call & news & Hstep); [|done].
    destruct Hstep as [S_parent S_call S_old S_news S_fresh S_bounded
      S_kept S_new S_only S_blocks S_parents S_functions S_globals S_ptr
      S_alloc S_calls S_allocs S_lnums S_lines S_vms S_ident S_static
      S_errs].
    apply Forall_cons in Hold as [_ Hold]. simpl in Hold.
    assert (Forall (λ pr : N * nat, pr.2 < fresh (M w1)) allocs) as Hold1.
    { eapply Forall_impl; [exact Hold|]. simpl. intros. lia. }
    assert (Forall (λ c', c' < fresh (M w)) allocs.*2) as Hold2.
    { apply Forall_fmap. exact Hold. }
    destruct (IH w1 w' S_bounded Hold1 H) as [R_fresh R_grows R_bounded R_kept
      R_sites R_only R_segments R_parents R_functions R_glen R_gold R_ptr
      R_alloc R_calls R_allocs R_lnums R_lines R_vms R_vmsof R_ident
      R_static R_errs].
    assert (vms_of w1 = vms_of w) as Hvms
      by (unfold vms_of at 1; by rewrite S_vms).
    assert (news_length (M w) c = length news) as Hlen
      by (by eapply news_length_spec).
    assert (∀ k, alloc_base (M w1) (fresh (M w1)) allocs.*2 k
                 = alloc_base (M w) (fresh (M w)) ((line, c) :: allocs).*2
                     (S k)) as Hbase.
    { intros k. simpl. rewrite Hlen, <- S_fresh.
      apply alloc_base_ext.
      eapply Forall_impl; [exact Hold2|]. simpl. intros. by apply S_kept. }
    assert (∀ k line' c' F' call' news',
              alloc_site allocs w1 w' k line' c' F' call' news' →
              ∃ F0, alloc_site ((line, c) :: allocs) w w' (S k) line' c'
                      F0 call' news') as Hshift.
    { intros k line' c' F' call' news'
        [T_entry T_parent T_call T_news T_fresh T_lookup T_global T_block].
      assert (c' < fresh (M w)) as Hc'.
      { rewrite Forall_forall in Hold2. apply Hold2.
        apply list_elem_of_fmap. exists (line', c').
        split; [done|]. by eapply list_elem_of_lookup_2. }
      pose proof (S_parents c' Hc') as HFn. rewrite T_parent in HFn.
      destruct (parent_function (M w) c') as [F0|] eqn:HF0; [|done].
      simpl in HFn. injection HFn as HFn.
      exists F0. split.
      - done.
      - done.
      - by rewrite <- S_kept.
      - rewrite <- Hbase, <- Hvms.
        rewrite S_static, S_globals, length_app in T_news. simpl in T_news.
        rewrite <- Nat.iter_succ_r in T_news.
        replace (S k + length (globals (M w)))
          with (k + (length (globals (M w)) + 1)) by lia.
        done.
      - eapply Forall_impl; [exact T_fresh|]. simpl. intros. lia.
      - done.
      - rewrite S_globals, length_app, HFn in T_global. simpl in T_global.
        rewrite <- T_global. f_equal. lia.
      - simpl. intros Hnd. apply NoDup_cons in Hnd as [_ Hnd]. auto. }
    pose proof (alloc_news_ids _ _ _ _ _ _ _ S_news) as Hids.
    assert (alloc_site ((line, c) :: allocs) w w' 0 line c F call news)
      as Hsite0.
    { split.
      - done.
      - done.
      - done.
      - exact S_news.
      - eapply Forall_impl; [exact Hids|]. simpl. intros. lia.
      - intros i Hi. rewrite R_kept; [by apply S_new|].
        rewrite Forall_forall in Hids. specialize (Hids i Hi). lia.
      - rewrite R_gold by (rewrite S_globals, length_app; simpl; lia).
        rewrite S_globals. simpl.
        by rewrite lookup_app_r, Nat.sub_diag by lia.
      - simpl. intros Hnd. apply NoDup_cons in Hnd as [Hnin _].
        destruct (block_of_inst _ _ _ S_call)
          as (b & pre & post & Hbin & ->).
        apply (R_segments (call :: news)
                 (flat_map (augment_with c news) (pre ++ call :: post))
                 (flat_map (augment_with c news) pre)
                 (flat_map (augment_with c news) post)).
        + rewrite S_blocks. apply list_elem_of_fmap. eauto.
        + rewrite flat_map_app. simpl. f_equal.
          unfold augment_with at 1. unfold has_id.
          pose proof S_call as [_ ->]%lookup_inst_Some.
          rewrite Nat.eqb_refl. done.
        + constructor.
          * by pose proof S_call as [_ ->]%lookup_inst_Some.
          * apply Forall_forall. intros i Hi Hin.
            pose proof (proj1 (Forall_forall _ _) Hids i Hi) as Hi'.
            pose proof (proj1 (Forall_forall _ _) Hold2 _ Hin) as Hin'.
            simpl in *. lia. }
    split.
    + rewrite R_fresh. apply Hbase.
    + lia.
    + done.
    + intros x Hx. rewrite R_kept by lia. by apply S_kept.
    + intros k line' c' Hk. destruct k as [|k]; simpl in Hk.
      * simplify_eq. eauto.
      * destruct (R_sites k line' c' Hk) as (F' & call' & news' & Hsite).
        destruct (Hshift _ _ _ _ _ _ Hsite) as (F0 & Hsite').
        eauto.
    + intros x i Hx Hi.
      destruct (decide (x < fresh (M w1))) as [Hlt|Hge].
      * rewrite R_kept in Hi by done.
        exists 0, line, c, F, call, news. split; [done|].
        by eapply S_only.
      * destruct (R_only x i ltac:(lia) Hi)
          as (k & line' & c' & F' & call' & news' & Hsite & Hin).
        destruct (Hshift _ _ _ _ _ _ Hsite) as (F0 & Hsite').
        exists (S k), line', c', F0, call', news'. done.
    + intros seg b pre post Hbin -> Hseg.
      apply (R_segments seg
               (flat_map (augment_with c news) (pre ++ seg ++ post))
               (flat_map (augment_with c news) pre)
               (flat_map (augment_with c news) post)).
      * rewrite S_blocks. apply list_elem_of_fmap. eauto.
      * rewrite !flat_map_app. f_equal. f_equal.
        apply augment_segment. eapply Forall_impl; [exact Hseg|].
        simpl. intros i Hi Heq. apply Hi. rewrite Heq. by left.
      * eapply Forall_impl; [exact Hseg|].
        simpl. intros i Hi Hin. apply Hi. by right.
    + intros x Hx. rewrite R_parents by lia. by apply S_parents.
    + destruct S_functions as (extra1 & Hfs1 & Hextra1).
      destruct R_functions as (extra2 & Hfs2 & Hextra2).
      destruct Hextra2 as [->|(-> & Hv & _)].
      * exists extra1. rewrite Hfs2, app_nil_r. done.
      * rewrite S_vms in Hv. done.
    + rewrite R_glen, S_globals, length_app. simpl. lia.
    + intros g Hg. rewrite R_gold by (rewrite S_globals, length_app; lia).
      rewrite S_globals. by rewrite lookup_app_l.
    + by rewrite R_ptr.
    + by rewrite R_alloc.
    + by rewrite R_calls.
    + by rewrite R_allocs.
    + by rewrite R_lnums.
    + by rewrite R_lines.
    + rewrite R_vms, Hvms. by destruct allocs.
    + by rewrite R_vmsof.
    + by rewrite R_ident.
    + rewrite R_static, S_static. simpl. by rewrite <- Nat.iter_succ_r.
    + by rewrite R_errs.
Qed.

End LoopFacts.

(** * The phases of the pass *)

Module PassFacts.
Import IR Pass Summary IRFacts RunFacts LoopFacts.

Lemma handleCall_run CI ismalloc w :
  handleCall CI ismalloc w = Done tt (record_site w (ismalloc, CI)).
Proof.
  unfold handleCall, record_site, line_of. simpl.
  destruct (idebugloc CI) as [line|], ismalloc; reflexivity.
Qed.

Lemma M_record_site w s : M (record_site w s) = M w.
Proof.
  unfold record_site. destruct s as [[] CI]; simpl;
    by destruct (idebugloc CI).
Qed.

Lemma M_foldl_record_site ss w : M (foldl record_site w ss) = M w.
Proof.
  revert w. induction ss as [|s ss IH]; intros w; [done|].
  simpl. by rewrite IH, M_record_site.
Qed.

Lemma for_each_handleCall ismalloc (CIs : list instruction) w :
  for_each (λ CI, handleCall CI ismalloc) CIs w
  = Done tt (foldl record_site w ((λ CI, (ismalloc, CI)) <$> CIs)).
Proof.
  revert w. induction CIs as [|CI CIs IH]; intros w; [done|].
  simpl. unfold bind. by rewrite handleCall_run, IH.
Qed.

Lemma runOnFunction_run F w :
  runOnFunction F w = Done false (foldl record_site w (sites_of (M w) F)).
Proof.
  unfold runOnFunction, sites_of.
  destruct (negb (isDeclaration F)); [done|].
  destruct (negb _ && negb _ && negb _); [done|].
  unfold bind, get. by rewrite for_each_handleCall.
Qed.

Lemma collect_run (fs : list function) w :
  for_each (λ F, runOnFunction F ;; ret tt) fs w
  = Done tt (foldl record_site w (flat_map (sites_of (M w)) fs)).
Proof.
  revert w. induction fs as [|F fs IH]; intros w; [done|].
  simpl. unfold bind at 1 2. rewrite runOnFunction_run. unfold ret at 1.
  rewrite IH, M_foldl_record_site. by rewrite foldl_app.
Qed.

Lemma collected_calls ss w :
  calls_to_replace (foldl record_site w ss)
  = calls_to_replace w ++ nondet_worklist ss.
Proof.
  revert w. induction ss as [|[ismalloc CI] ss IH]; intros w.
  - by rewrite app_nil_r.
  - simpl. rewrite IH. unfold record_site. simpl.
    destruct ismalloc, (idebugloc CI); simpl; by rewrite <- ?app_assoc.
Qed.

Lemma collected_allocs ss w :
  allocs_to_handle (foldl record_site w ss)
  = allocs_to_handle w ++ alloc_worklist ss.
Proof.
  revert w. induction ss as [|[ismalloc CI] ss IH]; intros w.
  - by rewrite app_nil_r.
  - simpl. rewrite IH. unfold record_site. simpl.
    destruct ismalloc, (idebugloc CI); simpl; by rewrite <- ?app_assoc.
Qed.

Lemma collected_lines_nums ss w :
  lines_nums (foldl record_site w ss)
  = list_to_set (site_lines ss) ∪ lines_nums w.
Proof.
  revert w. induction ss as [|[ismalloc CI] ss IH]; intros w.
  - simpl. set_solver.
  - simpl. rewrite IH. unfold record_site, site_lines. simpl.
    destruct ismalloc, (idebugloc CI); simpl; set_solver.
Qed.

Lemma collected_rest ss w :
  let w' := foldl record_site w ss in
  lines w' = lines w ∧ _vms w' = _vms w ∧ _size_t_Ty w' = _size_t_Ty w ∧
  call_identifier w' = call_identifier w ∧
  handleAlloc_call_identifier w' = handleAlloc_call_identifier w ∧
  errs w' = errs w.
Proof.
  revert w. induction ss as [|[ismalloc CI] ss IH]; intros w; [done|].
  simpl. destruct (IH (record_site w (ismalloc, CI)))
    as (-> & -> & -> & -> & -> & ->).
  unfold record_site. simpl.
  by destruct ismalloc, (idebugloc CI).
Qed.

Lemma call_uses_insts m name CI : CI ∈ call_uses m name → CI ∈ insts m.
Proof.
  unfold call_uses. intros Hin.
  apply list_elem_of_In, in_flat_map in Hin as (i & Hi & Hin).
  apply list_elem_of_In in Hi.
  destruct (iop i); try done.
  apply list_elem_of_In, elem_of_replicate in Hin as [-> _]. done.
Qed.

Lemma sites_insts m s : s ∈ sites m → s.2 ∈ insts m.
Proof.
  unfold sites. intros Hin.
  apply list_elem_of_In, in_flat_map in Hin as (F & _ & Hin).
  unfold sites_of in Hin. destruct (negb (isDeclaration F)); [done|].
  destruct (negb _ && negb _ && negb _); [done|].
  apply list_elem_of_In, list_elem_of_fmap in Hin as (CI & -> & Hin).
  by eapply call_uses_insts.
Qed.

Lemma nondet_worklist_sites ss pr :
  pr ∈ nondet_worklist ss →
  ∃ CI, (false, CI) ∈ ss ∧ pr = (line_of CI, iid CI).
Proof.
  unfold nondet_worklist. intros Hin.
  apply list_elem_of_omap in Hin as ([[] CI] & Hin & Heq); simpl in Heq;
    [done|]. simplify_eq. eauto.
Qed.

Lemma alloc_worklist_sites ss pr :
  pr ∈ alloc_worklist ss →
  ∃ CI, (true, CI) ∈ ss ∧ pr = (line_of CI, iid CI).
Proof.
  unfold alloc_worklist. intros Hin.
  apply list_elem_of_omap in Hin as ([[] CI] & Hin & Heq); simpl in Heq;
    [|done]. simplify_eq. eauto.
Qed.

Lemma worklists_old m :
  bounded m →
  Forall (λ pr : N * nat, pr.2 < fresh m) (nondet_worklist (sites m)) ∧
  Forall (λ pr : N * nat, pr.2 < fresh m) (alloc_worklist (sites m)).
Proof.
  intros Hb. unfold bounded in Hb. rewrite Forall_forall in Hb.
  split; apply Forall_forall; intros pr Hpr.
  - apply nondet_worklist_sites in Hpr as (CI & Hin & ->).
    apply sites_insts in Hin. by apply Hb.
  - apply alloc_worklist_sites in Hpr as (CI & Hin & ->).
    apply sites_insts in Hin. by apply Hb.
Qed.

(** ** Source lines *)

Section WithEnvironment.
Variable env : environment.

Lemma read_lines_run file n w :
  read_lines file n w
  = Done tt (with_lines (lines_read file n (lines_nums w) (lines w)) w).
Proof.
  destruct w as [cs als ns ls vms st ci hci m e].
  unfold with_lines. simpl.
  revert n ls. induction file as [|line file IH]; intros n ls; [done|].
  simpl. unfold bind at 1 2, get at 1. simpl.
  destruct (bool_decide (n ∈ ns)); unfold modify, ret, with_lines; simpl;
    apply IH.
Qed.

(** The outcome of [mapLines], by cases. *)
Definition mapLines_outcome (w : world) : outcome unit :=
  if bool_decide (lines_nums w = ∅) then
    if NDEBUG env || bool_decide (calls_to_replace w = [])
    then Done tt w
    else Stop (AssertionFailure "calls_to_replace.empty()") w
  else
    match source_file env with
    | Some file =>
        let w1 := with_lines
                    (lines_read file 1 (lines_nums w) (lines w)) w in
        if NDEBUG env
           || bool_decide (size (lines w1) = size (lines_nums w1))
        then Done tt w1
        else Stop (AssertionFailure "lines.size() == lines_nums.size()") w1
    | None =>
        Stop Abort
          (with_errs (errs w +:+ "Couldn't open file: "
                      +:+ source_name env +:+ newline) w)
    end.

Lemma mapLines_run w : mapLines env w = mapLines_outcome w.
Proof.
  unfold mapLines, mapLines_outcome, bind, get, assert.
  destruct (bool_decide (lines_nums w = ∅)).
  - destruct (NDEBUG env); [done|]. simpl.
    by destruct (bool_decide (calls_to_replace w = [])).
  - destruct (source_file env) as [file|]; [|done].
    rewrite read_lines_run. simpl.
    destruct (NDEBUG env); [done|]. simpl.
    by destruct (bool_decide _).
Qed.

Lemma mapLines_Done w w1 :
  mapLines_outcome w = Done tt w1 →
  ∃ ls, w1 = with_lines ls w ∧
    (bool_decide (lines_nums w = ∅) = true ∧ ls = lines w ∨
     ∃ file, bool_decide (lines_nums w = ∅) = false ∧
             source_file env = Some file ∧
             ls = lines_read file 1 (lines_nums w) (lines w)).
Proof.
  unfold mapLines_outcome. intros H.
  destruct (bool_decide (lines_nums w = ∅)).
  - destruct (NDEBUG env || _); [|done].
    injection H as <-.
    exists (lines w). split; [by destruct w | by left].
  - destruct (source_file env) as [file|]; [|done].
    destruct (NDEBUG env || _); [|done]. simplify_eq.
    eexists. split; [done|]. right. eauto.
Qed.

(** ** The pass as the sequence of its phases *)

Definition after_phases (w : world) : outcome bool :=
  match mapLines_outcome w with
  | Done _ w1 =>
      match for_each replaceCalls_body (calls_to_replace w1) w1 with
      | Done _ w2 =>
          match for_each handleAllocs_body (allocs_to_handle w2) w2 with
          | Done _ w3 =>
              Done (negb (bool_decide (calls_to_replace w3 = []))
                    || negb (bool_decide (allocs_to_handle w3 = []))) w3
          | Stop f w => Stop f w
          end
      | Stop f w => Stop f w
      end
  | Stop f w => Stop f w
  end.

Lemma runOnModule_phases m :
  runOnModule env (initial m) = after_phases (collected m).
Proof.
  unfold runOnModule, after_phases, collected.
  unfold bind at 1. unfold get at 1. simpl.
  unfold bind at 1. rewrite collect_run. simpl.
  unfold bind at 1. rewrite mapLines_run. unfold sites.
  destruct (mapLines_outcome _) as [[] w1|f w1]; [|done].
  unfold bind at 1. unfold replaceCalls at 1. unfold bind at 1, get at 1.
  change (for_each _ (calls_to_replace w1) w1)
    with (for_each replaceCalls_body (calls_to_replace w1) w1).
  destruct (for_each replaceCalls_body _ w1) as [[] w2|f w2]; [|done].
  unfold bind at 1. unfold handleAllocs at 1. unfold bind at 1, get at 1.
  change (for_each _ (allocs_to_handle w2) w2)
    with (for_each handleAllocs_body (allocs_to_handle w2) w2).
  destruct (for_each handleAllocs_body _ w2) as [[] w3|f w3]; [|done].
  done.
Qed.

Lemma runOnModule_Done m b w' :
  bounded m →
  runOnModule env (initial m) = Done b w' →
  ∃ w1 w2 ls,
    mapLines_outcome (collected m) = Done tt w1 ∧
    w1 = with_lines ls (collected m) ∧
    nondet_run (nondet_worklist (sites m)) w1 w2 ∧
    alloc_run (alloc_worklist (sites m)) w2 w' ∧
    b = negb (bool_decide (nondet_worklist (sites m) = []))
        || negb (bool_decide (alloc_worklist (sites m) = [])).
Proof.
  intros Hb H. rewrite runOnModule_phases in H. unfold after_phases in H.
  destruct (mapLines_outcome _) as [[] w1|f w1] eqn:Hmap; [|done].
  destruct (mapLines_Done _ _ Hmap) as (ls & Hw1 & _).
  pose proof (collected_calls (sites m) (initial m)) as Hcalls.
  pose proof (collected_allocs (sites m) (initial m)) as Hallocs.
  fold (collected m) in Hcalls, Hallocs. simpl in Hcalls, Hallocs.
  assert (M w1 = m) as HM.
  { rewrite Hw1. simpl. unfold collected. by rewrite M_foldl_record_site. }
  assert (calls_to_replace w1 = nondet_worklist (sites m)) as Hc1
    by (by rewrite Hw1).
  assert (allocs_to_handle w1 = alloc_worklist (sites m)) as Ha1
    by (by rewrite Hw1).
  destruct (worklists_old m Hb) as [Hold1 Hold2].
  rewrite Hc1 in H.
  destruct (for_each replaceCalls_body _ w1) as [[] w2|f w2] eqn:Hrep;
    [|done].
  apply replaceCalls_loop in Hrep; [|by rewrite HM..].
  rewrite (nr_allocs _ _ _ Hrep), Ha1 in H.
  destruct (for_each handleAllocs_body _ w2) as [[] w3|f w3] eqn:Hal;
    [|done].
  apply handleAllocs_loop in Hal.
  - injection H as Hres Hw'. subst w3. exists w1, w2, ls.
    split; [done|]. split; [done|]. split; [done|]. split; [done|].
    rewrite <- Hres.
    by rewrite (ar_calls _ _ _ Hal), (ar_allocs _ _ _ Hal),
      (nr_calls _ _ _ Hrep), (nr_allocs _ _ _ Hrep), Hc1, Ha1.
  - exact (nr_bounded _ _ _ Hrep).
  - rewrite (nr_fresh _ _ _ Hrep), HM.
    eapply Forall_impl; [exact Hold2|]. simpl. intros. lia.
Qed.

(** A finished run, as the collection followed by the two loops. *)
Lemma run_phases m b w' :
  bounded m →
  runOnModule env (initial m) = Done b w' →
  ∃ w1 w2,
    M w1 = m ∧ _vms w1 = None ∧ _size_t_Ty w1 = None ∧
    call_identifier w1 = 0%N ∧ handleAlloc_call_identifier w1 = 0%N ∧
    lines w' = lines w1 ∧
    (lines w1 = ∅ ∨
     ∃ file, source_file env = Some file ∧
             lines w1 = lines_read file 1
                          (list_to_set (site_lines (sites m))) ∅) ∧
    nondet_run (nondet_worklist (sites m)) w1 w2 ∧
    alloc_run (alloc_worklist (sites m)) w2 w'.
Proof.
  intros Hb H.
  destruct (runOnModule_Done m b w' Hb H)
    as (w1 & w2 & ls & Hmap & Hw1 & Hrep & Hal & _).
  exists w1, w2.
  destruct (collected_rest (sites m) (initial m))
    as (Hl & Hv & Hs & Hc & Hh & He).
  fold (collected m) in Hl, Hv, Hs, Hc, Hh, He. simpl in *.
  pose proof (M_foldl_record_site (sites m) (initial m)) as HM.
  fold (collected m) in HM. simpl in HM.
  pose proof (collected_lines_nums (sites m) (initial m)) as Hn.
  fold (collected m) in Hn. simpl in Hn. rewrite union_empty_r_L in Hn.
  split; [by rewrite Hw1|]. split; [by rewrite Hw1|].
  split; [by rewrite Hw1|]. split; [by rewrite Hw1|].
  split; [by rewrite Hw1|].
  split; [by rewrite (ar_lines _ _ _ Hal), (nr_lines _ _ _ Hrep)|].
  split; [|done].
  destruct (mapLines_Done _ _ Hmap) as (ls' & Hw1' & Hcases).
  assert (lines w1 = ls') as -> by (by rewrite Hw1').
  destruct Hcases as [(_ & ->)|(file & _ & Hfile & ->)].
  - left. done.
  - right. exists file. split; [done|]. by rewrite Hn, Hl.
Qed.

End WithEnvironment.

End PassFacts.

(** * The claims *)

Module Claims.
Import IR Pass Summary IRFacts RunFacts LoopFacts PassFacts Examples.

#[local] Arguments Nat.mul : simpl never.
#[local] Arguments Nat.eqb : simpl never.

(** ** Names *)

(** The variable segment of a derived name, as the specification words
    it: empty when the line is not indexed, the tracked token when the
    assignment pattern is recognized, the placeholder otherwise. *)
Definition variable_segment (ls : gmap N string) (line : N) : string :=
  match ls !! line with
  | None => ""
  | Some text => default "--" (Text.recognized text)
  end.

Lemma var_for_variable_segment ls line :
  var_for ls line = variable_segment ls line.
Proof.
  unfold var_for, variable_segment. destruct (ls !! line); [|done].
  apply TextFacts.getName_refines.
Qed.

Lemma bounded_by_decide m :
  bool_decide (Forall (λ i, iid i < fresh m) (insts m)) = true → bounded m.
Proof. intros H. by apply bool_decide_eq_true in H. Qed.

(** C7. The extractor tokenizes the line on white space, tracks the token
    before the first [=] token and answers with it exactly when that token
    is not empty and the token after the [=] begins with
    [__VERIFIER_nondet_]; otherwise it answers ["--"].  The line
    [int x = __VERIFIER_nondet_int();] at line 10 of [foo] gives the
    derived name ["foo:x:10"]. *)
Theorem C7_getName_extracts_assigned_variable :
  (∀ line, Text.getName line = Text.getName_spec line) ∧
  (∀ line var, Text.recognized line = Some var →
     Text.getName line = var ∧ var ≠ "") ∧
  (∀ line, Text.recognized line = None → Text.getName line = "--") ∧
  ∃ w', runOnModule (reading "int x = __VERIFIER_nondet_int();")
          (initial foo_unit) = Done true w' ∧
        global_strings (M w') = [ConstantDataArray_String "foo:x:10"].
Proof.
  split; [exact TextFacts.getName_refines|]. split; [|split].
  - exact TextFacts.recognized_Some.
  - exact TextFacts.recognized_None.
  - eexists. split; [vm_compute; reflexivity|]. vm_compute. reflexivity.
Qed.

(** C8, as stated, fails: at line 10 of [foo] the text
    [foo(__VERIFIER_nondet_int());] holds no assignment pattern, and the
    derived name is ["foo:--:10"], not ["foo::10"]. *)
Lemma C8_counterexample :
  Text.recognized "foo(__VERIFIER_nondet_int());" = None ∧
  ∃ w', runOnModule (reading "foo(__VERIFIER_nondet_int());")
          (initial foo_unit) = Done true w' ∧
        lines w' !! 10%N = Some "foo(__VERIFIER_nondet_int());" ∧
        global_strings (M w') = [ConstantDataArray_String "foo:--:10"] ∧
        global_strings (M w') ≠ [ConstantDataArray_String "foo::10"].
Proof.
  split; [vm_compute; reflexivity|].
  eexists. split; [vm_compute; reflexivity|].
  split; [vm_compute; reflexivity|].
  split; [vm_compute; reflexivity|]. vm_compute. discriminate.
Qed.

(** C8, amended.  For every NondetReplace site of a finished run, the
    global that names it holds [F:V:L] with [F] the enclosing function, [L]
    the recorded line and [V] the variable segment: [V] is the placeholder
    ["--"] when the line is indexed and holds no assignment pattern, and
    it is empty exactly when the line has no entry in the index. *)
Theorem C8_variable_segment env m b w' :
  bounded m →
  runOnModule env (initial m) = Done b w' →
  ∀ k line c, nondet_worklist (sites m) !! k = Some (line, c) →
    ∃ F,
      parent_function m c = Some F ∧
      globals (M w') !! (k + length (globals m))
      = Some (name_global
                (derived_name (fname F)
                   (variable_segment (lines w') line) line)) ∧
      (∀ text, lines w' !! line = Some text →
         Text.recognized text = None →
         variable_segment (lines w') line = "--") ∧
      (variable_segment (lines w') line = "" ↔ lines w' !! line = None).
Proof.
  intros Hb H k line c Hk.
  destruct (run_phases env m b w' Hb H)
    as (w1 & w2 & HM & _ & _ & _ & _ & Hlines & _ & Hrep & Hal).
  destruct (nr_new _ _ _ Hrep k line c Hk) as (F & call & HF & _ & Hg & _).
  rewrite HM in HF, Hg. exists F. split; [done|]. split; [|split].
  - rewrite (ar_globals_old _ _ _ Hal).
    + rewrite Hg, Hlines. by rewrite var_for_variable_segment.
    + rewrite (nr_globals_length _ _ _ Hrep), HM.
      apply lookup_lt_Some in Hk. lia.
  - intros text Htext Hrec. unfold variable_segment.
    by rewrite Htext, Hrec.
  - unfold variable_segment. destruct (lines w' !! line) as [text|]; [|done].
    split; [|done]. intros Hv.
    destruct (Text.recognized text) as [var|] eqn:Hrec; [|done].
    simpl in Hv. subst var.
    by destruct (TextFacts.recognized_Some _ _ Hrec).
Qed.

Lemma C8_variable_segment_witness :
  bounded foo_unit ∧
  ∃ F,
    parent_function foo_unit 0 = Some F ∧
    globals (M (final (reading "foo(__VERIFIER_nondet_int());") foo_unit))
      !! (0 + length (globals foo_unit))
    = Some (name_global
              (derived_name (fname F)
                 (variable_segment
                    (lines (final (reading "foo(__VERIFIER_nondet_int());")
                              foo_unit)) 10) 10)) ∧
    (∀ text,
       lines (final (reading "foo(__VERIFIER_nondet_int());") foo_unit)
         !! 10%N = Some text →
       Text.recognized text = None →
       variable_segment
         (lines (final (reading "foo(__VERIFIER_nondet_int());") foo_unit))
         10 = "--") ∧
    (variable_segment
       (lines (final (reading "foo(__VERIFIER_nondet_int());") foo_unit))
       10 = "" ↔
     lines (final (reading "foo(__VERIFIER_nondet_int());") foo_unit)
       !! 10%N = None).
Proof.
  assert (bounded foo_unit) as Hb.
  { apply bounded_by_decide. vm_compute. reflexivity. }
  split; [exact Hb|].
  apply (C8_variable_segment (reading "foo(__VERIFIER_nondet_int());")
           foo_unit true
           (final (reading "foo(__VERIFIER_nondet_int());") foo_unit)
           Hb).
  - vm_compute. reflexivity.
  - vm_compute. reflexivity.
Defined.

(** ** The unreadable source file *)

(** C5, as stated, fails: the source path cannot be opened, no collected
    site carries a line, and the pass rewrites the unit all the same. *)
Lemma C5_counterexample :
  source_file unreadable = None ∧
  ∃ w', runOnModule unreadable (initial malloc_unit) = Done true w' ∧
        errs w' = "" ∧
        length (insts (M w')) = 2 + length (insts malloc_unit).
Proof.
  split; [reflexivity|].
  eexists. split; [vm_compute; reflexivity|].
  split; vm_compute; reflexivity.
Qed.

Lemma lines_collected m :
  site_lines (sites m) ≠ [] →
  bool_decide (lines_nums (collected m) = ∅) = false.
Proof.
  intros Hne. apply bool_decide_eq_false. unfold collected.
  rewrite collected_lines_nums.
  destruct (site_lines (sites m)) as [|line ls]; [done|].
  simpl. set_solver.
Qed.

(** C5, amended.  If the source path cannot be opened and at least one
    collected call site carries a debug line, the run stops in [abort()]
    after writing a diagnostic that names the path, and the program unit
    is the one the pass was given. *)
Theorem C5_unreadable_source env m :
  source_file env = None →
  site_lines (sites m) ≠ [] →
  ∃ w', runOnModule env (initial m) = Stop Abort w' ∧
        M w' = m ∧
        errs w' = "Couldn't open file: " +:+ source_name env +:+ newline.
Proof.
  intros Hfile Hlines. rewrite runOnModule_phases.
  unfold after_phases, mapLines_outcome.
  rewrite (lines_collected m Hlines), Hfile.
  eexists. split; [done|]. simpl.
  destruct (collected_rest (sites m) (initial m))
    as (_ & _ & _ & _ & _ & He).
  fold (collected m) in He. rewrite He.
  split; [|done]. unfold collected. by rewrite M_foldl_record_site.
Qed.

Lemma C5_unreadable_source_witness :
  source_file unreadable = None ∧
  site_lines (sites foo_unit) ≠ [] ∧
  ∃ w', runOnModule unreadable (initial foo_unit) = Stop Abort w' ∧
        M w' = foo_unit ∧
        errs w' = "Couldn't open file: " +:+ source_name unreadable
                  +:+ newline.
Proof.
  split; [reflexivity|]. split; [vm_compute; discriminate|].
  apply (C5_unreadable_source unreadable foo_unit).
  - reflexivity.
  - vm_compute. discriminate.
Defined.

(** ** Sites without a debug line *)

(** C6 at its failing input: no collected site carries a line and the
    pass, compiled with its assertions, stops at
    [assert(calls_to_replace.empty())] with the unit untouched; compiled
    with [NDEBUG] it rewrites the site and names it ["foo::0"]. *)
Theorem C6_no_line_information_stops_at_the_assertion :
  site_lines (sites nodebug_unit) = [] ∧
  (∃ w', runOnModule unreadable (initial nodebug_unit)
         = Stop (AssertionFailure "calls_to_replace.empty()") w' ∧
         M w' = nodebug_unit) ∧
  (∃ w', runOnModule unreadable_release (initial nodebug_unit)
         = Done true w' ∧
         lookup_inst (M w') 0 = None ∧
         global_strings (M w') = [ConstantDataArray_String "foo::0"]).
Proof.
  split; [vm_compute; reflexivity|]. split.
  - eexists. split; vm_compute; reflexivity.
  - eexists. split; [vm_compute; reflexivity|].
    split; vm_compute; reflexivity.
Qed.

(** ** The registered byte count *)

(** C2 at its failing input: [calloc_array] begins with [calloc] and is
    collected, but [handleAlloc] multiplies only for the name [calloc]
    itself, so the registration receives the first argument alone and no
    multiply is inserted; for [calloc] the product is registered. *)
Theorem C2_calloc_prefix_registers_first_argument :
  startswith "calloc" "calloc_array" = true ∧
  (∃ w', runOnModule unreadable (initial calloc_array_unit) = Done true w' ∧
         iop <$> lookup_inst (M w') 3
         = Some (Call (FunctionRef "klee_make_nondet")
                   [Inst 2; Argument Int64Ty 0;
                    ConstantPointerCast (GlobalRef 0) Int8PtrTy;
                    ConstantInt Int32Ty 1]) ∧
         List.filter is_Mul (insts (M w')) = []) ∧
  (∃ w', runOnModule unreadable (initial calloc_unit) = Done true w' ∧
         iop <$> lookup_inst (M w') 3
         = Some (Mul (Argument Int64Ty 0) (ConstantInt Int64Ty 8)) ∧
         iop <$> lookup_inst (M w') 4
         = Some (Call (FunctionRef "klee_make_nondet")
                   [Inst 2; Inst 3;
                    ConstantPointerCast (GlobalRef 0) Int8PtrTy;
                    ConstantInt Int32Ty 1])).
Proof.
  split; [reflexivity|]. split.
  - eexists. split; [vm_compute; reflexivity|].
    split; vm_compute; reflexivity.
  - eexists. split; [vm_compute; reflexivity|].
    split; vm_compute; reflexivity.
Qed.

(** ** Identifiers *)

Lemma iter_unsigned_succ (k : nat) :
  (N.of_nat k < UINT_MODULUS)%N →
  Nat.iter k unsigned_succ 0%N = N.of_nat k.
Proof.
  induction k as [|k IH]; intros Hk; [done|].
  simpl. rewrite IH by lia. unfold unsigned_succ.
  rewrite N.mod_small by lia. lia.
Qed.

Lemma identifier_constant_small (k : nat) :
  (N.of_nat k < UINT_MODULUS)%N →
  ConstantInt_get Int32Ty (Nat.iter k unsigned_succ 0%N)
  = ConstantInt Int32Ty (N.of_nat k).
Proof.
  intros Hk. rewrite iter_unsigned_succ by done.
  unfold ConstantInt_get, Int32Ty. f_equal.
  apply N.mod_small. exact Hk.
Qed.

(** C3. In a finished run over [N] NondetReplace sites (fewer than
    [2^32]), the registration call created by the [k]-th rewrite, counted
    from 0 in the order of the work list, is the third instruction that
    rewrite creates; its identifier argument is the constant [k + 1], and
    the counter ends at [N]. *)
Theorem C3_identifiers_count_from_one env m b w' :
  bounded m →
  runOnModule env (initial m) = Done b w' →
  (N.of_nat (length (nondet_worklist (sites m))) < UINT_MODULUS)%N →
  call_identifier w' = N.of_nat (length (nondet_worklist (sites m))) ∧
  ∀ k line c, nondet_worklist (sites m) !! k = Some (line, c) →
    ∃ reg nbytes,
      lookup_inst (M w') (2 + (4 * k + fresh m)) = Some reg ∧
      lookup_inst m (2 + (4 * k + fresh m)) = None ∧
      iop reg
      = Call (FunctionRef "klee_make_nondet")
          [Inst (1 + (4 * k + fresh m)); nbytes;
           ConstantPointerCast (GlobalRef (k + length (globals m)))
             Int8PtrTy;
           ConstantInt Int32Ty (N.of_nat (S k))].
Proof.
  intros Hb H HN.
  destruct (run_phases env m b w' Hb H)
    as (w1 & w2 & HM & Hvms & _ & Hid & _ & _ & _ & Hrep & Hal).
  split.
  - rewrite (ar_identifier _ _ _ Hal), (nr_identifier _ _ _ Hrep), Hid.
    by apply iter_unsigned_succ.
  - intros k line c Hk.
    destruct (nr_new _ _ _ Hrep k line c Hk)
      as (F & call & _ & _ & _ & Hnew).
    specialize (Hnew 2 ltac:(lia)).
    rewrite HM, Hid in Hnew. unfold vms_of in Hnew. rewrite Hvms in Hnew.
    simpl in Hnew.
    pose proof (lookup_lt_Some _ _ _ Hk) as Hlt.
    eexists _, _. split; [|split].
    + rewrite (ar_kept _ _ _ Hal); [exact Hnew|].
      rewrite (nr_fresh _ _ _ Hrep), HM. lia.
    + apply find_inst_None. unfold bounded in Hb.
      eapply Forall_impl; [exact Hb|]. simpl. intros. lia.
    + simpl. do 5 f_equal.
      change (unsigned_succ (Nat.iter k unsigned_succ 0%N))
        with (Nat.iter (S k) unsigned_succ 0%N).
      rewrite iter_unsigned_succ by lia.
      f_equal. apply N.mod_small. unfold UINT_MODULUS in HN. lia.
Qed.

End Claims.

(** * Further properties of the code *)

Module LibcFacts.
Import Libc.

#[local] Open Scope Z_scope.

Section Width.

Variable bits : Z.
Hypothesis bits_positive : 1 ≤ bits.

Lemma half_range_positive : 0 < 2 ^ (bits - 1).
Proof. apply Z.pow_pos_nonneg; lia. Qed.

Lemma in_range_spec x :
  in_range bits x = true ↔ TYPE_MIN bits ≤ x ≤ TYPE_MAX bits.
Proof. unfold in_range. rewrite andb_true_iff, !Z.leb_le. done. Qed.

(** Away from the minimum the three functions return the magnitude of
    their argument, which fits the type, and report nothing. *)
Theorem absolute_returns_magnitude x :
  in_range bits x = true → x ≠ TYPE_MIN bits →
  absolute bits x = {| overflow_errors := 0; returned := Some (Z.abs x) |} ∧
  0 ≤ Z.abs x ≤ TYPE_MAX bits.
Proof.
  intros Hx Hmin. apply in_range_spec in Hx.
  pose proof half_range_positive as Hp.
  unfold absolute, negate, TYPE_MIN, TYPE_MAX in *.
  rewrite (proj2 (Z.eqb_neq _ _) Hmin). rewrite Z.geb_leb.
  destruct (Z.leb_spec 0 x) as [Hpos|Hneg].
  - rewrite Z.abs_eq by done. split; [done | lia].
  - assert (in_range bits (- x) = true) as ->.
    { apply in_range_spec. unfold TYPE_MIN, TYPE_MAX. lia. }
    rewrite Z.abs_neq by lia. split; [done | lia].
Qed.


(** The functions are even and idempotent on the arguments they accept. *)
Theorem absolute_even_and_idempotent x :
  in_range bits x = true → x ≠ TYPE_MIN bits →
  absolute bits (- x) = absolute bits x ∧
  absolute bits (Z.abs x) = absolute bits x.
Proof.
  intros Hx Hmin. pose proof half_range_positive as Hp.
  destruct (absolute_returns_magnitude x Hx Hmin) as [-> Habs].
  pose proof Hx as Hx'. apply in_range_spec in Hx'.
  unfold TYPE_MIN, TYPE_MAX in *.
  split.
  - destruct (absolute_returns_magnitude (- x)) as [-> _].
    + apply in_range_spec. unfold TYPE_MIN, TYPE_MAX. lia.
    + unfold TYPE_MIN. lia.
    + by rewrite Z.abs_opp.
  - destruct (absolute_returns_magnitude (Z.abs x)) as [-> _].
    + apply in_range_spec. unfold TYPE_MIN, TYPE_MAX. lia.
    + unfold TYPE_MIN. lia.
    + by rewrite Z.abs_idemp.
Qed.

End Width.

Lemma absolute_returns_magnitude_witness :
  abs (-7) = {| overflow_errors := 0; returned := Some 7 |} ∧ 0 ≤ 7 ≤ 2147483647.
Proof.
  apply (absolute_returns_magnitude 32 ltac:(lia) (-7));
    [reflexivity | vm_compute; discriminate].
Defined.


Lemma absolute_even_and_idempotent_witness :
  labs (- (-7)) = labs (-7) ∧ labs (Z.abs (-7)) = labs (-7).
Proof.
  apply (absolute_even_and_idempotent 64 ltac:(lia) (-7));
    [reflexivity | vm_compute; discriminate].
Defined.

End LibcFacts.

Module PassExtras.
Import IR Pass Summary IRFacts RunFacts LoopFacts PassFacts Examples.

#[local] Arguments Nat.mul : simpl never.
#[local] Arguments Nat.eqb : simpl never.

(** ** Types *)

Lemma type_eqb_eq : ∀ a b, type_eqb a b = true → a = b.
Proof.
  fix IH 1. intros a b. destruct a, b; simpl; try done.
  - intros ->%N.eqb_eq. done.
  - intros ->%IH. done.
  - intros [->%N.eqb_eq ->%IH]%andb_true_iff. done.
  - intros [[->%IH Hps]%andb_true_iff ->%Bool.eqb_prop]%andb_true_iff.
    f_equal. revert params0 Hps.
    induction params as [|x ps IHps]; intros [|y ps'] Hps; try done.
    apply andb_true_iff in Hps as [->%IH Hps]. f_equal. by apply IHps.
  - intros ->%String.eqb_eq. done.
Qed.

Lemma type_eqb_refl : ∀ a, type_eqb a a = true.
Proof.
  fix IH 1. intros a. destruct a; simpl.
  - done.
  - apply N.eqb_refl.
  - apply IH.
  - by rewrite N.eqb_refl, IH.
  - rewrite IH, Bool.eqb_reflx, andb_true_r. simpl.
    induction params as [|x ps IHps]; [done|]. by rewrite IH, IHps.
  - apply String.eqb_refl.
Qed.

(** ** The resolvers *)

(** [get_size_t] chooses once: from an empty cache it answers with the
    64-bit integer type when pointers are wider than 32 bits and with the
    32-bit one otherwise, and from then on every request gets the same
    answer without a change, whatever unit it is made on. *)
Theorem get_size_t_chooses_once w ty w1 :
  get_size_t w = Done ty w1 →
  (_size_t_Ty w = None →
     ty = if (32 <? pointer_size_bits (M w))%N then Int64Ty else Int32Ty) ∧
  M w1 = M w ∧
  ∀ m', get_size_t (with_M m' w1) = Done ty (with_M m' w1).
Proof.
  rewrite get_size_t_run. intros H. injection H as <- <-.
  split; [|split].
  - unfold size_t_of. by intros ->.
  - done.
  - intros m'. unfold get_size_t, bind, get. simpl. done.
Qed.

Lemma get_size_t_chooses_once_witness :
  Int64Ty = (if (32 <? pointer_size_bits (M (initial foo_unit)))%N
             then Int64Ty else Int32Ty) ∧
  M (with_size_t_Ty (Some Int64Ty) (initial foo_unit))
  = M (initial foo_unit) ∧
  ∀ m', get_size_t (with_M m' (with_size_t_Ty (Some Int64Ty)
                                 (initial foo_unit)))
        = Done Int64Ty (with_M m' (with_size_t_Ty (Some Int64Ty)
                                     (initial foo_unit))).
Proof.
  destruct (get_size_t_chooses_once (initial foo_unit) Int64Ty
              (with_size_t_Ty (Some Int64Ty) (initial foo_unit)))
    as (Hchoice & Hunit & Hcached).
  - reflexivity.
  - split; [apply Hchoice; reflexivity|]. split; [exact Hunit|].
    exact Hcached.
Defined.

Lemma find_function_app name (fs gs : list function) :
  find_function name (fs ++ gs)
  = match find_function name fs with
    | Some F => Some F
    | None => find_function name gs
    end.
Proof.
  unfold find_function. induction fs as [|F fs IH]; [done|].
  simpl. by destruct (String.eqb (fname F) name).
Qed.

(** From an empty cache [get_verifier_make_nondet] either leaves the unit
    with a function [klee_make_nondet] of the type
    [void (i8*, size_t, i8*, i32)], appended as a declaration when the name
    was free and found as it is otherwise, and caches it, without touching
    an instruction or a global; or it stops in the checked cast, exactly
    when the name is taken by a function of another type or by a global
    variable. *)
Theorem get_verifier_make_nondet_declares w :
  _vms w = None →
  match get_verifier_make_nondet w with
  | Done F w' =>
      F = "klee_make_nondet" ∧ _vms w' = Some F ∧
      ¬ name_taken (M w) (klee_make_nondet_type (size_t_of w)) ∧
      insts (M w') = insts (M w) ∧ globals (M w') = globals (M w) ∧
      (∃ G, lookup_function (M w') F = Some G ∧
            ftype G = klee_make_nondet_type (size_t_of w)) ∧
      functions (M w')
      = match lookup_function (M w) F with
        | Some _ => functions (M w)
        | None =>
            functions (M w)
            ++ [declaration F (klee_make_nondet_type (size_t_of w))]
        end
  | Stop f w' =>
      f = Undefined "cast<Function> of a constant expression" ∧
      M w' = M w ∧
      name_taken (M w) (klee_make_nondet_type (size_t_of w))
  end.
Proof.
  intros Hvms. unfold get_verifier_make_nondet.
  unfold bind at 1. unfold get at 1. rewrite Hvms.
  unfold bind at 1. rewrite get_size_t_run.
  unfold bind at 1. unfold getOrInsertFunction_cast.
  unfold bind at 1. unfold get at 1. cbn [M with_size_t_Ty].
  unfold name_taken.
  destruct (lookup_function (M w) "klee_make_nondet") as [G|] eqn:Hlook.
  - destruct (type_eqb (ftype G) _) eqn:Hty.
    + unfold ret, bind, modify. norm.
      apply type_eqb_eq in Hty. rewrite Hlook.
      split; [done|]. split; [done|]. split.
      { intros [(G' & HG' & Hne)|(Hnone & _)]; [|done].
        injection HG' as <-. done. }
      eauto 10.
    + unfold fail. simpl. split; [done|]. split; [done|]. left.
      exists G. split; [done|]. intros Heq. rewrite Heq in Hty.
      by rewrite type_eqb_refl in Hty.
  - destruct (existsb _ (globals (M w))) eqn:Hglob.
    + unfold fail. simpl. split; [done|]. split; [done|]. by right.
    + unfold ret, bind, modify. norm.
      split; [done|]. split; [done|]. split.
      { intros [(G' & HG' & _)|(_ & Hex)]; [done|].
        by rewrite Hex in Hglob. }
      split.
      { unfold insts. simpl. by rewrite flat_map_app, app_nil_r. }
      split; [done|].
      split; [|by rewrite Hlook].
      eexists. split.
      { unfold lookup_function in *. simpl.
        rewrite find_function_app, Hlook. reflexivity. }
      reflexivity.
Qed.

Lemma get_verifier_make_nondet_declares_witness :
  match get_verifier_make_nondet (initial foo_unit) with
  | Done F w' =>
      F = "klee_make_nondet" ∧ _vms w' = Some F ∧
      ¬ name_taken (M (initial foo_unit))
          (klee_make_nondet_type (size_t_of (initial foo_unit))) ∧
      insts (M w') = insts (M (initial foo_unit)) ∧
      globals (M w') = globals (M (initial foo_unit)) ∧
      (∃ G, lookup_function (M w') F = Some G ∧
            ftype G = klee_make_nondet_type (size_t_of (initial foo_unit))) ∧
      functions (M w')
      = match lookup_function (M (initial foo_unit)) F with
        | Some _ => functions (M (initial foo_unit))
        | None =>
            functions (M (initial foo_unit))
            ++ [declaration F
                  (klee_make_nondet_type (size_t_of (initial foo_unit)))]
        end
  | Stop f w' =>
      f = Undefined "cast<Function> of a constant expression" ∧
      M w' = M (initial foo_unit) ∧
      name_taken (M (initial foo_unit))
        (klee_make_nondet_type (size_t_of (initial foo_unit)))
  end.
Proof.
  apply (get_verifier_make_nondet_declares (initial foo_unit)). reflexivity.
Defined.

(** ** Collection *)








(** [runOnFunction] only reads the unit: it never stops, always answers
    [false], leaves the unit, the line index, the counters and the cached
    resolvers alone, and changes nothing at all for a function with a body
    or with a name it does not recognize. *)
Theorem runOnFunction_only_reads F w :
  ∃ w',
    runOnFunction F w = Done false w' ∧
    M w' = M w ∧ lines w' = lines w ∧ _vms w' = _vms w ∧
    _size_t_Ty w' = _size_t_Ty w ∧
    call_identifier w' = call_identifier w ∧
    handleAlloc_call_identifier w' = handleAlloc_call_identifier w ∧
    errs w' = errs w ∧
    (isDeclaration F = false ∨ recognized_name (fname F) = false → w' = w).
Proof.
  eexists. split; [apply runOnFunction_run|].
  destruct (collected_rest (sites_of (M w) F) w)
    as (Hl & Hv & Hs & Hc & Hh & He).
  rewrite M_foldl_record_site.
  repeat (split; [done|]).
  intros Hskip. unfold sites_of, recognized_name in *.
  destruct (isDeclaration F); simpl.
  - destruct Hskip as [|Hrec]; [done|].
    destruct (startswith "__VERIFIER_nondet_" _),
      (startswith "malloc" _), (startswith "calloc" _); done.
  - done.
Qed.

Lemma worklists_partition (ss : list (bool * instruction)) :
  length (nondet_worklist ss) + length (alloc_worklist ss) = length ss.
Proof.
  induction ss as [|[[] CI] ss IH]; simpl; [done|..];
    unfold nondet_worklist, alloc_worklist in *; simpl in *; lia.
Qed.

(** A finished run answers [true] exactly when it collected a site. *)
Theorem runOnModule_answers_whether_a_site_was_found env m b w' :
  bounded m →
  runOnModule env (initial m) = Done b w' →
  (b = true ↔ sites m ≠ []) ∧
  length (calls_to_replace w') + length (allocs_to_handle w')
  = length (sites m).
Proof.
  intros Hb H.
  destruct (runOnModule_Done env m b w' Hb H)
    as (w1 & w2 & ls & _ & Hw1 & Hrep & Hal & ->).
  pose proof (worklists_partition (sites m)) as Hlen.
  pose proof (collected_calls (sites m) (initial m)) as Hcalls.
  pose proof (collected_allocs (sites m) (initial m)) as Hallocs.
  fold (collected m) in Hcalls, Hallocs. simpl in Hcalls, Hallocs.
  split.
  - destruct (nondet_worklist (sites m)), (alloc_worklist (sites m)),
      (sites m); simpl in *; try lia; split; done.
  - rewrite (ar_calls _ _ _ Hal), (ar_allocs _ _ _ Hal),
      (nr_calls _ _ _ Hrep), (nr_allocs _ _ _ Hrep), Hw1. simpl.
    rewrite Hcalls, Hallocs. exact Hlen.
Qed.

Lemma runOnModule_answers_whether_a_site_was_found_witness :
  (true = true ↔ sites foo_unit ≠ []) ∧
  length (calls_to_replace
            (final (reading "int x = __VERIFIER_nondet_int();") foo_unit))
  + length (allocs_to_handle
              (final (reading "int x = __VERIFIER_nondet_int();") foo_unit))
  = length (sites foo_unit).
Proof.
  apply (runOnModule_answers_whether_a_site_was_found
           (reading "int x = __VERIFIER_nondet_int();") foo_unit true).
  - apply Claims.bounded_by_decide. vm_compute. reflexivity.
  - vm_compute. reflexivity.
Defined.

(** ** Reading the source file *)

Lemma lines_read_lookup file n nums ls k :
  (n + N.of_nat (length file) ≤ UINT_MODULUS)%N →
  lines_read file n nums ls !! k
  = if bool_decide (k ∈ nums ∧ (n ≤ k < n + N.of_nat (length file))%N)
    then file !! N.to_nat (k - n)
    else ls !! k.
Proof.
  revert n ls. induction file as [|line file IH]; intros n ls Hlen.
  - simpl. rewrite bool_decide_eq_false_2; [done|]. simpl. lia.
  - simpl lines_read. simpl length in *.
    destruct file as [|line' file'].
    + simpl. destruct (decide (k = n)) as [->|Hne].
      * destruct (bool_decide_reflect (n ∈ nums)) as [Hin|Hnin].
        -- rewrite bool_decide_eq_true_2 by (split; [done | lia]).
           rewrite lookup_insert_eq. by rewrite N.sub_diag.
        -- rewrite bool_decide_eq_false_2; [done|]. by intros [? _].
      * rewrite (bool_decide_eq_false_2 (_ ∧ _)) by lia.
        destruct (bool_decide (n ∈ nums)); [|done].
        by rewrite lookup_insert_ne.
    + assert (unsigned_succ n = (n + 1)%N) as ->.
      { unfold unsigned_succ. apply N.mod_small.
        simpl length in Hlen. lia. }
      rewrite IH by lia.
      destruct (decide (k = n)) as [->|Hne].
      * rewrite (bool_decide_eq_false_2 (_ ∧ (n + 1 ≤ _ < _)%N)) by lia.
        destruct (bool_decide_reflect (n ∈ nums)) as [Hin|Hnin].
        -- rewrite bool_decide_eq_true_2 by (split; [done | lia]).
           rewrite lookup_insert_eq. by rewrite N.sub_diag.
        -- rewrite bool_decide_eq_false_2; [done|]. by intros [? _].
      * assert (ls' : (if bool_decide (n ∈ nums)
                       then <[n:=line]> ls else ls) !! k = ls !! k).
        { destruct (bool_decide (n ∈ nums)); [|done].
          by rewrite lookup_insert_ne. }
        rewrite ls'.
        destruct (bool_decide_reflect
                    (k ∈ nums ∧ (n + 1 ≤ k
                                 < n + 1 + N.of_nat (length (line' :: file')))%N))
          as [[Hin Hk]|Hout].
        -- rewrite bool_decide_eq_true_2 by (split; [done | lia]).
           replace (N.to_nat (k - n)) with (S (N.to_nat (k - (n + 1))))
             by lia.
           done.
        -- rewrite bool_decide_eq_false_2; [done|].
           intros [Hin Hk]. apply Hout. split; [done | lia].
Qed.

Lemma inhabited_by_decide (X : gset N) k :
  bool_decide (k ∈ X) = true → X ≠ ∅.
Proof. intros Hin%bool_decide_eq_true ->. set_solver. Qed.


(** Reading numbers the lines of the file from one: when [mapLines]
    finishes on a file it could open, the line index holds, at every
    recorded line number that lies in the file, the text of that line, and
    is unchanged everywhere else. The file has fewer than [2^32] lines. *)
Theorem mapLines_indexes_lines_from_one env file w w1 :
  source_file env = Some file →
  lines_nums w ≠ ∅ →
  (N.of_nat (length file) < UINT_MODULUS)%N →
  mapLines env w = Done tt w1 →
  w1 = with_lines (lines w1) w ∧
  ∀ k, lines w1 !! k
       = if bool_decide (k ∈ lines_nums w
                         ∧ (1 ≤ k ≤ N.of_nat (length file))%N)
         then file !! N.to_nat (k - 1)
         else lines w !! k.
Proof.
  intros Hfile Hnums Hlen H. rewrite mapLines_run in H.
  apply mapLines_Done in H as (ls & -> & [[Hempty _]|(f & _ & Hf & ->)]).
  { by apply bool_decide_eq_true in Hempty. }
  rewrite Hfile in Hf. injection Hf as <-.
  split; [done|]. intros k. simpl.
  rewrite lines_read_lookup by lia.
  destruct (bool_decide_reflect
              (k ∈ lines_nums w ∧ (1 ≤ k < 1 + N.of_nat (length file))%N))
    as [[Hin Hk]|Hout].
  - by rewrite bool_decide_eq_true_2 by (split; [done | lia]).
  - rewrite bool_decide_eq_false_2; [done|].
    intros [Hin Hk]. apply Hout. split; [done | lia].
Qed.

Lemma mapLines_indexes_lines_from_one_witness :
  let env := reading "int x = __VERIFIER_nondet_int();" in
  let w := collected foo_unit in
  let w1 := with_lines {[10%N := "int x = __VERIFIER_nondet_int();"]} w in
  w1 = with_lines (lines w1) w ∧
  ∀ k, lines w1 !! k
       = if bool_decide (k ∈ lines_nums w ∧ (1 ≤ k ≤ 10)%N)
         then source_with_line_10 "int x = __VERIFIER_nondet_int();"
              !! N.to_nat (k - 1)
         else lines w !! k.
Proof.
  apply (mapLines_indexes_lines_from_one
           (reading "int x = __VERIFIER_nondet_int();")
           (source_with_line_10 "int x = __VERIFIER_nondet_int();")
           (collected foo_unit)).
  - reflexivity.
  - apply (inhabited_by_decide _ 10%N). vm_compute. reflexivity.
  - vm_compute. reflexivity.
  - vm_compute. reflexivity.
Defined.

Lemma lines_read_dom file nums k :
  (N.of_nat (length file) < UINT_MODULUS)%N →
  k ∈ dom (lines_read file 1 nums ∅) ↔
  k ∈ nums ∧ (1 ≤ k ≤ N.of_nat (length file))%N.
Proof.
  intros Hlen. rewrite elem_of_dom, lines_read_lookup by lia.
  destruct (bool_decide_reflect
              (k ∈ nums ∧ (1 ≤ k < 1 + N.of_nat (length file))%N))
    as [[Hin Hk]|Hout].
  - rewrite lookup_lt_is_Some. split; [intros _; split; [done | lia]|].
    intros _. lia.
  - rewrite lookup_empty. split; [by intros [? ?]|].
    intros [Hin Hk]. exfalso. apply Hout. split; [done | lia].
Qed.



(** ** The whole pass *)

(** A unit in which no call mentions a recognized declaration is left
    exactly as it was, the answer is [false], and the source file is not
    even opened: the outcome is the same whether it can be read or not,
    and with or without assertions. *)
Theorem runOnModule_without_sites_changes_nothing env m :
  sites m = [] →
  runOnModule env (initial m) = Done false (initial m).
Proof.
  intros Hs. rewrite runOnModule_phases. unfold collected. rewrite Hs.
  unfold after_phases, mapLines_outcome. simpl.
  rewrite bool_decide_eq_true_2 by done.
  by destruct (NDEBUG env).
Qed.

Lemma runOnModule_without_sites_changes_nothing_witness :
  runOnModule unreadable (initial plain_unit)
  = Done false (initial plain_unit).
Proof.
  apply (runOnModule_without_sites_changes_nothing unreadable plain_unit).
  vm_compute. reflexivity.
Defined.

Lemma alloc_sites_survive_replaceCalls calls allocs w1 w2 w' :
  nondet_run calls w1 w2 → alloc_run allocs w2 w' →
  ∀ c, c ∈ allocs.*2 → c ∉ calls.*2.
Proof.
  intros Hrep Hal c Hc Hin.
  apply list_elem_of_fmap in Hc as ([line c'] & -> & Hc).
  apply list_elem_of_lookup in Hc as [k Hk].
  destruct (ar_sites _ _ _ Hal k line c' Hk) as (F & call & news & Hsite).
  pose proof (st_call _ _ _ _ _ _ _ _ _ Hsite) as Hcall.
  simpl in Hin. by rewrite (nr_gone _ _ _ Hrep c' Hin) in Hcall.
Qed.

Lemma member_by_decide (x : nat) (l : list nat) :
  bool_decide (x ∈ l) = true → x ∈ l.
Proof. apply bool_decide_eq_true_1. Qed.

Lemma absent_by_decide (x : nat) (l : list nat) :
  bool_decide (x ∈ l) = false → x ∉ l.
Proof. apply bool_decide_eq_false_1. Qed.

(** A run finishes only if it rewrote every call once: no call was
    collected twice as a NondetReplace site (a call that mentions
    nondeterministic stubs in two operand slots is, and the second
    [replaceCall] would follow a pointer to an erased instruction), and no
    collected allocation site had been erased as a NondetReplace site. *)
Theorem a_finished_run_rewrote_no_call_twice env m b w' :
  bounded m →
  runOnModule env (initial m) = Done b w' →
  NoDup (nondet_worklist (sites m)).*2 ∧
  ∀ c, c ∈ (alloc_worklist (sites m)).*2 →
       c ∉ (nondet_worklist (sites m)).*2.
Proof.
  intros Hb H.
  destruct (run_phases env m b w' Hb H)
    as (w1 & w2 & _ & _ & _ & _ & _ & _ & _ & Hrep & Hal).
  split; [exact (nr_nodup _ _ _ Hrep)|].
  by eapply alloc_sites_survive_replaceCalls.
Qed.

Lemma a_finished_run_rewrote_no_call_twice_witness :
  NoDup (nondet_worklist (sites malloc_nondet_unit)).*2 ∧
  1 ∉ (nondet_worklist (sites malloc_nondet_unit)).*2.
Proof.
  destruct (a_finished_run_rewrote_no_call_twice
              (reading "char *p = malloc(__VERIFIER_nondet_int());")
              malloc_nondet_unit true
              (final (reading "char *p = malloc(__VERIFIER_nondet_int());")
                 malloc_nondet_unit))
    as [Hnodup Hdisjoint].
  - apply Claims.bounded_by_decide. vm_compute. reflexivity.
  - vm_compute. reflexivity.
  - split; [exact Hnodup|]. apply Hdisjoint.
    apply member_by_decide. vm_compute. reflexivity.
Defined.

(** Every site gets one private constant string of its own, appended to
    the globals of the unit: first those of the NondetReplace sites, then
    those of the AllocAugment sites in the order they were collected, each
    holding [F:dynalloc:L] for the enclosing function [F] and the recorded
    line [L]; the globals the unit had are left alone. *)
Theorem a_finished_run_names_every_site env m b w' :
  bounded m →
  runOnModule env (initial m) = Done b w' →
  length (globals (M w')) = length (sites m) + length (globals m) ∧
  (∀ g, g < length (globals m) → globals (M w') !! g = globals m !! g) ∧
  ∀ k line c, alloc_worklist (sites m) !! k = Some (line, c) →
    ∃ F,
      parent_function m c = Some F ∧
      globals (M w')
        !! (length (nondet_worklist (sites m)) + k + length (globals m))
      = Some (name_global (derived_name (fname F) "dynalloc" line)).
Proof.
  intros Hb H.
  destruct (run_phases env m b w' Hb H)
    as (w1 & w2 & HM & _ & _ & _ & _ & _ & _ & Hrep & Hal).
  pose proof (nr_globals_length _ _ _ Hrep) as Hlen2.
  pose proof (ar_globals_length _ _ _ Hal) as Hlen'.
  rewrite HM in Hlen2.
  split; [|split].
  - rewrite Hlen', Hlen2, <- (worklists_partition (sites m)). lia.
  - intros g Hg.
    rewrite (ar_globals_old _ _ _ Hal) by lia.
    rewrite (nr_globals_old _ _ _ Hrep) by (rewrite HM; lia).
    by rewrite HM.
  - intros k line c Hk.
    destruct (ar_sites _ _ _ Hal k line c Hk) as (F2 & call & news & Hsite).
    pose proof (st_parent _ _ _ _ _ _ _ _ _ Hsite) as HF2.
    pose proof (st_global _ _ _ _ _ _ _ _ _ Hsite) as Hg.
    assert (c ∈ (alloc_worklist (sites m)).*2) as Hc.
    { apply list_elem_of_fmap. exists (line, c). split; [done|].
      by eapply list_elem_of_lookup_2. }
    pose proof (alloc_sites_survive_replaceCalls _ _ _ _ _ Hrep Hal c Hc)
      as Hnot.
    destruct (worklists_old m Hb) as [_ Hold].
    pose proof (proj1 (Forall_lookup _ _) Hold k _ Hk) as Hlt.
    simpl in Hlt.
    pose proof (nr_parents _ _ _ Hrep c) as Hpar.
    rewrite HM in Hpar. specialize (Hpar Hlt Hnot).
    rewrite HF2 in Hpar. simpl in Hpar.
    destruct (parent_function m c) as [F|] eqn:HF; [|done].
    simpl in Hpar. injection Hpar as Hname.
    exists F. split; [done|].
    rewrite Hlen2 in Hg. rewrite <- Hname.
    replace (length (nondet_worklist (sites m)) + k + length (globals m))
      with (k + (length (nondet_worklist (sites m)) + length (globals m)))
      by lia.
    exact Hg.
Qed.

Lemma a_finished_run_names_every_site_witness :
  let w' := final (reading "char *p = malloc(__VERIFIER_nondet_int());")
              malloc_nondet_unit in
  length (globals (M w'))
  = length (sites malloc_nondet_unit) + length (globals malloc_nondet_unit) ∧
  ∃ F,
    parent_function malloc_nondet_unit 1 = Some F ∧
    globals (M w')
      !! (length (nondet_worklist (sites malloc_nondet_unit)) + 0
          + length (globals malloc_nondet_unit))
    = Some (name_global (derived_name (fname F) "dynalloc" 10)).
Proof.
  destruct (a_finished_run_names_every_site
              (reading "char *p = malloc(__VERIFIER_nondet_int());")
              malloc_nondet_unit true
              (final (reading "char *p = malloc(__VERIFIER_nondet_int());")
                 malloc_nondet_unit))
    as (Hlength & _ & Hnames).
  - apply Claims.bounded_by_decide. vm_compute. reflexivity.
  - vm_compute. reflexivity.
  - split; [exact Hlength|]. apply (Hnames 0 10%N 1). reflexivity.
Defined.

Lemma subst_instruction_fixed c v i :
  Forall (λ o, o ≠ Inst c) (operands i) → subst_instruction c v i = i.
Proof.
  intros Hops.
  assert (∀ o, o ≠ Inst c → subst_value c v o = o) as Hval.
  { intros o Ho. unfold subst_value.
    destruct o as [j| | | | |]; simpl; try done.
    destruct (Nat.eqb_spec j c) as [->|]; done. }
  assert (∀ l, Forall (λ o, o ≠ Inst c) l → subst_value c v <$> l = l)
    as Hlist.
  { induction 1 as [|o l Ho _ IH]; [done|].
    by rewrite fmap_cons, Hval, IH. }
  destruct i as [id name ty op loc md attrs].
  unfold subst_instruction, operands in *. simpl in *. f_equal.
  destruct op as [callee args| | | |a b0|ops]; simpl in *.
  - apply Forall_app in Hops as [Hargs Hcallee].
    apply Forall_cons in Hcallee as [Hcallee _].
    by rewrite Hval, Hlist.
  - done.
  - apply Forall_cons in Hops as [Ho _]. by rewrite Hval.
  - apply Forall_cons in Hops as [Ho _]. by rewrite Hval.
  - apply Forall_cons in Hops as [Ha Hops].
    apply Forall_cons in Hops as [Hb0 _]. by rewrite !Hval.
  - by rewrite Hlist.
Qed.

Lemma loads_fixed cs n i :
  Forall (λ o, ∀ c, c ∈ cs → o ≠ Inst c) (operands i) →
  Forall (λ cl : nat * nat, subst_instruction cl.1 (Inst cl.2) i = i)
         (loads n cs).
Proof.
  revert n. induction cs as [|c cs IH]; intros n Hops; [constructor|].
  simpl. constructor.
  - simpl. apply subst_instruction_fixed.
    eapply Forall_impl; [exact Hops|]. simpl. intros o Ho. apply Ho.
    by left.
  - apply IH.
    eapply Forall_impl; [exact Hops|]. simpl. intros o Ho c' Hc'.
    apply Ho. by right.
Qed.

(** What a finished run does to an instruction that is not a replaced
    call: it is still there under its identity, with its uses of replaced
    calls redirected to the loads that stand for them and nothing else
    changed; an instruction that uses no replaced call is exactly as it
    was. In particular an allocation call is kept, but reads the load
    when an argument of it was a replaced call. *)
Theorem a_finished_run_only_redirects_uses env m b w' :
  bounded m →
  runOnModule env (initial m) = Done b w' →
  ∀ x i,
    lookup_inst m x = Some i →
    x ∉ (nondet_worklist (sites m)).*2 →
    lookup_inst (M w') x
    = Some (redirect (loads (fresh m) (nondet_worklist (sites m)).*2) i) ∧
    (Forall (λ o, ∀ c, c ∈ (nondet_worklist (sites m)).*2 → o ≠ Inst c)
            (operands i) →
     lookup_inst (M w') x = Some i).
Proof.
  intros Hb H x i Hi Hx.
  destruct (run_phases env m b w' Hb H)
    as (w1 & w2 & HM & _ & _ & _ & _ & _ & _ & Hrep & Hal).
  assert (x < fresh m) as Hlt.
  { destruct (lookup_inst_Some _ _ _ Hi) as [Hin <-].
    unfold bounded in Hb. rewrite Forall_forall in Hb. by apply Hb. }
  assert (lookup_inst (M w') x
          = Some (redirect (loads (fresh m) (nondet_worklist (sites m)).*2)
                    i)) as Hres.
  { rewrite (ar_kept _ _ _ Hal)
      by (rewrite (nr_fresh _ _ _ Hrep), HM; lia).
    rewrite (nr_other _ _ _ Hrep) by (rewrite ?HM; done).
    by rewrite HM, Hi. }
  split; [exact Hres|].
  intros Hops. rewrite Hres. f_equal.
  by apply redirect_fixed, loads_fixed.
Qed.

Lemma a_finished_run_only_redirects_uses_witness :
  let w' := final (reading "char *p = malloc(__VERIFIER_nondet_int());")
              malloc_nondet_unit in
  lookup_inst (M w') 1
  = Some (redirect
            (loads (fresh malloc_nondet_unit)
               (nondet_worklist (sites malloc_nondet_unit)).*2)
            (at_line 10 1 Int8PtrTy (Call (FunctionRef "malloc") [Inst 0]))) ∧
  lookup_inst (M w') 2 = Some (created 2 (Other [Inst 1]) VoidTy "").
Proof.
  pose proof (a_finished_run_only_redirects_uses
                (reading "char *p = malloc(__VERIFIER_nondet_int());")
                malloc_nondet_unit true
                (final (reading "char *p = malloc(__VERIFIER_nondet_int());")
                   malloc_nondet_unit)
                ltac:(apply Claims.bounded_by_decide; vm_compute;
                      reflexivity)
                ltac:(vm_compute; reflexivity)) as Hframe.
  split.
  - apply (Hframe 1
             (at_line 10 1 Int8PtrTy (Call (FunctionRef "malloc") [Inst 0]))
             ltac:(vm_compute; reflexivity)
             ltac:(apply absent_by_decide; vm_compute; reflexivity)).
  - apply (Hframe 2 (created 2 (Other [Inst 1]) VoidTy "")
             ltac:(vm_compute; reflexivity)
             ltac:(apply absent_by_decide; vm_compute; reflexivity)).
    constructor; [|constructor].
    intros c Hc. apply list_elem_of_In in Hc. vm_compute in Hc.
    destruct Hc as [<-|[]]. discriminate.
Defined.

(** ** Where the new instructions stand *)

Lemma unique_by_decide (l : list nat) :
  bool_decide (NoDup l) = true → NoDup l.
Proof. intros H. by apply bool_decide_eq_true in H. Qed.

Lemma NoDup_block m b :
  NoDup (iid <$> insts m) → b ∈ blocks m → NoDup (iid <$> b).
Proof.
  rewrite insts_blocks. induction (blocks m) as [|b0 bs IH]; intros Hnd Hb.
  - by apply elem_of_nil in Hb.
  - simpl in Hnd. rewrite fmap_app in Hnd.
    apply NoDup_app in Hnd as (Hb0 & _ & Hbs).
    apply elem_of_cons in Hb as [->|Hb]; [done | by apply IH].
Qed.

Lemma others_of_block c pre call post :
  iid call = c → NoDup (iid <$> pre ++ call :: post) →
  Forall (λ i, iid i ≠ c) pre ∧ Forall (λ i, iid i ≠ c) post.
Proof.
  intros <- Hnd. rewrite fmap_app, fmap_cons in Hnd.
  apply NoDup_app in Hnd as (_ & Hpre & Hpost).
  apply NoDup_cons in Hpost as [Hpost _].
  split; apply Forall_forall; intros i Hi Heq.
  - apply (Hpre (iid i)); [by apply list_elem_of_fmap_2|].
    rewrite Heq. by left.
  - apply Hpost. rewrite <- Heq. by apply list_elem_of_fmap_2.
Qed.




Lemma augment_at c news pre call post :
  iid call = c →
  Forall (λ i, iid i ≠ c) pre → Forall (λ i, iid i ≠ c) post →
  flat_map (augment_with c news) (pre ++ call :: post)
  = pre ++ call :: news ++ post.
Proof.
  intros Hid Hpre Hpost. rewrite flat_map_app. simpl.
  rewrite !augment_segment by done.
  unfold augment_with at 1, has_id. by rewrite Hid, Nat.eqb_refl.
Qed.

(** [handleAlloc] only adds: every instruction of the unit stays as it
    was, and directly after the call stand the cast of the returned
    pointer and the registration of the call's first operand, or, for a
    callee named exactly [calloc], the product of its two operands, the
    cast and the registration of the product. Identities are unique in
    the unit. *)
Theorem handleAlloc_adds_after_the_call c line var w w' :
  bounded (M w) →
  NoDup (iid <$> insts (M w)) →
  handleAlloc c line var w = Done tt w' →
  ∃ F call pre post callee args a0 news,
    parent_function (M w) c = Some F ∧
    lookup_inst (M w) c = Some call ∧
    iop call = Call (FunctionRef callee) args ∧
    operands call !! 0 = Some a0 ∧
    pre ++ call :: post ∈ blocks (M w) ∧
    pre ++ call :: news ++ post ∈ blocks (M w') ∧
    (∀ x, x < fresh (M w) → lookup_inst (M w') x = lookup_inst (M w) x) ∧
    let n := fresh (M w) in
    let registration_of first nbytes :=
      created first
        (Call (FunctionRef (vms_of w))
           [Inst n; nbytes;
            ConstantPointerCast (GlobalRef (length (globals (M w))))
              Int8PtrTy;
            ConstantInt_get Int32Ty
              (unsigned_succ (handleAlloc_call_identifier w))])
        VoidTy "" in
    (callee = "calloc" ∧
     (∃ a1 ty, operands call !! 1 = Some a1 ∧
        news = [ created (1 + n) (Mul a0 a1) ty "";
                 created n (PointerCast (Inst c)) Int8PtrTy "";
                 registration_of (2 + n) (Inst (1 + n)) ])
     ∨
     callee ≠ "calloc" ∧
     news = [ created n (PointerCast (Inst c)) Int8PtrTy "";
              registration_of (1 + n) a0 ]).
Proof.
  intros Hb Hnd H.
  destruct (handleAlloc_step _ _ _ _ _ Hb H) as (F & call & news & Hstep).
  pose proof (as_call _ _ _ _ _ _ _ _ Hstep) as Hcall.
  destruct (block_of_inst _ _ _ Hcall) as (b & pre & post & Hin & ->).
  destruct (as_news _ _ _ _ _ _ _ _ Hstep)
    as (callee & args & a0 & Hop & Ha0 & Hnews).
  exists F, call, pre, post, callee, args, a0, news.
  split; [exact (as_parent _ _ _ _ _ _ _ _ Hstep)|].
  split; [done|]. split; [done|]. split; [done|]. split; [done|].
  destruct (lookup_inst_Some _ _ _ Hcall) as [_ Hid].
  destruct (others_of_block c pre call post Hid
              (NoDup_block _ _ Hnd Hin)) as [Hpre Hpost].
  split; [|split].
  - rewrite (as_blocks _ _ _ _ _ _ _ _ Hstep).
    apply list_elem_of_fmap. exists (pre ++ call :: post).
    split; [|done]. by rewrite augment_at.
  - exact (as_kept _ _ _ _ _ _ _ _ Hstep).
  - cbv zeta. exact Hnews.
Qed.

Lemma handleAlloc_adds_after_the_call_witness :
  let w := initial calloc_unit in
  let w' := state_after (handleAlloc 0 0 "dynalloc") w in
  ∃ F call pre post callee args a0 news,
    parent_function (M w) 0 = Some F ∧
    lookup_inst (M w) 0 = Some call ∧
    iop call = Call (FunctionRef callee) args ∧
    operands call !! 0 = Some a0 ∧
    pre ++ call :: post ∈ blocks (M w) ∧
    pre ++ call :: news ++ post ∈ blocks (M w') ∧
    (∀ x, x < fresh (M w) → lookup_inst (M w') x = lookup_inst (M w) x) ∧
    let n := fresh (M w) in
    let registration_of first nbytes :=
      created first
        (Call (FunctionRef (vms_of w))
           [Inst n; nbytes;
            ConstantPointerCast (GlobalRef (length (globals (M w))))
              Int8PtrTy;
            ConstantInt_get Int32Ty
              (unsigned_succ (handleAlloc_call_identifier w))])
        VoidTy "" in
    (callee = "calloc" ∧
     (∃ a1 ty, operands call !! 1 = Some a1 ∧
        news = [ created (1 + n) (Mul a0 a1) ty "";
                 created n (PointerCast (Inst 0)) Int8PtrTy "";
                 registration_of (2 + n) (Inst (1 + n)) ])
     ∨
     callee ≠ "calloc" ∧
     news = [ created n (PointerCast (Inst 0)) Int8PtrTy "";
              registration_of (1 + n) a0 ]).
Proof.
  apply (handleAlloc_adds_after_the_call 0 0 "dynalloc"
           (initial calloc_unit)).
  - apply Claims.bounded_by_decide. vm_compute. reflexivity.
  - apply unique_by_decide. vm_compute. reflexivity.
  - vm_compute. reflexivity.
Defined.

(** ** What the registrations of a finished run carry *)

(** In a finished run the registration of the [k]-th replaced call carries
    the debug location, the metadata and the attributes of that call, and
    registers the allocation size of the call's result type as a constant
    of the type [get_size_t] chose for the unit: 64 bits wide when
    pointers are wider than 32 bits, 32 bits wide otherwise. *)
Theorem a_replaced_call_registers_the_size_of_its_type env m b w' :
  bounded m →
  runOnModule env (initial m) = Done b w' →
  ∀ k line c, nondet_worklist (sites m) !! k = Some (line, c) →
    ∃ call reg,
      lookup_inst m c = Some call ∧
      lookup_inst (M w') (2 + (4 * k + fresh m)) = Some reg ∧
      operands reg !! 1
      = Some (ConstantInt_get
                (if (32 <? pointer_size_bits m)%N then Int64Ty else Int32Ty)
                (type_alloc_size m (itype call))) ∧
      idebugloc reg = idebugloc call ∧
      imetadata reg = imetadata call ∧
      iattributes reg = iattributes call.
Proof.
  intros Hb H k line c Hk.
  destruct (run_phases env m b w' Hb H)
    as (w1 & w2 & HM & _ & Hsize & _ & _ & _ & _ & Hrep & Hal).
  destruct (nr_new _ _ _ Hrep k line c Hk)
    as (F & call & _ & Hcall & _ & Hnew).
  specialize (Hnew 2 ltac:(lia)).
  unfold size_t_of in Hnew. rewrite Hsize, HM in Hnew. rewrite HM in Hcall.
  simpl in Hnew.
  pose proof (lookup_lt_Some _ _ _ Hk) as Hlt.
  eexists call, _. split; [done|]. split.
  - rewrite (ar_kept _ _ _ Hal); [exact Hnew|].
    rewrite (nr_fresh _ _ _ Hrep), HM. lia.
  - done.
Qed.

Lemma a_replaced_call_registers_the_size_of_its_type_witness :
  let w' := final (reading "int x = __VERIFIER_nondet_int();") foo_unit in
  ∃ call reg,
    lookup_inst foo_unit 0 = Some call ∧
    lookup_inst (M w') (2 + (4 * 0 + fresh foo_unit)) = Some reg ∧
    operands reg !! 1
    = Some (ConstantInt_get
              (if (32 <? pointer_size_bits foo_unit)%N
               then Int64Ty else Int32Ty)
              (type_alloc_size foo_unit (itype call))) ∧
    idebugloc reg = idebugloc call ∧
    imetadata reg = imetadata call ∧
    iattributes reg = iattributes call.
Proof.
  apply (a_replaced_call_registers_the_size_of_its_type
           (reading "int x = __VERIFIER_nondet_int();") foo_unit true
           (final (reading "int x = __VERIFIER_nondet_int();") foo_unit)
           ltac:(apply Claims.bounded_by_decide; vm_compute; reflexivity)
           ltac:(vm_compute; reflexivity)
           0 10%N 0).
  reflexivity.
Defined.

(** The allocations are augmented after the calls were replaced: in a
    finished run the [k]-th collected allocation call is in the unit as
    the replacements left it, and what was added for it (the cast and the
    registration, for [calloc] the product too) reads the operands of
    that call, so a size that was a replaced call is registered as the
    load that stands for it. Its name is the global after those of the
    replaced calls and its identifier is [k + 1], counted separately from
    the identifiers of the replaced calls. *)
Theorem an_allocation_is_augmented_after_the_replacements env m b w' :
  bounded m →
  runOnModule env (initial m) = Done b w' →
  ∀ k line c, alloc_worklist (sites m) !! k = Some (line, c) →
    ∃ orig news n,
      lookup_inst m c = Some orig ∧
      let call :=
        redirect (loads (fresh m) (nondet_worklist (sites m)).*2) orig in
      lookup_inst (M w') c = Some call ∧
      alloc_news_spec c call n "klee_make_nondet"
        (k + (length (nondet_worklist (sites m)) + length (globals m)))
        (Nat.iter (S k) unsigned_succ 0%N) news ∧
      (∀ i, i ∈ news → lookup_inst (M w') (iid i) = Some i) ∧
      Forall (λ i, lookup_inst m (iid i) = None) news.
Proof.
  intros Hb H k line c Hk.
  destruct (run_phases env m b w' Hb H)
    as (w1 & w2 & HM & Hvms & _ & _ & Hstatic & _ & _ & Hrep & Hal).
  destruct (ar_sites _ _ _ Hal k line c Hk) as (F2 & call & news & Hsite).
  pose proof (st_call _ _ _ _ _ _ _ _ _ Hsite) as Hcall.
  pose proof (st_news _ _ _ _ _ _ _ _ _ Hsite) as Hnews.
  assert (c ∈ (alloc_worklist (sites m)).*2) as Hc.
  { apply list_elem_of_fmap. exists (line, c). split; [done|].
    by eapply list_elem_of_lookup_2. }
  pose proof (alloc_sites_survive_replaceCalls _ _ _ _ _ Hrep Hal c Hc)
    as Hnot.
  destruct (worklists_old m Hb) as [_ Hold].
  pose proof (proj1 (Forall_lookup _ _) Hold k _ Hk) as Hlt.
  simpl in Hlt.
  pose proof (nr_other _ _ _ Hrep c) as Hother.
  rewrite HM in Hother. specialize (Hother Hlt Hnot).
  rewrite Hcall in Hother.
  destruct (lookup_inst m c) as [orig|] eqn:Horig; [|done].
  simpl in Hother. injection Hother as ->.
  exists orig, news, (alloc_base (M w2) (fresh (M w2))
                        (alloc_worklist (sites m)).*2 k).
  split; [done|]. cbv zeta. split; [|split; [|split]].
  - rewrite (ar_kept _ _ _ Hal); [done|].
    rewrite (nr_fresh _ _ _ Hrep), HM. lia.
  - rewrite (nr_vms_of _ _ _ Hrep), (nr_static _ _ _ Hrep), Hstatic,
      (nr_globals_length _ _ _ Hrep), HM in Hnews.
    unfold vms_of in Hnews. rewrite Hvms in Hnews. exact Hnews.
  - exact (st_lookup _ _ _ _ _ _ _ _ _ Hsite).
  - eapply Forall_impl; [exact (st_fresh _ _ _ _ _ _ _ _ _ Hsite)|].
    simpl. intros i [Hge _]. apply find_inst_None.
    unfold bounded in Hb. eapply Forall_impl; [exact Hb|].
    simpl. intros j Hj. rewrite (nr_fresh _ _ _ Hrep), HM in Hge. lia.
Qed.

Lemma an_allocation_is_augmented_after_the_replacements_witness :
  let w' := final (reading "char *p = malloc(__VERIFIER_nondet_int());")
              malloc_nondet_unit in
  ∃ orig news n,
    lookup_inst malloc_nondet_unit 1 = Some orig ∧
    let call :=
      redirect
        (loads (fresh malloc_nondet_unit)
           (nondet_worklist (sites malloc_nondet_unit)).*2) orig in
    lookup_inst (M w') 1 = Some call ∧
    alloc_news_spec 1 call n "klee_make_nondet"
      (0 + (length (nondet_worklist (sites malloc_nondet_unit))
            + length (globals malloc_nondet_unit)))
      (Nat.iter 1 unsigned_succ 0%N) news ∧
    (∀ i, i ∈ news → lookup_inst (M w') (iid i) = Some i) ∧
    Forall (λ i, lookup_inst malloc_nondet_unit (iid i) = None) news.
Proof.
  apply (an_allocation_is_augmented_after_the_replacements
           (reading "char *p = malloc(__VERIFIER_nondet_int());")
           malloc_nondet_unit true
           (final (reading "char *p = malloc(__VERIFIER_nondet_int());")
              malloc_nondet_unit)
           ltac:(apply Claims.bounded_by_decide; vm_compute; reflexivity)
           ltac:(vm_compute; reflexivity)
           0 10%N 1).
  reflexivity.
Defined.

(** ** When the pass finishes *)

Lemma finishes_bind {A B} (c : run A) (k : A → run B) w a w1 :
  c w = Done a w1 → finishes (k a) w1 → finishes (bind c k) w.
Proof. unfold finishes, bind. by intros ->. Qed.

Lemma finishes_unit (c : run unit) w :
  finishes c w → ∃ w', c w = Done tt w'.
Proof. intros ([] & w' & H). eauto. Qed.

Lemma get_verifier_make_nondet_finishes w :
  resolvable w →
  ∃ w', get_verifier_make_nondet w = Done (vms_of w) w'.
Proof.
  unfold resolvable. intros Hres. unfold get_verifier_make_nondet.
  unfold bind at 1. unfold get at 1. unfold vms_of.
  destruct (_vms w) as [F|] eqn:Hvms.
  { simpl. unfold ret. by exists w. }
  destruct Hres as [[? ?]|Hfree]; [done|].
  unfold bind at 1. rewrite get_size_t_run.
  unfold bind at 1. unfold getOrInsertFunction_cast.
  unfold bind at 1. unfold get at 1. cbn [M with_size_t_Ty].
  unfold name_taken in Hfree.
  destruct (lookup_function (M w) "klee_make_nondet") as [G|] eqn:Hlook.
  - destruct (type_eqb (ftype G) _) eqn:Hty.
    + unfold ret, bind, modify. norm. eauto.
    + exfalso. apply Hfree. left. exists G. split; [done|].
      intros Heq. rewrite Heq in Hty.
      by rewrite type_eqb_refl in Hty.
  - destruct (existsb _ (globals (M w))) eqn:Hglob.
    + exfalso. apply Hfree. by right.
    + unfold ret, bind, modify. norm. eauto.
Qed.

Lemma resolvable_after w W :
  _vms W = _vms w →
  ftype <$> lookup_function (M W) "klee_make_nondet"
  = ftype <$> lookup_function (M w) "klee_make_nondet" →
  (∃ s, globals (M W) = globals (M w) ++ [name_global s]) →
  size_t_of W = size_t_of w →
  resolvable w → resolvable W.
Proof.
  unfold resolvable, name_taken.
  intros -> Hfun [s ->] -> [Hvms|Hfree]; [by left|]. right.
  rewrite existsb_app. simpl. rewrite !orb_false_r.
  intros [(G & HG & Hty)|(Hnone & Hglob)]; apply Hfree.
  - rewrite HG in Hfun.
    destruct (lookup_function (M w) "klee_make_nondet") as [G'|]; [|done].
    simpl in Hfun. injection Hfun as Hfun. left. exists G'.
    split; [done|]. by rewrite <- Hfun.
  - rewrite Hnone in Hfun.
    destruct (lookup_function (M w) "klee_make_nondet") as [G'|]; [done|].
    by right.
Qed.

(** Steps over a computation that cannot stop. *)
Ltac run_total := eapply finishes_bind; [reflexivity|].

Lemma replaceCall_finishes c line var w F call :
  parent_function (M w) c = Some F →
  lookup_inst (M w) c = Some call →
  resolvable w →
  ∃ w', replaceCall c line var w = Done tt w'.
Proof.
  intros HF Hcall Hres. apply finishes_unit. unfold replaceCall.
  eapply finishes_bind.
  { unfold parent_name, bind, get. rewrite HF. reflexivity. }
  run_total. run_total.
  eapply finishes_bind.
  { unfold get, new_name_global, bind, modify, ret. simpl.
    unfold lookup_inst, insts in *. simpl. rewrite Hcall. reflexivity. }
  run_total. run_total.
  eapply finishes_bind; [apply get_size_t_run|].
  run_total. run_total.
  match goal with
  | |- finishes (bind get_verifier_make_nondet _) ?W =>
      destruct (get_verifier_make_nondet_finishes W) as [w1 Hrun]
  end.
  { eapply resolvable_after; [| | | |exact Hres].
    - reflexivity.
    - reflexivity.
    - eexists. reflexivity.
    - unfold size_t_of. simpl. by destruct (_size_t_Ty w). }
  eapply finishes_bind; [exact Hrun|].
  run_total. run_total.
  do 5 run_total. unfold on_module, modify. by eexists _, _.
Qed.

Lemma typed_extends m m' v : extends m m' → typed m v → typed m' v.
Proof.
  intros Hext. unfold typed. destruct v; simpl; try done.
  - rewrite !fmap_is_Some. apply (ext_insts _ _ Hext).
  - rewrite !fmap_is_Some. apply (ext_functions _ _ Hext).
  - rewrite !fmap_is_Some. apply (ext_globals _ _ Hext).
Qed.

Lemma find_inst_is_Some x (l : list instruction) :
  is_Some (find_inst x l) ↔ ∃ i, i ∈ l ∧ iid i = x.
Proof.
  split.
  - intros [i Hi]. apply find_inst_Some in Hi. eauto.
  - intros (i & Hi & Hid).
    destruct (find_inst x l) eqn:Hfind; [eauto|].
    apply find_inst_None in Hfind. rewrite Forall_forall in Hfind.
    by destruct (Hfind i Hi).
Qed.

Lemma extends_insertAfter new pos m gs n :
  extends m (insertAfter new pos (with_fresh n (with_globals (globals m ++ gs) m))).
Proof.
  split.
  - intros x. unfold lookup_inst, insertAfter. rewrite insts_edit.
    unfold insts. simpl. rewrite !find_inst_is_Some.
    intros (i & Hi & Hid). exists i. split; [|done].
    apply list_elem_of_In, in_flat_map. exists i.
    split; [by apply list_elem_of_In|].
    destruct (has_id pos i); simpl; auto.
  - intros f. unfold lookup_function, insertAfter, edit. simpl.
    rewrite find_function_edit, fmap_is_Some. done.
  - intros g. simpl. intros [G HG]. exists G. by apply lookup_app_l_Some.
Qed.

Lemma lookup_parent m c call :
  lookup_inst m c = Some call → is_Some (parent_function m c).
Proof.
  unfold lookup_inst, parent_function, find_parent, insts.
  induction (functions m) as [|F fs IH]; [done|].
  simpl. rewrite find_inst_app, existsb_has_id.
  destruct (find_inst c (function_insts F)) as [i|] eqn:Hfind.
  - rewrite bool_decide_eq_true_2 by eauto. eauto.
  - rewrite bool_decide_eq_false_2 by (by intros [? ?]). exact IH.
Qed.

Lemma bind_run {A B} (c : run A) (k : A → run B) w a w1 :
  c w = Done a w1 → bind c k w = k a w1.
Proof. unfold bind. by intros ->. Qed.

Lemma lookup_function_edit_type h m f :
  ftype <$> lookup_function (edit h m) f = ftype <$> lookup_function m f.
Proof.
  unfold lookup_function, edit. simpl. rewrite find_function_edit.
  by destruct (find_function f (functions m)).
Qed.

Lemma deref_Some {A} what (p : option A) a w :
  p = Some a → deref what p w = Done a w.
Proof. by intros ->. Qed.

Lemma handleAlloc_finishes c line var w :
  alloc_ready (M w) c →
  resolvable w →
  ∃ w', handleAlloc c line var w = Done tt w'.
Proof.
  intros (call & callee & args & Hcall & Hop & Hcalloc) Hres.
  destruct (lookup_parent _ _ _ Hcall) as [F HF].
  assert (∃ a0, operands call !! 0 = Some a0) as [a0 Ha0].
  { unfold operands. rewrite Hop. destruct args; simpl; eauto. }
  set (m1 := with_globals
               (globals (M w)
                ++ [name_global (derived_name (fname F) var line)]) (M w)).
  set (CastI := created (fresh m1) (PointerCast (Inst c)) Int8PtrTy "").
  set (m2 := insertAfter CastI c (with_fresh (S (fresh m1)) m1)).
  assert (∃ nbytes W,
            (if String.eqb callee "calloc" then
               let* a0 := getOperand call 0 in
               let* a1 := getOperand call 1 in
               let* m := get M in
               let* ty := deref "operand without a type" (getType m a0) in
               let* MulI := new_instruction (Mul a0 a1) ty "" in
               on_module (insertBefore MulI (iid CastI)) ;;
               ret (Inst (iid MulI))
             else getOperand call 0)
              (with_M m2 (with_M (with_fresh (S (fresh m1)) m1)
                            (with_M m1 w)))
            = Done nbytes W ∧
            _vms W = _vms w ∧ size_t_of W = size_t_of w ∧
            ftype <$> lookup_function (M W) "klee_make_nondet"
            = ftype <$> lookup_function (M w) "klee_make_nondet" ∧
            ∃ s, globals (M W) = globals (M w) ++ [name_global s])
    as (nbytes & W & Hnbytes & Hvms & Hsize & Hfun & Hglob).
  { destruct (String.eqb_spec callee "calloc") as [Hc|Hc].
    - destruct (Hcalloc Hc) as (a0' & a1 & Ha0' & Ha1 & Hty).
      assert (typed m2 a0') as [ty Hty']
        by (eapply typed_extends; [|exact Hty]; apply extends_insertAfter).
      eexists _, _. split.
      { unfold getOperand.
        erewrite bind_run by (apply deref_Some; exact Ha0').
        erewrite bind_run by (apply deref_Some; exact Ha1).
        erewrite bind_run by reflexivity.
        erewrite bind_run by (apply deref_Some; exact Hty').
        reflexivity. }
      split; [done|]. split; [by unfold size_t_of|].
      split; [|by eexists].
      cbn [M with_M]. unfold insertBefore.
      rewrite lookup_function_edit_type.
      change (lookup_function (with_fresh ?n m2)) with (lookup_function m2).
      unfold m2, insertAfter. rewrite lookup_function_edit_type.
      done.
    - eexists _, _. split.
      { unfold getOperand. apply deref_Some. exact Ha0. }
      split; [done|]. split; [by unfold size_t_of|].
      split; [|by eexists]. cbn [M with_M].
      unfold m2, insertAfter. rewrite lookup_function_edit_type. done. }
  apply finishes_unit. unfold handleAlloc.
  eapply finishes_bind.
  { unfold parent_name, bind, get. rewrite HF. reflexivity. }
  run_total. run_total.
  eapply finishes_bind.
  { unfold get, new_name_global, bind, modify, ret. simpl.
    unfold lookup_inst, insts in *. simpl. rewrite Hcall. reflexivity. }
  run_total. run_total.
  eapply finishes_bind.
  { unfold called_function_name. rewrite Hop. reflexivity. }
  eapply finishes_bind; [exact Hnbytes|].
  run_total. run_total.
  match goal with
  | |- finishes (bind get_verifier_make_nondet _) ?W' =>
      destruct (get_verifier_make_nondet_finishes W') as [w1 Hrun]
  end.
  { eapply resolvable_after; [| | | |exact Hres]; done. }
  eapply finishes_bind; [exact Hrun|].
  run_total. unfold on_module, modify. by eexists _, _.
Qed.

Lemma for_each_cons_run {A} (body : A → run unit) x l w w1 :
  body x w = Done tt w1 → for_each body (x :: l) w = for_each body l w1.
Proof. simpl. unfold bind. by intros ->. Qed.

Lemma lookup_old m x :
  bounded m → is_Some (lookup_inst m x) → x < fresh m.
Proof.
  intros Hb [i Hi]. apply lookup_inst_Some in Hi as [Hin <-].
  unfold bounded in Hb. rewrite Forall_forall in Hb. by apply Hb.
Qed.

Lemma replaceCalls_finishes calls : ∀ w,
  bounded (M w) →
  NoDup calls.*2 →
  Forall (λ pr : N * nat, is_Some (lookup_inst (M w) pr.2)) calls →
  resolvable w →
  ∃ w', for_each replaceCalls_body calls w = Done tt w'.
Proof.
  induction calls as [|[line c] calls IH]; intros w Hb Hnd Hcalls Hres.
  - by exists w.
  - apply Forall_cons in Hcalls as [[call Hcall] Hcalls].
    simpl in Hcall. rewrite fmap_cons in Hnd.
    apply NoDup_cons in Hnd as [Hc Hnd]. simpl in Hc.
    destruct (lookup_parent _ _ _ Hcall) as [F HF].
    destruct (replaceCall_finishes c line (var_for (lines w) line) w F call
                HF Hcall Hres) as [w1 Hrun].
    assert (replaceCalls_body (line, c) w = Done tt w1) as Hbody
      by exact Hrun.
    rewrite (for_each_cons_run _ _ _ _ _ Hbody).
    destruct (replaceCall_step _ _ _ _ _ Hb Hrun) as (F' & call' & Hstep).
    apply IH.
    + exact (ns_bounded _ _ _ _ _ _ _ Hstep).
    + exact Hnd.
    + apply Forall_forall. intros [line' c'] Hin.
      rewrite Forall_forall in Hcalls. specialize (Hcalls _ Hin).
      simpl in *.
      rewrite (ns_other _ _ _ _ _ _ _ Hstep).
      * by apply fmap_is_Some.
      * intros ->. apply Hc. apply list_elem_of_fmap.
        by exists (line', c).
      * by apply lookup_old.
    + left. rewrite (ns_vms _ _ _ _ _ _ _ Hstep). eauto.
Qed.

Lemma lookup_function_is_Some m f :
  is_Some (lookup_function m f) ↔ f ∈ fname <$> functions m.
Proof.
  unfold lookup_function.
  pose proof (find_function_None f (functions m)) as Hnone.
  destruct (find_function f (functions m)) as [F|].
  - split; [|eauto]. intros _.
    destruct (decide (f ∈ fname <$> functions m)) as [|Hnin]; [done|].
    by apply Hnone in Hnin.
  - split; [by intros [? ?]|]. intros Hin.
    exfalso. by apply (proj1 Hnone).
Qed.

Lemma extends_alloc_step c line var w w' F call news :
  bounded (M w) →
  alloc_step c line var w w' F call news → extends (M w) (M w').
Proof.
  intros Hb Hstep. split.
  - intros x Hx. rewrite (as_kept _ _ _ _ _ _ _ _ Hstep); [done|].
    by apply lookup_old.
  - intros f. rewrite !lookup_function_is_Some.
    destruct (as_functions _ _ _ _ _ _ _ _ Hstep) as (extra & -> & _).
    intros Hf. apply elem_of_app. by left.
  - intros g [G HG]. rewrite (as_globals _ _ _ _ _ _ _ _ Hstep).
    exists G. by apply lookup_app_l_Some.
Qed.

Lemma alloc_ready_kept m m' c :
  extends m m' → lookup_inst m' c = lookup_inst m c →
  alloc_ready m c → alloc_ready m' c.
Proof.
  intros Hext Hkept (call & callee & args & Hcall & Hop & Hcalloc).
  exists call, callee, args. split; [by rewrite Hkept|]. split; [done|].
  intros Hc. destruct (Hcalloc Hc) as (a0 & a1 & Ha0 & Ha1 & Hty).
  exists a0, a1. split; [done|]. split; [done|].
  by eapply typed_extends.
Qed.

Lemma handleAllocs_finishes allocs : ∀ w,
  bounded (M w) →
  Forall (λ pr : N * nat, alloc_ready (M w) pr.2) allocs →
  resolvable w →
  ∃ w', for_each handleAllocs_body allocs w = Done tt w'.
Proof.
  induction allocs as [|[line c] allocs IH]; intros w Hb Hallocs Hres.
  - by exists w.
  - apply Forall_cons in Hallocs as [Hready Hallocs]. simpl in Hready.
    destruct (handleAlloc_finishes c line "dynalloc" w Hready Hres)
      as [w1 Hrun].
    assert (handleAllocs_body (line, c) w = Done tt w1) as Hbody
      by exact Hrun.
    rewrite (for_each_cons_run _ _ _ _ _ Hbody).
    destruct (handleAlloc_step _ _ _ _ _ Hb Hrun)
      as (F & call & news & Hstep).
    apply IH.
    + exact (as_bounded _ _ _ _ _ _ _ _ Hstep).
    + eapply Forall_impl; [exact Hallocs|]. simpl. intros [line' c'] Hr.
      simpl in *. eapply alloc_ready_kept; [| |exact Hr].
      * by eapply extends_alloc_step.
      * apply (as_kept _ _ _ _ _ _ _ _ Hstep).
        destruct Hr as (call' & _ & _ & Hcall' & _).
        apply lookup_old; [done|]. rewrite Hcall'. eauto.
    + left. rewrite (as_vms _ _ _ _ _ _ _ _ Hstep). eauto.
Qed.

Lemma iop_redirect_call ρ i callee args :
  iop i = Call (FunctionRef callee) args →
  iop (redirect ρ i) = Call (FunctionRef callee) (redirect_value ρ <$> args).
Proof.
  revert i args. induction ρ as [|[c l] ρ IH]; intros i args Hop.
  - simpl. by rewrite list_fmap_id.
  - rewrite redirect_cons.
    rewrite (IH _ (subst_value c (Inst l) <$> args)).
    + f_equal. rewrite <- list_fmap_compose. done.
    + simpl. by rewrite Hop.
Qed.

Lemma typed_after_replaceCalls calls w w' v :
  bounded (M w) →
  Forall (λ pr : N * nat, pr.2 < fresh (M w)) calls →
  nondet_run calls w w' →
  typed (M w) v →
  typed (M w') (redirect_value (loads (fresh (M w)) calls.*2) v).
Proof.
  intros Hb Hold Hrun Hty.
  assert (Forall (λ c, c < fresh (M w)) calls.*2) as Hold'.
  { apply Forall_fmap. eapply Forall_impl; [exact Hold|]. done. }
  destruct v as [x|ty n|ty n|f|g|v ty].
  - destruct (decide (x ∈ calls.*2)) as [Hin|Hnin].
    + apply list_elem_of_lookup in Hin as [k Hk].
      rewrite (redirect_value_load _ _ k x (nr_nodup _ _ _ Hrun) Hold' Hk).
      destruct (calls !! k) as [[line c]|] eqn:Hcall.
      * destruct (nr_new _ _ _ Hrun k line c Hcall)
          as (F & call & _ & _ & _ & Hnew).
        specialize (Hnew 3 ltac:(lia)).
        unfold typed, getType. rewrite Hnew. simpl. eauto.
      * rewrite list_lookup_fmap, Hcall in Hk. done.
    + rewrite redirect_value_other by done.
      unfold typed in *. simpl in *. apply fmap_is_Some in Hty.
      rewrite (nr_other _ _ _ Hrun); [|by apply lookup_old|done].
      apply fmap_is_Some. by apply fmap_is_Some.
  - by rewrite redirect_value_fixed by (apply Forall_forall; done).
  - by rewrite redirect_value_fixed by (apply Forall_forall; done).
  - rewrite redirect_value_fixed by (apply Forall_forall; done).
    unfold typed in *. simpl in *. apply fmap_is_Some in Hty.
    apply fmap_is_Some. apply lookup_function_is_Some.
    destruct (nr_functions _ _ _ Hrun) as (extra & -> & _).
    apply elem_of_app. left. by apply lookup_function_is_Some.
  - rewrite redirect_value_fixed by (apply Forall_forall; done).
    unfold typed in *. simpl in *. apply fmap_is_Some in Hty.
    apply fmap_is_Some.
    rewrite (nr_globals_old _ _ _ Hrun); [done|].
    by apply lookup_lt_is_Some.
  - by rewrite redirect_value_fixed by (apply Forall_forall; done).
Qed.

Lemma alloc_ready_after_replaceCalls calls w w' c :
  bounded (M w) →
  Forall (λ pr : N * nat, pr.2 < fresh (M w)) calls →
  nondet_run calls w w' →
  c ∉ calls.*2 →
  alloc_ready (M w) c → alloc_ready (M w') c.
Proof.
  intros Hb Hold Hrun Hc (call & callee & args & Hcall & Hop & Hcalloc).
  set (ρ := loads (fresh (M w)) calls.*2).
  exists (redirect ρ call), callee, (redirect_value ρ <$> args).
  split; [|split].
  - rewrite (nr_other _ _ _ Hrun); [by rewrite Hcall| |done].
    apply lookup_old; [done|]. rewrite Hcall. eauto.
  - by apply iop_redirect_call.
  - intros Hcal. destruct (Hcalloc Hcal) as (a0 & a1 & Ha0 & Ha1 & Hty).
    exists (redirect_value ρ a0), (redirect_value ρ a1).
    rewrite operands_redirect, !list_lookup_fmap, Ha0, Ha1.
    split; [done|]. split; [done|].
    by eapply typed_after_replaceCalls.
Qed.

Lemma lines_read_size file (nums : gset N) :
  (N.of_nat (length file) < UINT_MODULUS)%N →
  (∀ k, k ∈ nums → (1 ≤ k ≤ N.of_nat (length file))%N) →
  size (lines_read file 1 nums ∅) = size nums.
Proof.
  intros Hlen Hall. rewrite <- size_dom. f_equal. apply set_eq. intros k.
  rewrite lines_read_dom by done. naive_solver.
Qed.

Lemma mapLines_finishes env m :
  lines_available env m →
  ∃ w1, mapLines_outcome env (collected m) = Done tt w1.
Proof.
  unfold lines_available, mapLines_outcome. intros Hlines.
  pose proof (collected_lines_nums (sites m) (initial m)) as Hn.
  fold (collected m) in Hn. simpl in Hn. rewrite union_empty_r_L in Hn.
  pose proof (collected_calls (sites m) (initial m)) as Hcalls.
  fold (collected m) in Hcalls. simpl in Hcalls.
  destruct (collected_rest (sites m) (initial m)) as (Hl & _).
  fold (collected m) in Hl. simpl in Hl.
  destruct (site_lines (sites m)) as [|k0 ks] eqn:Hsl.
  - rewrite Hn. simpl. rewrite bool_decide_eq_true_2 by done.
    rewrite Hcalls.
    destruct Hlines as [->| ->]; [eauto|].
    rewrite bool_decide_eq_true_2 by done. rewrite orb_true_r. eauto.
  - rewrite bool_decide_eq_false_2.
    2:{ rewrite Hn. intros Hempty.
        assert (k0 ∈ (∅ : gset N)) as Hin by (rewrite <- Hempty; set_solver).
        set_solver. }
    destruct Hlines as (file & -> & [->|[Hlen Hall]]); [eauto|].
    simpl. rewrite Hl, Hn.
    rewrite lines_read_size; [| done |].
    + rewrite bool_decide_eq_true_2 by done. rewrite orb_true_r. eauto.
    + intros k Hk. apply Hall. by apply elem_of_list_to_set in Hk.
Qed.

Lemma resolvable_after_replaceCalls calls w w' :
  nondet_run calls w w' →
  for_each replaceCalls_body calls w = Done tt w' →
  resolvable w → resolvable w'.
Proof.
  intros Hrun Hrep Hres. destruct calls as [|pr calls].
  - simpl in Hrep. unfold ret in Hrep. by injection Hrep as <-.
  - left. rewrite (nr_vms _ _ _ Hrun). eauto.
Qed.

(** The pass finishes on a unit whose identities are bounded when: the
    lines it needs are available; no call is a NondetReplace site twice,
    or one and an allocation site too; every allocation site is a direct
    call (for [calloc], with a second operand and a first operand of the
    unit); and the name [klee_make_nondet] is free or names a function of
    the registration type. *)
Theorem runOnModule_finishes env m :
  bounded m →
  lines_available env m →
  NoDup (nondet_worklist (sites m)).*2 →
  (∀ c, c ∈ (alloc_worklist (sites m)).*2 →
        c ∉ (nondet_worklist (sites m)).*2) →
  Forall (λ pr : N * nat, alloc_ready m pr.2) (alloc_worklist (sites m)) →
  ¬ name_taken m
      (klee_make_nondet_type
         (if (32 <? pointer_size_bits m)%N then Int64Ty else Int32Ty)) →
  ∃ b w', runOnModule env (initial m) = Done b w'.
Proof.
  intros Hb Hlines Hnd Hdisj Hready Hfree.
  rewrite runOnModule_phases. unfold after_phases.
  destruct (mapLines_finishes env m Hlines) as [w1 Hmap]. rewrite Hmap.
  destruct (mapLines_Done _ _ _ Hmap) as (ls & Hw1 & _).
  pose proof (collected_calls (sites m) (initial m)) as Hcalls.
  pose proof (collected_allocs (sites m) (initial m)) as Hallocs.
  fold (collected m) in Hcalls, Hallocs. simpl in Hcalls, Hallocs.
  destruct (collected_rest (sites m) (initial m))
    as (_ & Hvms & Hsize & _).
  fold (collected m) in Hvms, Hsize. simpl in Hvms, Hsize.
  assert (M w1 = m) as HM.
  { rewrite Hw1. simpl. unfold collected. by rewrite M_foldl_record_site. }
  assert (calls_to_replace w1 = nondet_worklist (sites m)) as Hc1
    by (by rewrite Hw1).
  assert (allocs_to_handle w1 = alloc_worklist (sites m)) as Ha1
    by (by rewrite Hw1).
  assert (resolvable w1) as Hres1.
  { right. unfold size_t_of. rewrite Hw1. simpl. rewrite Hsize.
    fold (collected m). unfold collected.
    rewrite M_foldl_record_site. exact Hfree. }
  destruct (worklists_old m Hb) as [Hold1 Hold2].
  rewrite Hc1.
  destruct (replaceCalls_finishes (nondet_worklist (sites m)) w1)
    as [w2 Hrep]; [by rewrite HM | done | | done |].
  { apply Forall_forall. intros pr Hpr.
    apply nondet_worklist_sites in Hpr as (CI & Hin & ->).
    apply sites_insts in Hin. simpl in *. rewrite HM.
    apply find_inst_is_Some. eauto. }
  rewrite Hrep.
  pose proof Hrep as Hrun.
  apply replaceCalls_loop in Hrun; [|by rewrite HM..].
  rewrite (nr_allocs _ _ _ Hrun), Ha1.
  destruct (handleAllocs_finishes (alloc_worklist (sites m)) w2)
    as [w3 Hal].
  - exact (nr_bounded _ _ _ Hrun).
  - apply Forall_forall. intros [line c] Hin.
    rewrite Forall_forall in Hready. specialize (Hready _ Hin).
    simpl in *.
    eapply alloc_ready_after_replaceCalls; [| |exact Hrun| |].
    + by rewrite HM.
    + by rewrite HM.
    + apply Hdisj. apply list_elem_of_fmap. by exists (line, c).
    + by rewrite HM.
  - by eapply resolvable_after_replaceCalls.
  - rewrite Hal. eauto.
Qed.

Lemma runOnModule_finishes_witness :
  ∃ b w', runOnModule unreadable (initial calloc_unit) = Done b w'.
Proof.
  apply (runOnModule_finishes unreadable calloc_unit).
  - apply Claims.bounded_by_decide. vm_compute. reflexivity.
  - vm_compute. right. reflexivity.
  - apply unique_by_decide. vm_compute. reflexivity.
  - intros c _. apply absent_by_decide. vm_compute. reflexivity.
  - assert (alloc_worklist (sites calloc_unit) = [(0%N, 0)]) as ->
      by (vm_compute; reflexivity).
    constructor; [|constructor].
    eexists _, _, _. split; [vm_compute; reflexivity|].
    split; [reflexivity|]. intros _.
    eexists _, _. split; [reflexivity|]. split; [reflexivity|].
    vm_compute. eauto.
  - intros [(G & HG & _)|(_ & Hglobal)].
    + vm_compute in HG. discriminate HG.
    + vm_compute in Hglobal. discriminate Hglobal.
Defined.

End PassExtras.
